(** * news-anchor: the reading system, the pacing calculator and the
      broadcast orchestrator, embedded from the Python sources

    - [PyStr]: the string primitives of Python the sources rely on
      ([str.split], [str.strip], [str.lower], [in], [str.join]).
    - [PyFloat]: binary64 arithmetic, as Python's [float] computes it.
    - [lip_sync_manager]: [src/lip_sync_manager.py].
    - [NewsReadingSystem], [rag_system]: [src/rag_system.py], the class and
      the module-level functions over the global [news_system].
    - [working_voice]: the socket handlers and the narration thread of
      [src/working_voice_addo_fixed.py], and the replies and the
      conversation loop of its class [NewsAnchorAI].
    - [Claimed]: sentences of the specification written out as they stand,
      to be compared with the code; [Scenarios]: the documents and sessions
      of the examples.

    The sections that follow hold the proofs: the position tracker, the
    question answerer, the handlers and sessions, the keyword scorer, the
    pause-aligned segments, the speech rate, and the narration thread under
    interruption; then document loading (extraction, sentence splitting,
    translation, [setup]), retrieval and the prompt, the video loops, the
    question and language handlers, the voice loop of [NewsAnchorAI], and the
    narration thread from start to end, stopped, under any schedule, and
    interrupted by a question among the other threads of the process. *)

From Stdlib Require Import List Ascii String ZArith Lia Bool Arith.
From Stdlib Require Import Permutation Sorted.
From Stdlib Require Import Floats.SpecFloat.
Import ListNotations.

Set Implicit Arguments.

(* ===================================================================== *)
(** * Python strings *)
(* ===================================================================== *)

Module PyStr.

(** A Python [str] is a sequence of code points; the model keeps the code
    points below 256 (ASCII and Latin-1), one [ascii] each. *)
Definition str := list ascii.

(** A literal. *)
Definition py (s : string) : str := list_ascii_of_string s.

Definition code (c : ascii) : nat := nat_of_ascii c.

(** [str.isspace] on one code point below 256: TAB..CR, FS..US, SPACE,
    NEL and NBSP. This is the separator class of [str.split()] and the
    class removed by [str.strip()]. *)
Definition is_space (c : ascii) : bool :=
  let n := code c in
  ((9 <=? n) && (n <=? 13)) || ((28 <=? n) && (n <=? 32))
  || (n =? 133) || (n =? 160).

(** [str.lower] on one code point below 256. *)
Definition lower_char (c : ascii) : ascii :=
  let n := code c in
  if ((65 <=? n) && (n <=? 90))
     || ((192 <=? n) && (n <=? 222) && negb (n =? 215))
  then ascii_of_nat (n + 32) else c.

Definition lower (s : str) : str := map lower_char s.

Definition flush (cur : str) : list str :=
  match cur with [] => [] | _ => [cur] end.

(** [s.split()]: maximal runs of non-space code points, in order; [cur] is
    the word being scanned. *)
Fixpoint split_from (cur s : str) : list str :=
  match s with
  | [] => flush cur
  | c :: s' =>
      if is_space c then flush cur ++ split_from [] s'
      else split_from (cur ++ [c]) s'
  end.

Definition split (s : str) : list str := split_from [] s.

(** [len(s.split())] *)
Definition word_count (s : str) : nat := List.length (split s).

Fixpoint lstrip (s : str) : str :=
  match s with
  | [] => []
  | c :: s' => if is_space c then lstrip s' else s
  end.

Definition rstrip (s : str) : str := rev (lstrip (rev s)).

(** [s.strip()] *)
Definition strip (s : str) : str := rstrip (lstrip s).

Fixpoint starts_with (w s : str) : bool :=
  match w, s with
  | [], _ => true
  | _ :: _, [] => false
  | a :: w', b :: s' => Ascii.eqb a b && starts_with w' s'
  end.

(** [w in s] for two strings: [w] occurs in [s] as a contiguous run. *)
Fixpoint contains (w s : str) : bool :=
  starts_with w s ||
  match s with
  | [] => false
  | _ :: s' => contains w s'
  end.

(** [sep.join(parts)] *)
Fixpoint join (sep : str) (parts : list str) : str :=
  match parts with
  | [] => []
  | [p] => p
  | p :: rest => p ++ sep ++ join sep rest
  end.

Definition str_eqb (a b : str) : bool :=
  if list_eq_dec ascii_dec a b then true else false.

(** [x in xs] for a string and a collection of strings *)
Definition mem (x : str) (xs : list str) : bool := existsb (str_eqb x) xs.

(** Truthiness of a string: non-empty. *)
Definition truthy (s : str) : bool :=
  match s with [] => false | _ => true end.

(** What is left of a string when whitespace is ignored. *)
Definition remove_ws (s : str) : str := filter (fun c => negb (is_space c)) s.

(** A string that [strip] leaves alone: no whitespace at either end. *)
Definition trimmed (s : str) : Prop := lstrip s = s /\ lstrip (rev s) = rev s.

Definition all_space (s : str) : Prop := Forall (fun c => is_space c = true) s.

Definition space : str := [ascii_of_nat 32].
Definition newline : str := [ascii_of_nat 10].
Definition dquote : str := [ascii_of_nat 34].

(** [s.replace(old, new)] for two strings of one code point each. *)
Definition replace_char (old new : ascii) (s : str) : str :=
  map (fun c => if Ascii.eqb c old then new else c) s.

Definition carriage_return : ascii := ascii_of_nat 13.
Definition line_feed : ascii := ascii_of_nat 10.
Definition blank : ascii := ascii_of_nat 32.

(** A word as [split] yields it: non-empty and free of whitespace. *)
Definition is_word (w : str) : Prop :=
  w <> [] /\ Forall (fun c => is_space c = false) w.

End PyStr.

(* ===================================================================== *)
(** * Python floats *)
(* ===================================================================== *)

Module PyFloat.

(** A Python [float] is an IEEE 754 binary64 number: the operations are the
    correctly rounded ones of [SpecFloat] at precision 53. *)
Definition prec : Z := 53.
Definition emax : Z := 1024.
Definition float := spec_float.

(** [float(n)] for an [int]: the nearest binary64 number (exact below
    [2^53]). *)
Definition of_int (n : Z) : float := binary_normalize prec emax n 0 false.

Definition mul (x y : float) : float := SFmul prec emax x y.

Definition is_zero (x : float) : bool :=
  match x with S754_zero _ => true | _ => false end.

(** [x / y]: [None] stands for the [ZeroDivisionError] Python raises on a
    zero divisor. *)
Definition truediv (x y : float) : option float :=
  if is_zero y then None else Some (SFdiv prec emax x y).

(** An [int] as it stands, before any rounding. *)
Definition exact_int (n : Z) : float :=
  match n with
  | Z0 => S754_zero false
  | Zpos p => S754_finite false p 0
  | Zneg p => S754_finite true p 0
  end.

(** [a / b] for two [int]s: Python divides the integers exactly and rounds
    once, to the nearest binary64 number. [None] stands for the
    [ZeroDivisionError] on a zero divisor and for the [OverflowError] on a
    quotient too large for a float. *)
Definition truediv_int (a b : Z) : option float :=
  if (b =? 0)%Z then None
  else
    match SFdiv prec emax (exact_int a) (exact_int b) with
    | S754_infinity _ => None
    | q => Some q
    end.

Definition signed (s : bool) (m : Z) : Z := if s then (- m)%Z else m.

(** [round(x)] with one argument: the nearest integer, ties to the even one;
    [None] stands for the [OverflowError] and [ValueError] Python raises on
    infinities and NaN. *)
Definition round (x : float) : option Z :=
  match x with
  | S754_zero _ => Some 0%Z
  | S754_infinity _ | S754_nan => None
  | S754_finite s m e =>
      Some (signed s
        (match e with
         | Zneg k =>
             let d := Z.pow_pos 2 k in
             let q := (Zpos m / d)%Z in
             let r := (Zpos m mod d)%Z in
             match (2 * r ?= d)%Z with
             | Lt => q
             | Gt => (q + 1)%Z
             | Eq => if Z.even q then q else (q + 1)%Z
             end
         | _ => (Zpos m * 2 ^ e)%Z
         end))
  end.

(** [int(x)]: truncation towards zero; [None] as for [round]. *)
Definition trunc (x : float) : option Z :=
  match x with
  | S754_zero _ => Some 0%Z
  | S754_infinity _ | S754_nan => None
  | S754_finite s m e =>
      Some (signed s
        (match e with
         | Zneg k => (Zpos m / Z.pow_pos 2 k)%Z
         | _ => (Zpos m * 2 ^ e)%Z
         end))
  end.

(** [x < n] and [n < x] for a float and an int: Python compares the exact
    values, and every comparison with NaN is false. *)
Definition lt_float_int (x : float) (n : Z) : bool :=
  match x with
  | S754_zero _ => (0 <? n)%Z
  | S754_infinity s => s
  | S754_nan => false
  | S754_finite s m e =>
      match e with
      | Zneg k => (signed s (Zpos m) <? n * Z.pow_pos 2 k)%Z
      | _ => (signed s (Zpos m * 2 ^ e) <? n)%Z
      end
  end.

Definition lt_int_float (n : Z) (x : float) : bool :=
  match x with
  | S754_zero _ => (n <? 0)%Z
  | S754_infinity s => negb s
  | S754_nan => false
  | S754_finite s m e =>
      match e with
      | Zneg k => (n * Z.pow_pos 2 k <? signed s (Zpos m))%Z
      | _ => (n <? signed s (Zpos m * 2 ^ e))%Z
      end
  end.

(** A value that is an [int] or a [float], as [min] and [max] return. *)
Inductive num :=
| NInt (n : Z)
| NFloat (x : float).

(** [min(n, x)] with an int first: the first argument unless the second is
    smaller. *)
Definition min_int_float (n : Z) (x : float) : num :=
  if lt_float_int x n then NFloat x else NInt n.

(** [max(n, v)] with an int first: the first argument unless the second is
    greater. *)
Definition max_int_num (n : Z) (v : num) : num :=
  match v with
  | NInt k => if (n <? k)%Z then NInt k else NInt n
  | NFloat x => if lt_int_float n x then NFloat x else NInt n
  end.

(** [int(v)] *)
Definition int_of_num (v : num) : option Z :=
  match v with
  | NInt n => Some n
  | NFloat x => trunc x
  end.

(** A positive normal float of magnitude between [lo] and [hi]: a 53-bit
    mantissa, and a value from [2^(lo-1)] up to, but below, [2^hi]. *)
Definition normal (lo hi : Z) (x : float) : Prop :=
  exists m e, x = S754_finite false m e /\ digits2_pos m = 53%positive
              /\ (lo <= 53 + e <= hi)%Z.

End PyFloat.

(* ===================================================================== *)
(** * lip_sync_manager.py *)
(* ===================================================================== *)

Module lip_sync_manager.
Import PyStr.

(** The attributes [__init__] sets. *)
Definition talk_video_duration : PyFloat.float := PyFloat.of_int 5.
Definition base_wpm : Z := 140.
Definition min_wpm : Z := 110.
Definition max_wpm : Z := 170.

Definition bind {A B} (o : option A) (f : A -> option B) : option B :=
  match o with Some a => f a | None => None end.

(** [estimate_speech_duration]: [(words / base_wpm) * 60], the quotient of
    the two ints rounded once. *)
Definition estimate_speech_duration (text : str) : option PyFloat.float :=
  let words := Z.of_nat (word_count text) in
  bind (PyFloat.truediv_int words base_wpm)
    (fun q => Some (PyFloat.mul q (PyFloat.of_int 60))).

(** [calculate_optimal_rate]; [None] stands for an exception raised by the
    arithmetic. *)
Definition calculate_optimal_rate (text : str) : option Z :=
  let words := Z.of_nat (word_count text) in
  if (words <=? 5)%Z then Some base_wpm
  else
    bind (estimate_speech_duration text) (fun estimated_duration =>
    bind (PyFloat.truediv estimated_duration talk_video_duration) (fun ratio =>
    bind (PyFloat.round ratio) (fun rounded =>
    let num_loops := Z.max 1 rounded in
    let target_duration := PyFloat.mul (PyFloat.of_int num_loops) talk_video_duration in
    bind (PyFloat.truediv (PyFloat.of_int words) target_duration) (fun per_second =>
    let required_wpm := PyFloat.mul per_second (PyFloat.of_int 60) in
    let optimal_wpm :=
      PyFloat.max_int_num min_wpm (PyFloat.min_int_float max_wpm required_wpm) in
    PyFloat.int_of_num optimal_wpm)))).


(** The class [[.!?]] of the pattern given to [re.split]. *)
Definition is_terminator (c : ascii) : bool :=
  let n := code c in (n =? 46) || (n =? 33) || (n =? 63).

(** [re.split(r'[.!?]+', text)]: the pieces between maximal runs of
    terminators, the empty pieces at both ends included. [in_run] says that
    the previous code point was a terminator; [cur] is the piece being
    scanned. *)
Fixpoint re_split_from (in_run : bool) (cur s : str) : list str :=
  match s with
  | [] => [cur]
  | c :: s' =>
      if is_terminator c then
        if in_run then re_split_from true cur s'
        else cur :: re_split_from true [] s'
      else re_split_from false (cur ++ [c]) s'
  end.

Definition re_split (text : str) : list str := re_split_from false [] text.

(** [[s.strip() for s in sentences if s.strip()]] *)
Definition stripped_sentences (text : str) : list str :=
  map strip (filter (fun s => truthy (strip s)) (re_split text)).

(** The loop of [split_text_for_natural_pauses] over the sentences: the
    state is [(chunks, current_chunk)]. *)
Definition pause_step (st : list str * str) (sentence : str) : list str * str :=
  let '(chunks, current_chunk) := st in
  let test_chunk :=
    if truthy current_chunk then current_chunk ++ space ++ sentence
    else sentence in
  if 15 <? word_count test_chunk then
    ((if truthy current_chunk then chunks ++ [strip current_chunk] else chunks),
     sentence)
  else (chunks, test_chunk).

Definition pause_loop (sentences : list str) (st : list str * str)
  : list str * str :=
  fold_left pause_step sentences st.

Definition split_text_for_natural_pauses (text : str) : list str :=
  let sentences := stripped_sentences text in
  let '(chunks, current_chunk) := pause_loop sentences ([], []) in
  let chunks :=
    if truthy current_chunk then chunks ++ [strip current_chunk] else chunks in
  match chunks with
  | [] => [text]
  | _ => chunks
  end.

(** [calculate_optimal_rate] reads its text through [len(text.split())]
    only; this is the same computation on that number. *)
Definition rate_for_words (words : Z) : option Z :=
  if (words <=? 5)%Z then Some base_wpm
  else
    bind (PyFloat.truediv_int words base_wpm)
      (fun q =>
    let estimated_duration := PyFloat.mul q (PyFloat.of_int 60) in
    bind (PyFloat.truediv estimated_duration talk_video_duration) (fun ratio =>
    bind (PyFloat.round ratio) (fun rounded =>
    let num_loops := Z.max 1 rounded in
    let target_duration := PyFloat.mul (PyFloat.of_int num_loops) talk_video_duration in
    bind (PyFloat.truediv (PyFloat.of_int words) target_duration) (fun per_second =>
    let required_wpm := PyFloat.mul per_second (PyFloat.of_int 60) in
    PyFloat.int_of_num
      (PyFloat.max_int_num min_wpm
         (PyFloat.min_int_float max_wpm required_wpm)))))).

(** What the loop of [split_text_for_natural_pauses] keeps true of
    [(chunks, current_chunk)] once the sentences [done] are behind it. *)
Definition pause_invariant (sentences done : list str)
  (st : list str * str) : Prop :=
  let '(chunks, current_chunk) := st in
  trimmed current_chunk
  /\ (done <> [] -> current_chunk <> [])
  /\ remove_ws (List.concat chunks ++ current_chunk)
     = remove_ws (List.concat done)
  /\ Forall (fun c => word_count c <= 15 \/ In c sentences) chunks
  /\ (current_chunk = [] \/ word_count current_chunk <= 15
      \/ In current_chunk sentences).

(** A sentence as the loop meets it: stripped, non-empty, one of the text's. *)
Definition loop_sentence (sentences : list str) (s : str) : Prop :=
  trimmed s /\ s <> [] /\ In s sentences.

(** [get_video_loops_needed]; [None] as for [calculate_optimal_rate]. *)
Definition get_video_loops_needed (text : str) : option Z :=
  bind (estimate_speech_duration text) (fun duration =>
  bind (PyFloat.truediv duration talk_video_duration) (fun ratio =>
  bind (PyFloat.round ratio) (fun rounded =>
  let loops := Z.max 1 rounded in
  Some loops))).

(** The same computation on the number of words. *)
Definition loops_for_words (words : Z) : option Z :=
  bind (PyFloat.truediv_int words base_wpm)
    (fun q =>
  bind (PyFloat.truediv (PyFloat.mul q (PyFloat.of_int 60)) talk_video_duration)
    (fun ratio =>
  bind (PyFloat.round ratio) (fun rounded => Some (Z.max 1 rounded)))).

(** A string without sentence terminators. *)
Definition unpunctuated (s : str) : Prop :=
  Forall (fun c => is_terminator c = false) s.

(** A chunk or sentence as the loop of [split_text_for_natural_pauses]
    handles it: stripped, non-empty, without terminators. *)
Definition plain (s : str) : Prop := trimmed s /\ s <> [] /\ unpunctuated s.

(** The shape of [(chunks, current_chunk)] in that loop: the chunks closed
    so far are plain, the open one is plain once a sentence is behind, and
    there are no more chunks, the open one counted, than sentences behind. *)
Definition pause_shape (done : list str) (st : list str * str) : Prop :=
  let '(chunks, current_chunk) := st in
  Forall plain chunks
  /\ trimmed current_chunk
  /\ unpunctuated current_chunk
  /\ (done <> [] -> current_chunk <> [])
  /\ List.length chunks + (if truthy current_chunk then 1 else 0)
     <= List.length done.

End lip_sync_manager.


(* ===================================================================== *)
(** * rag_system.py: the class NewsReadingSystem *)
(* ===================================================================== *)

Module NewsReadingSystem.
Import PyStr.

(** What [self.model.generate_content(prompt, ...)] followed by
    [response.text] does: it raises an exception [e] (kept as [str(e)]) or
    yields the text. *)
Inductive GenOutcome :=
| GenRaises (error_msg : str)
| GenText (text : str).

(** What [self.vector_store.similarity_search(question, k)] does: it raises,
    or yields the [page_content] of the documents found. *)
Inductive SearchOutcome :=
| SearchRaises (error_msg : str)
| SearchDocs (page_contents : list str).

(** The calls to the collaborators, in the order they are made:
    [vector_store.similarity_search], [model.generate_content] and the
    document loading of [initialize_rag]. *)
Inductive Call :=
| CallSimilaritySearch (question : str) (k : nat)
| CallGenerate (prompt : str)
| CallInitialize (language : str).

(** The attributes of an instance that the methods below read or write.
    [None] in [model] and [vector_store] is Python's [None]. *)
Record t := mk {
  language : str;
  sentences : list str;
  current_position : nat;
  chunks : list str;
  model : option (str -> GenOutcome);
  vector_store : option (str -> nat -> SearchOutcome)
}.

Definition set_current_position (self : t) (p : nat) : t :=
  mk (language self) (sentences self) p (chunks self) (model self)
     (vector_store self).

(** ** split_into_sentences *)

(** [re.split(r'(?<=[.!?])\s+', text)]: a cut at every maximal run of
    whitespace that follows a terminator. [prev] says that the previous
    code point is a terminator, [skipping] that a separator run is being
    consumed. *)
Fixpoint sentence_split_from (prev skipping : bool) (cur s : str)
  : list str :=
  match s with
  | [] => [cur]
  | c :: s' =>
      if is_space c then
        if skipping then sentence_split_from false true cur s'
        else if prev then cur :: sentence_split_from false true [] s'
        else sentence_split_from false false (cur ++ [c]) s'
      else
        sentence_split_from (lip_sync_manager.is_terminator c) false
          (cur ++ [c]) s'
  end.

Definition split_into_sentences (text : str) : list str :=
  let text := join space (split text) in
  let sentences := sentence_split_from false false [] text in
  filter (fun sentence => truthy sentence && (5 <=? word_count sentence))
         (map strip sentences).

(** A word that closes a sentence: its last code point is [.], [!] or
    [?]. *)
Definition ends_sentence (w : str) : bool :=
  match rev w with
  | c :: _ => lip_sync_manager.is_terminator c
  | [] => false
  end.

(** The words of a text gathered in runs, a run being closed by every word
    that closes a sentence; [cur] is the run being gathered. *)
Fixpoint sentence_runs (cur : list str) (ws : list str) : list (list str) :=
  match ws with
  | [] => match cur with [] => [] | _ => [cur] end
  | w :: ws' =>
      if ends_sentence w then (cur ++ [w]) :: sentence_runs [] ws'
      else sentence_runs (cur ++ [w]) ws'
  end.

(** ** find_relevant_chunks *)

Definition stop_words : list str :=
  map py ["the"; "is"; "are"; "was"; "were"; "what"; "how"; "why"; "when";
          "where"; "who"; "a"; "an"; "of"; "to"]%string.

(** [set(question_lower.split()) - stop_words]. The set is kept as a list
    without repetition; the score below is a sum over it, so the order in
    which Python happens to iterate the set does not matter. *)
Definition question_words (question : str) : list str :=
  filter (fun w => negb (mem w stop_words))
         (nodup (list_eq_dec ascii_dec) (split (lower question))).

(** The body of [for word in question_words] for one word. *)
Definition word_score (chunk_lower word : str) : nat :=
  if contains word chunk_lower then 3
  else if existsb (fun chunk_word => contains word chunk_word)
                  (split chunk_lower)
       then 1 else 0.

Definition chunk_score (words : list str) (chunk : str) : nat :=
  let chunk_lower := lower chunk in
  fold_left (fun score word => score + word_score chunk_lower word) words 0.

(** [scored_chunks.sort(reverse=True, key=lambda x: x[0])]: Python's sort is
    stable, also with [reverse=True]. An entry goes in front of the first
    entry whose score does not exceed its own. *)
Fixpoint insert_desc (x : nat * str) (l : list (nat * str))
  : list (nat * str) :=
  match l with
  | [] => [x]
  | y :: l' => if fst x <? fst y then y :: insert_desc x l' else x :: l
  end.

Definition sort_desc (l : list (nat * str)) : list (nat * str) :=
  fold_right insert_desc [] l.

(** The [else] branch: keyword matching over [self.chunks]. *)
Definition scored_chunks (question : str) (chunks : list str)
  : list (nat * str) :=
  let words := question_words question in
  filter (fun sc => 0 <? fst sc)
         (map (fun chunk => (chunk_score words chunk, chunk)) chunks).

Definition keyword_search (question : str) (chunks : list str) (top_k : nat)
  : list str :=
  let relevant_chunks :=
    map snd (firstn top_k (sort_desc (scored_chunks question chunks))) in
  match relevant_chunks with
  | [] => firstn top_k chunks
  | _ => relevant_chunks
  end.

(** [find_relevant_chunks]: the chunks returned and the outside calls made. *)
Definition find_relevant_chunks (self : t) (question : str) (top_k : nat)
  : list str * list Call :=
  match vector_store self with
  | Some store =>
      match store question top_k with
      | SearchDocs docs => (docs, [CallSimilaritySearch question top_k])
      | SearchRaises _ =>
          (firstn top_k (chunks self), [CallSimilaritySearch question top_k])
      end
  | None => (keyword_search question (chunks self) top_k, [])
  end.

(** ** The position tracker *)

Definition get_next_sentence (self : t) : (option str * bool) * t :=
  if current_position self <? List.length (sentences self) then
    let sentence := nth_error (sentences self) (current_position self) in
    let self' := set_current_position self (current_position self + 1) in
    ((sentence, current_position self' <? List.length (sentences self')), self')
  else ((None, false), self).

Definition get_remaining_text (self : t) : str :=
  if current_position self <? List.length (sentences self) then
    join space (skipn (current_position self) (sentences self))
  else [].

Definition reset_position (self : t) : t := set_current_position self 0.

(** The object after [k] successive calls of [get_next_sentence], and what
    the [i]-th call (counted from 1) returns. *)
Fixpoint after_calls (k : nat) (self : t) : t :=
  match k with
  | 0 => self
  | S k' => snd (get_next_sentence (after_calls k' self))
  end.

Definition nth_call (i : nat) (self : t) : option str * bool :=
  fst (get_next_sentence (after_calls (i - 1) self)).

(** The number [get_progress] returns: the int [0], or the float
    [(consumed / total) * 100], kept as the two integers it is computed
    from. *)
Inductive Progress :=
| ProgressZero
| ProgressPercent (consumed total : nat).

Definition get_progress (self : t) : Progress :=
  if 0 <? List.length (sentences self) then
    ProgressPercent (current_position self) (List.length (sentences self))
  else ProgressZero.

(** ** get_news_intro

    The Hindi, Marathi, Tamil and Telugu literals are kept as their UTF-8
    bytes; they are payload only. *)

Definition intro_english : str :=
  py "Welcome to news! Today's big story from official documents!".

Definition intros : list (str * str) :=
  [ (py "english", intro_english);
    (py "hindi", py "नमस्कार! आज की बड़ी खबर आधिकारिक दस्तावेजों से!");
    (py "marathi", py "नमस्कार! आज ची मोठी बातमी अधिकृत कागदपत्रांमधून!");
    (py "tamil", py "வணக்கம்! அதிகாரப்பூர்வ ஆவணங்களிலிருந்து இன்றைய பெரிய செய்தி!");
    (py "telugu", py "నమస్కారం! అధికారిక పత్రాల నుండి నేటి పెద్ద వార్త!") ].

(** [d.get(key, default)] *)
Fixpoint dict_get (d : list (str * str)) (key default : str) : str :=
  match d with
  | [] => default
  | (k, v) :: d' => if str_eqb k key then v else dict_get d' key default
  end.

Definition get_news_intro (language : str) : str :=
  dict_get intros (lower language) intro_english.

(** ** ask_question *)

Definition msg_not_initialized : str :=
  py "System not initialized. Please check the PDF and API key.".
Definition msg_no_information : str :=
  py "I don't have information about that in the current document.".
Definition msg_quota : str :=
  py "I apologize, but the AI service is temporarily unavailable due to quota limits. Please wait a minute and try again.".
Definition msg_technical : str :=
  py "I apologize, but I'm experiencing technical difficulties. Please try again.".

(** The f-string of [ask_question]. *)
Definition build_prompt (context question : str) : str :=
  join newline
    [ py "You are a professional news anchor answering questions based on official documents.";
      [];
      py "Official Document Content:";
      context;
      [];
      py "Viewer Question: " ++ question;
      [];
      py "Instructions:";
      py "1. Carefully read and analyze the document content above";
      py "2. If the answer IS in the document:";
      py "   - Provide the COMPLETE information (don't summarize if it's a list)";
      py "   - For lists, include ALL items mentioned";
      py "   - Be thorough and detailed";
      py "   - Use professional language: " ++ dquote
        ++ py "According to the document..." ++ dquote ++ py " or " ++ dquote
        ++ py "The official records indicate..." ++ dquote;
      py "3. If the answer is NOT in the document:";
      py "   - Clearly state: " ++ dquote
        ++ py "I don't have that specific information in this document."
        ++ dquote;
      py "4. Be factual, professional, and confident like a news anchor";
      py "5. Keep tone natural and conversational but authoritative";
      [];
      py "Your complete answer:" ].

(** The [except Exception as e] clause of [ask_question]. *)
Definition error_answer (error_msg : str) : str :=
  if contains (py "429") error_msg || contains (py "quota") (lower error_msg)
  then msg_quota else msg_technical.

(** [ask_question]: the answer returned and the outside calls made. Every
    statement is inside the [try]; the one call that can raise into it is the
    generation call ([find_relevant_chunks] catches its own). *)
Definition ask_question (self : t) (question : str) : str * list Call :=
  match model self, chunks self with
  | None, _ | _, [] => (msg_not_initialized, [])
  | Some generate, _ :: _ =>
      let '(relevant_chunks, calls) := find_relevant_chunks self question 5 in
      match relevant_chunks with
      | [] => (msg_no_information, calls)
      | _ :: _ =>
          let context := join (newline ++ newline) relevant_chunks in
          let prompt := build_prompt context question in
          match generate prompt with
          | GenText text => (strip text, calls ++ [CallGenerate prompt])
          | GenRaises error_msg =>
              (error_answer error_msg, calls ++ [CallGenerate prompt])
          end
      end
  end.

(** The prompts handed to the generation service among some calls. *)
Definition generation_prompts (made : list Call) : list str :=
  flat_map (fun c => match c with CallGenerate p => [p] | _ => [] end) made.

(** The languages [initialize_rag] was entered with among some calls. *)
Definition initializations (made : list Call) : list str :=
  flat_map (fun c => match c with CallInitialize l => [l] | _ => [] end) made.

(** What the generation step of [ask_question] answers on a context. *)
Definition generation_answer (generate : str -> GenOutcome)
  (relevant_chunks : list str) (question : str) : str :=
  match generate (build_prompt (join (newline ++ newline) relevant_chunks)
                               question) with
  | GenText text => strip text
  | GenRaises error_msg => error_answer error_msg
  end.

(** What a stable sort by descending score is: the same entries, scores
    never increasing, and the entries of any one score in their old order. *)
Definition stable_desc_sort_of (l l' : list (nat * str)) : Prop :=
  Permutation l l'
  /\ StronglySorted (fun x y => fst y <= fst x) l'
  /\ forall n, filter (fun x => fst x =? n) l' = filter (fun x => fst x =? n) l.

(** ** extract_text_from_pdf

    The reader and [page.extract_text()] are outside; [pages] holds what
    each page yields (the empty string also for [None]: both are falsy). *)

Definition clean_page (page_text : str) : str :=
  let page_text :=
    replace_char carriage_return blank (replace_char line_feed blank page_text) in
  join space (split page_text).

Definition extract_text (pages : list str) : str :=
  strip
    (fold_left
       (fun text page_text =>
          if truthy page_text then text ++ clean_page page_text ++ space
          else text)
       pages []).

(** ** translate_text *)

Definition lang_names : list (str * str) :=
  [ (py "hindi", py "Hindi"); (py "marathi", py "Marathi");
    (py "tamil", py "Tamil"); (py "telugu", py "Telugu") ].

(** The f-string of [translate_text]. *)
Definition translation_prompt (target_lang text : str) : str :=
  join newline
    [ py "Translate the following English text to " ++ target_lang ++ py ". ";
      py "            ";
      py "Maintain the same meaning, structure, and professional tone. ";
      py "Translate naturally as it would appear in official documents in "
        ++ target_lang ++ py ".";
      [];
      py "Text to translate:";
      text;
      [];
      py "Translation:" ].

(** [translate_text]: the text returned and the outside calls made. A
    missing model ([None] has no [generate_content]) raises into the same
    [except] as a failing call. *)
Definition translate_text (self : t) (text target_language : str)
  : str * list Call :=
  if str_eqb target_language (py "english") then (text, [])
  else
    let target_lang := dict_get lang_names target_language (py "Hindi") in
    let prompt := translation_prompt target_lang text in
    match model self with
    | None => (text, [])
    | Some generate =>
        match generate prompt with
        | GenText translated => (strip translated, [CallGenerate prompt])
        | GenRaises _ => (text, [CallGenerate prompt])
        end
    end.

(** ** setup

    What [setup] meets outside the class: the page texts of the PDF ([None]:
    the reader raises), whether [GOOGLE_API_KEY] is set, the generation
    model built ([None]: building it raises), the text splitter of
    [chunk_text], and the vector store built over the chunks ([None]: the
    embeddings or the store raise, and the inner [except] leaves
    [vector_store] at [None]). *)
Record Outside := mkOutside {
  pdf_pages : option (list str);
  api_key : bool;
  generative_model : option (str -> GenOutcome);
  text_splitter : str -> list str;
  faiss_store : list str -> option (str -> nat -> SearchOutcome)
}.

(** [__init__] followed by [setup]; [None] stands for the exception [setup]
    re-raises. *)
Definition setup (o : Outside) (language : str) : option t :=
  match pdf_pages o with
  | None => None
  | Some pages =>
      let pdf_text := extract_text pages in
      if negb (api_key o) then None
      else
        match generative_model o with
        | None => None
        | Some generate =>
            let self := mk language [] 0 [] (Some generate) None in
            let working_text :=
              if negb (str_eqb language (py "english"))
              then fst (translate_text self pdf_text language)
              else pdf_text in
            let sentences := split_into_sentences working_text in
            let chunks := text_splitter o pdf_text in
            Some (mk language sentences 0 chunks (Some generate)
                     (faiss_store o chunks))
        end
  end.

(** What one page adds to the text in [extract_text_from_pdf]. *)
Definition page_part (page_text : str) : str :=
  if truthy page_text then clean_page page_text ++ space else [].

(** The highest score among some chunks. *)
Definition best_score (words : list str) (chunks : list str) : nat :=
  list_max (map (chunk_score words) chunks).

End NewsReadingSystem.

(* ===================================================================== *)
(** * rag_system.py: the module-level functions over the global
      [news_system] *)
(* ===================================================================== *)

Module rag_system.
Import PyStr.

(** What [initialize_rag] meets outside the module: whether [PDF_PATH]
    exists, and what the constructor [NewsReadingSystem(PDF_PATH, language)]
    does ([None]: it raises). *)
Record Env := mkEnv {
  pdf_exists : bool;
  construct : str -> option NewsReadingSystem.t
}.

(** The global [news_system] ([None] until initialised) and the calls made
    to the collaborators so far. *)
Record State := mkState {
  news_system : option NewsReadingSystem.t;
  calls : list NewsReadingSystem.Call
}.

Definition initial : State := mkState None [].

Definition english : str := py "english".

Definition initialize_rag (env : Env) (language : str) (st : State)
  : bool * State :=
  let log := calls st ++ [NewsReadingSystem.CallInitialize language] in
  if negb (pdf_exists env) then (false, mkState (news_system st) log)
  else
    match construct env language with
    | Some ns => (true, mkState (Some ns) log)
    | None => (false, mkState (news_system st) log)
    end.

Definition msg_unavailable : str :=
  py "I apologize, but the system is currently unavailable. Please check the PDF file path and try again.".
Definition msg_unable : str :=
  py "I'm unable to access the document at this time. Please ensure the PDF file is available.".

(** The second half of [ask_pdf_question], from [if news_system:] on. *)
Definition ask_loaded (question : str) (st : State) : str * State :=
  match news_system st with
  | Some ns =>
      let '(answer, made) := NewsReadingSystem.ask_question ns question in
      (answer, mkState (news_system st) (calls st ++ made))
  | None => (msg_unable, st)
  end.

Definition ask_pdf_question (env : Env) (question : str) (st : State)
  : str * State :=
  match news_system st with
  | None =>
      let '(ok, st') := initialize_rag env english st in
      if negb ok then (msg_unavailable, st')
      else ask_loaded question st'
  | Some _ => ask_loaded question st
  end.

Definition get_news_intro (language : str) (st : State) : str :=
  match news_system st with
  | Some ns => NewsReadingSystem.get_news_intro language
  | None => py "Hello! Welcome to the news."
  end.

Definition get_next_sentence (st : State) : (option str * bool) * State :=
  match news_system st with
  | Some ns =>
      let '(r, ns') := NewsReadingSystem.get_next_sentence ns in
      (r, mkState (Some ns') (calls st))
  | None => ((None, false), st)
  end.

Definition get_remaining_text (st : State) : str :=
  match news_system st with
  | Some ns => NewsReadingSystem.get_remaining_text ns
  | None => []
  end.

Definition reset_reading (st : State) : State :=
  match news_system st with
  | Some ns => mkState (Some (NewsReadingSystem.reset_position ns)) (calls st)
  | None => st
  end.

Definition get_progress (st : State) : NewsReadingSystem.Progress :=
  match news_system st with
  | Some ns => NewsReadingSystem.get_progress ns
  | None => NewsReadingSystem.ProgressZero
  end.

End rag_system.

(* ===================================================================== *)
(** * working_voice_addo_fixed.py: socket handlers and narration thread *)
(* ===================================================================== *)

Module working_voice.
Import PyStr.

(** [request.sid], also the room an event is emitted to. *)
Definition SessionId := nat.

Inductive Status := ready | error | broadcasting | paused | continuing | stopped.

(** The events the handlers and the narration thread emit. The events of the
    speech collaborator itself ([speech_started], [speech_ended]) are left
    to it. *)
Inductive Event :=
| language_set (language : str) (status : Status)
| news_intro (message : str)
| news_sentence (sentence : str) (has_more : bool)
                (progress : NewsReadingSystem.Progress)
| news_completed
| reading_started (status : Status)
| question_mode_enabled (status : Status)
| question_answer (question answer : str)
| ask_continue (message : str)
| reading_resumed (status : Status)
| reading_stopped (status : Status).

(** The module globals, the global [news_system] of [rag_system], and what
    has been emitted and handed to [news_anchor.speak] so far. There is one
    copy of each for the whole process. *)
Record World := mkWorld {
  rag : rag_system.State;
  current_language : str;
  is_reading_news : bool;
  is_paused_for_question : bool;
  speech_cancelled : bool;
  news_anchor : bool;
  emitted : list (SessionId * Event);
  spoken : list (SessionId * str)
}.

Definition set_rag (w : World) (r : rag_system.State) : World :=
  mkWorld r (current_language w) (is_reading_news w)
    (is_paused_for_question w) (speech_cancelled w) (news_anchor w)
    (emitted w) (spoken w).

Definition set_language (w : World) (l : str) : World :=
  mkWorld (rag w) l (is_reading_news w) (is_paused_for_question w)
    (speech_cancelled w) (news_anchor w) (emitted w) (spoken w).

Definition set_reading (w : World) (b : bool) : World :=
  mkWorld (rag w) (current_language w) b (is_paused_for_question w)
    (speech_cancelled w) (news_anchor w) (emitted w) (spoken w).

Definition set_paused (w : World) (b : bool) : World :=
  mkWorld (rag w) (current_language w) (is_reading_news w) b
    (speech_cancelled w) (news_anchor w) (emitted w) (spoken w).

Definition set_cancelled (w : World) (b : bool) : World :=
  mkWorld (rag w) (current_language w) (is_reading_news w)
    (is_paused_for_question w) b (news_anchor w) (emitted w) (spoken w).

(** [socketio.emit(..., room=sid)] and, inside a handler, [emit(...)] *)
Definition emit (sid : SessionId) (e : Event) (w : World) : World :=
  mkWorld (rag w) (current_language w) (is_reading_news w)
    (is_paused_for_question w) (speech_cancelled w) (news_anchor w)
    (emitted w ++ [(sid, e)]) (spoken w).

(** [news_anchor.speak(text, ...)] is entered. *)
Definition speak (sid : SessionId) (text : str) (w : World) : World :=
  mkWorld (rag w) (current_language w) (is_reading_news w)
    (is_paused_for_question w) (speech_cancelled w) (news_anchor w)
    (emitted w) (spoken w ++ [(sid, text)]).

(** ** The narration thread [read_news_continuously]

    A program point for every access to a global; the locals [intro],
    [sentence] and [has_more] travel with it. [AtStartedEmit] is the one
    program point outside the narration: the last statement of
    [handle_start_reading], the emit of [reading_started], which the handler
    reaches after it has started the thread and so runs beside it. *)
Inductive Pc :=
| AtIntro
| AtIntroGuard (intro : str)
| InIntroSpeak
| AtWhile
| AtPauseCheck
| AtSleep
| AtPull
| AtEmit (sentence : str) (has_more : bool)
| AtSpeakGuard (sentence : str) (has_more : bool)
| InSpeak (sentence : str) (has_more : bool)
| AtPausedDuringSpeech (sentence : str) (has_more : bool)
| AtHasMore (has_more : bool)
| Finished
| AtStartedEmit.

Record Thread := mkThread {
  session_id : SessionId;
  pc : Pc
}.

(** One step of a thread: the statement at its program point. A step at
    [InIntroSpeak] or [InSpeak] is the return of [speak], finished or
    cancelled; the loop does not look at which. *)
Definition thread_step (w : World) (t : Thread) : World * Thread :=
  let sid := session_id t in
  let goto p := mkThread sid p in
  match pc t with
  | AtIntro =>
      let intro := rag_system.get_news_intro (current_language w) (rag w) in
      (emit sid (news_intro intro) w, goto (AtIntroGuard intro))
  | AtIntroGuard intro =>
      if news_anchor w && negb (speech_cancelled w)
      then (speak sid intro w, goto InIntroSpeak)
      else (w, goto AtWhile)
  | InIntroSpeak => (w, goto AtWhile)
  | AtWhile =>
      if is_reading_news w then (w, goto AtPauseCheck) else (w, goto Finished)
  | AtPauseCheck =>
      if is_paused_for_question w || speech_cancelled w
      then (w, goto AtSleep) else (w, goto AtPull)
  | AtSleep => (w, goto AtWhile)
  | AtPull =>
      let '((sentence, has_more), r) := rag_system.get_next_sentence (rag w) in
      match sentence with
      | Some s =>
          if truthy s then (set_rag w r, goto (AtEmit s has_more))
          else (set_rag w r, goto (AtHasMore has_more))
      | None => (set_rag w r, goto (AtHasMore has_more))
      end
  | AtEmit s has_more =>
      (emit sid (news_sentence s has_more (rag_system.get_progress (rag w))) w,
       goto (AtSpeakGuard s has_more))
  | AtSpeakGuard s has_more =>
      if news_anchor w && negb (speech_cancelled w)
      then (speak sid s w, goto (InSpeak s has_more))
      else (w, goto (AtPausedDuringSpeech s has_more))
  | InSpeak s has_more => (w, goto (AtPausedDuringSpeech s has_more))
  | AtPausedDuringSpeech s has_more =>
      if is_paused_for_question w || speech_cancelled w
      then (w, goto AtWhile) else (w, goto (AtHasMore has_more))
  | AtHasMore has_more =>
      if negb has_more
      then (set_reading (emit sid news_completed w) false, goto Finished)
      else (w, goto AtWhile)
  | Finished => (w, t)
  | AtStartedEmit =>
      (emit sid (reading_started broadcasting) w, goto Finished)
  end.

(** ** The handlers *)

Inductive Command :=
| set_language_cmd (language : option str)
| start_reading
| ask_question
| user_question (question : option str)
| continue_reading (response : option str)
| stop_reading
| cancel_session.

(** [data.get(key, default)] *)
Definition data_get (field : option str) (default : str) : str :=
  match field with Some v => v | None => default end.

Definition handle_set_language (env : rag_system.Env) (sid : SessionId)
  (language : option str) (w : World) : World :=
  let new_language := data_get language rag_system.english in
  if negb (str_eqb new_language (current_language w)) then
    let w := set_language w new_language in
    let '(ok, r) := rag_system.initialize_rag env (current_language w) (rag w) in
    let w := set_rag w r in
    emit sid (language_set (current_language w) (if ok then ready else error)) w
  else emit sid (language_set (current_language w) ready) w.

(** [handle_start_reading] up to the start of the thread: the new world,
    the narration thread it starts, and the rest of the handler, its emit of
    [reading_started], which from here on runs beside that thread. *)
Definition handle_start_reading (sid : SessionId) (w : World)
  : World * list Thread :=
  let w := set_reading w true in
  let w := set_paused w false in
  let w := set_cancelled w false in
  let w := set_rag w (rag_system.reset_reading (rag w)) in
  (w, [mkThread sid AtIntro; mkThread sid AtStartedEmit]).

Definition handle_ask_question (sid : SessionId) (w : World) : World :=
  let w := set_paused w true in
  let w := set_cancelled w true in
  emit sid (question_mode_enabled paused) w.

Definition continue_prompts : list (str * str) :=
  [ (py "english", py "Can we continue with the news?");
    (py "hindi", py "क्या हम समाचार जारी रखें?");
    (py "marathi", py "आम्ही बातम्या सुरू ठेवू का?") ].

Definition handle_user_question (env : rag_system.Env) (sid : SessionId)
  (data : option str) (w : World) : World :=
  let question := strip (data_get data []) in
  if negb (truthy question) then w
  else
    let '(answer, r) := rag_system.ask_pdf_question env question (rag w) in
    let w := set_rag w r in
    let w := emit sid (question_answer question answer) w in
    let w := if news_anchor w
             then speak sid answer (set_cancelled w false) else w in
    let prompt :=
      NewsReadingSystem.dict_get continue_prompts (current_language w)
        (py "Can we continue with the news?") in
    let w := emit sid (ask_continue prompt) w in
    if news_anchor w then speak sid prompt w else w.

Definition handle_continue_reading (sid : SessionId) (response : option str)
  (w : World) : World :=
  let w := set_paused w false in
  let w := set_cancelled w false in
  let w := set_reading w true in
  emit sid (reading_started broadcasting)
    (emit sid (reading_resumed continuing) w).

Definition handle_stop_reading (sid : SessionId) (w : World) : World :=
  let w := set_reading w false in
  let w := set_cancelled w true in
  emit sid (reading_stopped stopped) w.

Definition handle_cancel_session (sid : SessionId) (w : World) : World :=
  let w := set_cancelled w true in
  set_reading w false.

(** A command from session [sid]: the new world and the threads started. *)
Definition handle (env : rag_system.Env) (sid : SessionId) (c : Command)
  (w : World) : World * list Thread :=
  match c with
  | set_language_cmd l => (handle_set_language env sid l w, [])
  | start_reading => handle_start_reading sid w
  | ask_question => (handle_ask_question sid w, [])
  | user_question q => (handle_user_question env sid q w, [])
  | continue_reading r => (handle_continue_reading sid r w, [])
  | stop_reading => (handle_stop_reading sid w, [])
  | cancel_session => (handle_cancel_session sid w, [])
  end.

(** ** The process: one world, the narration threads started so far *)

Inductive Action :=
| Tick (i : nat)
| Handle (sid : SessionId) (c : Command).

Definition System := (World * list Thread)%type.

Fixpoint step_nth (w : World) (ts : list Thread) (i : nat)
  : World * list Thread :=
  match ts, i with
  | [], _ => (w, [])
  | t :: ts', 0 => let '(w', t') := thread_step w t in (w', t' :: ts')
  | t :: ts', S j => let '(w', ts'') := step_nth w ts' j in (w', t :: ts'')
  end.

Definition sys_step (env : rag_system.Env) (a : Action) (s : System) : System :=
  let '(w, ts) := s in
  match a with
  | Tick i => step_nth w ts i
  | Handle sid c => let '(w', new) := handle env sid c w in (w', ts ++ new)
  end.

Definition run (env : rag_system.Env) (acts : list Action) (s : System)
  : System :=
  fold_left (fun s a => sys_step env a s) acts s.

(** ** What a session sees *)

(** The lifecycle states of the orchestrator, read off the flags. *)
Inductive Lifecycle := Idle | Reading | PausedForQuestion | Stopped.

Definition lifecycle (w : World) : Lifecycle :=
  if is_reading_news w then
    if is_paused_for_question w then PausedForQuestion else Reading
  else if speech_cancelled w then Stopped else Idle.

(** The read cursor: [news_system.current_position]. *)
Definition cursor (w : World) : option nat :=
  option_map NewsReadingSystem.current_position
    (rag_system.news_system (rag w)).

Definition document (w : World) : option (list str * list str) :=
  option_map
    (fun ns => (NewsReadingSystem.sentences ns, NewsReadingSystem.chunks ns))
    (rag_system.news_system (rag w)).

(** The state of a session: the handlers keep nothing under [request.sid],
    so what session [sid] reads is what the globals hold. *)
Record SessionState := mkSession {
  s_cursor : option nat;
  s_paused : bool;
  s_cancelled : bool;
  s_lifecycle : Lifecycle;
  s_language : str;
  s_document : option (list str * list str)
}.

Definition session_state (w : World) (sid : SessionId) : SessionState :=
  mkSession (cursor w) (is_paused_for_question w) (speech_cancelled w)
    (lifecycle w) (current_language w) (document w).

(** The sentences dispatched so far: the [news_sentence] events, in order. *)
Definition sentence_of (e : SessionId * Event) : list str :=
  match snd e with
  | news_sentence s _ _ => [s]
  | _ => []
  end.

Definition dispatched (w : World) : list str :=
  flat_map sentence_of (emitted w).

(** The sentences dispatched, each with the room it went to. *)
Definition dispatched_to (w : World) : list (SessionId * str) :=
  flat_map (fun e => match snd e with
                     | news_sentence s _ _ => [(fst e, s)]
                     | _ => []
                     end)
           (emitted w).

(** ** One session, one narration thread *)




(** The commands that neither restart the reading nor reload the document. *)
Definition keeps_document (a : Action) : Prop :=
  match a with
  | Tick i => i = 0
  | Handle _ start_reading | Handle _ (set_language_cmd _) => False
  | Handle _ _ => True
  end.



(** The sentence pulled but not yet dispatched. *)
Definition pending (p : Pc) : list str :=
  match p with
  | AtEmit s _ => [s]
  | _ => []
  end.

(** The dispatched sentences follow the document: since the cursor stood at
    [c], with [already] dispatched, the thread has pulled [j] sentences and
    dispatched them in order, the pending one excepted. *)
Definition in_order (sentences : list str) (c : nat) (already : list str)
  (sys : System) : Prop :=
  exists t ns j,
    snd sys = [t]
    /\ rag_system.news_system (rag (fst sys)) = Some ns
    /\ NewsReadingSystem.sentences ns = sentences
    /\ NewsReadingSystem.current_position ns = c + j
    /\ dispatched (fst sys)
       = already ++ firstn (j - List.length (pending (pc t))) (skipn c sentences)
    /\ (forall x, pending (pc t) = [x] ->
          1 <= j /\ nth_error sentences (c + j - 1) = Some x).

(** ** The class NewsAnchorAI: get_response and run *)

Module NewsAnchorAI.

Definition greeting_words : list str :=
  map py ["hello"; "hi"; "hey"; "good morning"; "good evening"]%string.
Definition thanks_words : list str := map py ["thank"; "thanks"]%string.
Definition farewell_words : list str :=
  map py ["bye"; "goodbye"; "see you"]%string.
Definition exit_words : list str :=
  map py ["stop"; "quit"; "exit"; "goodbye"]%string.

Definition msg_repeat : str :=
  py "I didn't catch that. Could you please repeat your question?".
Definition msg_greeting : str :=
  py "Good evening! Welcome to the news desk. I'm here to help you with information from official documents. What would you like to know today?".
Definition msg_welcome : str :=
  py "You're very welcome! I'm here if you need any more information. Have a great day!".
Definition msg_farewell : str :=
  py "Thank you for tuning in! Stay informed and have a wonderful day ahead!".
Definition msg_goodbye : str :=
  py "Goodbye, Sir. It was a pleasure serving you.".

(** [any(word in user_lower for word in words)] *)
Definition any_in (words : list str) (user_lower : str) : bool :=
  existsb (fun word => contains word user_lower) words.

(** [get_response]: the reply and the state of [rag_system] after it.
    [user_input] is [None] when [listen] heard nothing. The [except] around
    [ask_pdf_question] is never entered: that function catches what its
    callees raise. *)
Definition get_response (env : rag_system.Env) (user_input : option str)
  (st : rag_system.State) : str * rag_system.State :=
  match user_input with
  | None | Some [] => (msg_repeat, st)
  | Some user_input =>
      let user_lower := lower user_input in
      if any_in greeting_words user_lower then (msg_greeting, st)
      else if any_in thanks_words user_lower then (msg_welcome, st)
      else if any_in farewell_words user_lower then (msg_farewell, st)
      else rag_system.ask_pdf_question env user_input st
  end.

(** The [while True] of [run] over what [listen] returns, turn after turn:
    the texts handed to [speak], the state of [rag_system], and whether the
    loop has reached its [break]. [speak] is taken to return, and a
    [KeyboardInterrupt] is left out. *)
Fixpoint conversation (env : rag_system.Env) (heard : list (option str))
  (st : rag_system.State) : (list str * rag_system.State) * bool :=
  match heard with
  | [] => (([], st), false)
  | user_input :: rest =>
      match user_input with
      | None | Some [] => conversation env rest st
      | Some text =>
          if any_in exit_words (lower text) then (([msg_goodbye], st), true)
          else
            let '(response, st') := get_response env user_input st in
            let '((said, st''), ended) := conversation env rest st' in
            ((response :: said, st''), ended)
      end
  end.

Definition run (env : rag_system.Env) (heard : list (option str))
  (st : rag_system.State) : (list str * rag_system.State) * bool :=
  let '((said, st'), ended) := conversation env heard st in
  ((msg_greeting :: said, st'), ended).

(** An input that does not end the conversation. *)
Definition goes_on (user_input : option str) : Prop :=
  match user_input with
  | Some text => any_in exit_words (lower text) = false
  | None => True
  end.

End NewsAnchorAI.

(** ** What a whole reading emits *)


Definition is_sentence_event (e : SessionId * Event) : bool :=
  match snd e with
  | news_sentence _ _ _ => true
  | _ => false
  end.

(** The flags a reading runs under: reading, not paused, not cancelled. *)
Definition flowing (w : World) : Prop :=
  is_reading_news w = true /\ is_paused_for_question w = false
  /\ speech_cancelled w = false.

(** The flags after [stop_reading] or [cancel_session]. *)
Definition halted (w : World) : Prop :=
  is_reading_news w = false /\ speech_cancelled w = true.

(** How many steps the thread has left once the reading is halted, and how
    many sentences it can still dispatch. *)
Definition steps_left (p : Pc) : nat :=
  match p with
  | AtIntro => 3
  | AtIntroGuard _ => 2
  | InIntroSpeak => 2
  | AtWhile => 1
  | AtPauseCheck => 3
  | AtSleep => 2
  | AtPull => 5
  | AtEmit _ _ => 4
  | AtSpeakGuard _ _ => 3
  | InSpeak _ _ => 3
  | AtPausedDuringSpeech _ _ => 2
  | AtHasMore _ => 2
  | Finished => 0
  | AtStartedEmit => 1
  end.

Definition may_dispatch (p : Pc) : nat :=
  match p with
  | AtPull | AtEmit _ _ => 1
  | _ => 0
  end.

(** ** One narration among threads that have nothing left to read *)

(** A thread that pulls no sentence any more: a narration that has ended,
    or the rest of a [start_reading] handler. *)
Definition idle (t : Thread) : Prop :=
  pc t = Finished \/ pc t = AtStartedEmit.

(** A step of any thread, or a command that neither restarts the reading
    nor reloads the document. *)
Definition keeps_reading (a : Action) : Prop :=
  match a with
  | Tick _ => True
  | Handle _ start_reading | Handle _ (set_language_cmd _) => False
  | Handle _ _ => True
  end.

(** Thread number [k] is the one narration that still reads, and its
    dispatches follow the document; every other thread is idle. *)
Definition reads_alone (sentences : list str) (c : nat) (already : list str)
  (sys : System) : Prop :=
  exists k t,
    nth_error (snd sys) k = Some t
    /\ (forall i x, i <> k -> nth_error (snd sys) i = Some x -> idle x)
    /\ in_order sentences c already (fst sys, [t]).






End working_voice.

(* ===================================================================== *)
(** * The sentences of the specification, as stated *)
(* ===================================================================== *)

Module Claimed.
Import PyStr NewsReadingSystem.

(** "When no chunk scores > 0 under the lexical fallback, [ask_question]
    returns the fixed don't-have-information message and does not invoke
    generation." *)
Definition no_information_when_nothing_scores (self : t) (question : str)
  : Prop :=
  vector_store self = None ->
  scored_chunks question (chunks self) = [] ->
  fst (ask_question self question) = msg_no_information
  /\ generation_prompts (snd (ask_question self question)) = [].

(** "An error of the similarity search demotes the query to the lexical
    fallback scorer." *)
Definition search_error_demotes_to_lexical (self : t) (question : str)
  (top_k : nat) : Prop :=
  forall store error_msg,
    vector_store self = Some store ->
    store question top_k = SearchRaises error_msg ->
    fst (find_relevant_chunks self question top_k)
    = keyword_search question (chunks self) top_k.

(** "Add 3 for every chunk word that exactly equals a question word and 1
    for every chunk word for which a question word is a non-equal
    substring." *)
Definition claimed_chunk_score (words : list str) (chunk : str) : nat :=
  let chunk_words := split (lower chunk) in
  3 * List.length (filter (fun cw => mem cw words) chunk_words)
  + List.length
      (filter (fun cw =>
                 existsb (fun qw => contains qw cw && negb (str_eqb qw cw))
                         words)
              chunk_words).

(** "Sort by descending score, chunk order kept on ties; return the top k
    among those with score > 0." *)
Definition claimed_keyword_search (question : str) (cs : list str)
  (top_k : nat) : list str :=
  let words := question_words question in
  map snd
    (firstn top_k
       (sort_desc
          (filter (fun sc => 0 <? fst sc)
                  (map (fun chunk => (claimed_chunk_score words chunk, chunk))
                       cs)))).

(** "The chunks, concatenated and ignoring whitespace, reproduce the
    sentences in order; no chunk exceeds 15 words unless it is a single
    sentence; the result is never empty, and it is the whole text for input
    within 15 words." *)
Definition pauses_as_claimed (text : str) : Prop :=
  let chunks := lip_sync_manager.split_text_for_natural_pauses text in
  let sentences := lip_sync_manager.stripped_sentences text in
  remove_ws (List.concat chunks) = remove_ws (List.concat sentences)
  /\ (forall c, In c chunks -> word_count c <= 15 \/ In c sentences)
  /\ chunks <> []
  /\ (word_count text <= 15 -> chunks = [text]).

(** "Clamp to [[lo, hi]]." *)
Definition claimed_clamp (lo hi : Z) (x : PyFloat.float) : PyFloat.num :=
  if PyFloat.lt_float_int x lo then PyFloat.NInt lo
  else if PyFloat.lt_int_float hi x then PyFloat.NInt hi
  else PyFloat.NFloat x.

(** "140 when the word count is at most 5; otherwise, as an integer, the
    clamp to [[110, 170]] of wordCount/(loops*5.0)*60, where
    loops = max(1, round(wordCount/140*60/5.0))." *)
Definition claimed_optimal_rate (word_count : Z) : option Z :=
  let bind := @lip_sync_manager.bind in
  if (word_count <=? 5)%Z then Some 140%Z
  else
    bind _ _ (PyFloat.truediv_int word_count 140)
      (fun per_minute =>
    bind _ _ (PyFloat.truediv (PyFloat.mul per_minute (PyFloat.of_int 60))
                (PyFloat.of_int 5)) (fun ratio =>
    bind _ _ (PyFloat.round ratio) (fun rounded =>
    let loops := Z.max 1 rounded in
    bind _ _ (PyFloat.truediv (PyFloat.of_int word_count)
                (PyFloat.mul (PyFloat.of_int loops) (PyFloat.of_int 5)))
      (fun per_second =>
    PyFloat.int_of_num
      (claimed_clamp 110 170 (PyFloat.mul per_second (PyFloat.of_int 60))))))).

Definition lexical_fallback_as_claimed (self : t) (question : str)
  (top_k : nat) : Prop :=
  vector_store self = None ->
  fst (find_relevant_chunks self question top_k)
  = claimed_keyword_search question (chunks self) top_k.

(** "A command handled for one session never changes the other session's
    cursor, flags, lifecycle state, language or document." *)
Definition sessions_isolated (env : rag_system.Env) (w : working_voice.World)
  (a b : working_voice.SessionId) (c : working_voice.Command) : Prop :=
  a <> b ->
  working_voice.session_state (fst (working_voice.handle env a c w)) b
  = working_voice.session_state w b.



End Claimed.

(* ===================================================================== *)
(** * Documents and sessions used as examples *)
(* ===================================================================== *)

Module Scenarios.
Import PyStr.

(** The three-sentence document of the specification, freshly loaded. *)
Definition three_sentences : NewsReadingSystem.t :=
  NewsReadingSystem.mk (py "english")
     [ py "A cat sat on the mat quietly.";
       py "Dogs barked loudly outside the house.";
       py "The weather was sunny and warm today." ]
     0 [] None None.

(** Two chunks, a generation service that answers, no vector store. *)
Definition one_chunk_system : NewsReadingSystem.t :=
  NewsReadingSystem.mk (py "english") [] 0 [py "alpha beta"; py "gamma delta"]
     (Some (fun _ => NewsReadingSystem.GenText (py "generated"))) None.

(** The same with a vector store whose search raises. *)
Definition failing_store_system : NewsReadingSystem.t :=
  NewsReadingSystem.mk (py "english") [] 0 [py "alpha beta"; py "gamma delta"]
     (Some (fun _ => NewsReadingSystem.GenText (py "generated")))
     (Some (fun _ _ =>
              NewsReadingSystem.SearchRaises (py "embedding backend unavailable"))).

(** A generation service that is out of quota. *)
Definition quota_system : NewsReadingSystem.t :=
  NewsReadingSystem.mk (py "english")
    [py "One two three four five."; py "Six seven eight nine ten."] 1
    [py "alpha beta"; py "gamma delta"]
    (Some (fun _ => NewsReadingSystem.GenRaises
                      (py "429 Resource has been exhausted (e.g. check quota).")))
    None.

Definition paused_world : working_voice.World :=
  working_voice.mkWorld (rag_system.mkState (Some quota_system) [])
    (py "english") true true true true [] [].

Definition reading_world : working_voice.World :=
  working_voice.mkWorld (rag_system.mkState (Some quota_system) [])
    (py "english") true false false true [] [].

(** The three-sentence document loaded, nobody reading yet. *)
Definition idle_world : working_voice.World :=
  working_voice.mkWorld (rag_system.mkState (Some three_sentences) [])
    (py "english") false false false true [] [].

(** No PDF at [PDF_PATH]. *)
Definition no_env : rag_system.Env := rag_system.mkEnv false (fun _ => None).

Definition cat_system : NewsReadingSystem.t :=
  NewsReadingSystem.mk (py "english") [] 0 [py "a cat"; py "cat cat cat"]
    None None.

Definition five_sentences : NewsReadingSystem.t :=
  NewsReadingSystem.mk (py "english")
    [ py "The first sentence has six words.";
      py "The second sentence has six words.";
      py "The third sentence has six words.";
      py "The fourth sentence has six words.";
      py "The fifth sentence has six words." ]
    2 [py "alpha beta"] None None.

(** Sentence 2 of 5 is being spoken. *)
Definition reading_second : working_voice.World :=
  working_voice.mkWorld (rag_system.mkState (Some five_sentences) [])
    (py "english") true false false true
    [ (1, working_voice.news_sentence (py "The first sentence has six words.")
            true (NewsReadingSystem.ProgressPercent 1 5));
      (1, working_voice.news_sentence (py "The second sentence has six words.")
            true (NewsReadingSystem.ProgressPercent 2 5)) ]
    [].

Definition speaking_second : working_voice.Thread :=
  working_voice.mkThread 1
    (working_voice.InSpeak (py "The second sentence has six words.") true).

(** What [setup] meets for a document of two pages when the translation
    service fails and no vector store can be built. *)
Definition two_pages : NewsReadingSystem.Outside :=
  NewsReadingSystem.mkOutside
    (Some [ py "The council met on" ++ newline ++ py "Monday evening.";
            py "  It approved the  new budget for schools. " ])
    true
    (Some (fun _ => NewsReadingSystem.GenRaises (py "503 unavailable")))
    (fun text => [text])
    (fun _ => None).

(** A thread that has run to its end. *)
Definition finished_thread : working_voice.Thread :=
  working_voice.mkThread 1 working_voice.Finished.




End Scenarios.

(* ===================================================================== *)
(** * The position tracker *)
(* ===================================================================== *)

Section PositionTracker.
Import PyStr NewsReadingSystem Scenarios.

(** Whatever the text, the sentences kept at load time have five words or
    more; none is empty. *)
Lemma split_into_sentences_truthy (text : str) :
  Forall (fun x => truthy x = true /\ 5 <= word_count x)
         (split_into_sentences text).
Proof.
  unfold split_into_sentences. apply Forall_forall. intros x Hx.
  apply filter_In in Hx. destruct Hx as [_ Hx].
  apply andb_true_iff in Hx. destruct Hx as [Ht Hw].
  split; [exact Ht|]. now apply Nat.leb_le.
Qed.

Lemma get_next_sentence_sentences (self : t) :
  sentences (snd (get_next_sentence self)) = sentences self.
Proof.
  unfold get_next_sentence.
  destruct (current_position self <? List.length (sentences self)); reflexivity.
Qed.

Lemma after_calls_sentences (k : nat) (self : t) :
  sentences (after_calls k self) = sentences self.
Proof.
  induction k as [|k IH]; simpl; [reflexivity|].
  now rewrite get_next_sentence_sentences.
Qed.

(** The cursor after [k] calls on a fresh document: [k], capped at the number
    of sentences. *)
Lemma after_calls_position (k : nat) (self : t) :
  current_position self = 0 ->
  current_position (after_calls k self) = Nat.min k (List.length (sentences self)).
Proof.
  intros H0. induction k as [|k IH].
  - simpl. now rewrite H0.
  - cbn [after_calls]. unfold get_next_sentence.
    rewrite after_calls_sentences, IH.
    destruct (Nat.min k (List.length (sentences self)) <? List.length (sentences self)) eqn:E;
      cbn [snd current_position set_current_position].
    + apply Nat.ltb_lt in E. lia.
    + apply Nat.ltb_ge in E. rewrite IH. lia.
Qed.

(** C4: on a freshly loaded document with [n] sentences the [i]-th call of
    [get_next_sentence], [1 <= i <= n], returns the sentence at index [i-1]
    with [has_more = (i < n)] and moves the cursor by one; every later call
    returns [(None, False)] and leaves the cursor alone. *)
Theorem get_next_sentence_in_order (self : t) (i : nat) :
  current_position self = 0 ->
  let n := List.length (sentences self) in
  (1 <= i <= n ->
     exists s, nth_error (sentences self) (i - 1) = Some s
       /\ nth_call i self = (Some s, i <? n)
       /\ current_position (after_calls i self)
          = current_position (after_calls (i - 1) self) + 1)
  /\ (n < i ->
     nth_call i self = (None, false)
     /\ current_position (after_calls i self)
        = current_position (after_calls (i - 1) self)).
Proof.
  intros H0 n. split.
  - intros [H1 Hn].
    destruct (nth_error (sentences self) (i - 1)) as [s|] eqn:Es.
    2:{ apply nth_error_None in Es. fold n in Es. lia. }
    exists s. split; [reflexivity|].
    rewrite !after_calls_position by assumption. fold n.
    split; [|lia].
    unfold nth_call, get_next_sentence. cbn [sentences set_current_position current_position].
    rewrite after_calls_sentences, after_calls_position by assumption. fold n.
    replace (Nat.min (i - 1) n) with (i - 1) by lia.
    destruct (i - 1 <? n) eqn:E; [|apply Nat.ltb_ge in E; lia].
    cbn [fst]. rewrite Es. f_equal.
    replace (i - 1 + 1) with i by lia. reflexivity.
  - intros Hn.
    rewrite !after_calls_position by assumption. fold n.
    split; [|lia].
    unfold nth_call, get_next_sentence.
    rewrite after_calls_sentences, after_calls_position by assumption. fold n.
    replace (Nat.min (i - 1) n) with n by lia.
    rewrite Nat.ltb_irrefl. reflexivity.
Qed.

(** The scenario of the specification: three sentences, four calls. *)
Lemma get_next_sentence_in_order_witness :
  map (fun i => nth_call i three_sentences) [1; 2; 3; 4]
  = [ (Some (py "A cat sat on the mat quietly."), true);
      (Some (py "Dogs barked loudly outside the house."), true);
      (Some (py "The weather was sunny and warm today."), false);
      (None, false) ]
  /\ (exists s, nth_error (sentences three_sentences) (2 - 1) = Some s
       /\ nth_call 2 three_sentences = (Some s, 2 <? 3)
       /\ current_position (after_calls 2 three_sentences)
          = current_position (after_calls (2 - 1) three_sentences) + 1).
Proof.
  split; [reflexivity|].
  apply (get_next_sentence_in_order three_sentences 2); [reflexivity|].
  simpl; lia.
Defined.

End PositionTracker.


(* ===================================================================== *)
(** * The question answerer *)
(* ===================================================================== *)

Section QuestionAnswerer.
Import PyStr NewsReadingSystem Scenarios.

Lemma firstn_nonempty {A} (k : nat) (l : list A) :
  0 < k -> l <> [] -> firstn k l <> [].
Proof.
  destruct k; [lia|]. destruct l; [congruence|]. discriminate.
Qed.

(** With no chunk scoring above zero the keyword search hands back the
    first [top_k] chunks. *)
Lemma keyword_search_nothing_scores (question : str) (cs : list str) (k : nat) :
  scored_chunks question cs = [] -> keyword_search question cs k = firstn k cs.
Proof.
  intros H. unfold keyword_search. rewrite H. simpl.
  now rewrite firstn_nil.
Qed.

Lemma ask_question_unfold (self : t) (question : str) generate :
  model self = Some generate -> chunks self <> [] ->
  ask_question self question =
  match fst (find_relevant_chunks self question 5) with
  | [] => (msg_no_information, snd (find_relevant_chunks self question 5))
  | _ :: _ =>
      (generation_answer generate
         (fst (find_relevant_chunks self question 5)) question,
       snd (find_relevant_chunks self question 5)
       ++ [CallGenerate
             (build_prompt
                (join (newline ++ newline)
                      (fst (find_relevant_chunks self question 5)))
                question)])
  end.
Proof.
  intros Hm Hc. unfold ask_question, generation_answer. rewrite Hm.
  destruct (chunks self) as [|c cs] eqn:Ec; [congruence|].
  destruct (find_relevant_chunks self question 5) as [rel made].
  destruct rel as [|r rel]; [reflexivity|].
  cbn [fst snd].
  destruct (generate _); reflexivity.
Qed.

Lemma find_relevant_chunks_no_generation (self : t) (question : str) (k : nat) :
  generation_prompts (snd (find_relevant_chunks self question k)) = []
  /\ initializations (snd (find_relevant_chunks self question k)) = [].
Proof.
  unfold find_relevant_chunks.
  destruct (vector_store self) as [store|]; [|split; reflexivity].
  destruct (store question k); split; reflexivity.
Qed.

Lemma initializations_app (a b : list Call) :
  initializations (a ++ b) = initializations a ++ initializations b.
Proof. unfold initializations. apply flat_map_app. Qed.

Lemma generation_prompts_app (a b : list Call) :
  generation_prompts (a ++ b) = generation_prompts a ++ generation_prompts b.
Proof. unfold generation_prompts. apply flat_map_app. Qed.

(** [ask_question] never loads a document. *)
Lemma ask_question_no_initialization (self : t) (question : str) :
  initializations (snd (ask_question self question)) = [].
Proof.
  unfold ask_question.
  destruct (model self) as [generate|]; [|reflexivity].
  destruct (chunks self) as [|c cs]; [reflexivity|].
  pose proof (find_relevant_chunks_no_generation self question 5) as [_ Hi].
  destruct (find_relevant_chunks self question 5) as [rel made].
  cbn [snd] in Hi.
  destruct rel as [|r rel]; [exact Hi|].
  destruct (generate _); cbn [snd]; rewrite initializations_app, Hi; reflexivity.
Qed.

(** C2, as stated, fails: nothing scores for "zebra", yet the first chunks
    go to the generation service and its text is the answer. *)
Lemma no_information_when_nothing_scores_fails :
  ~ Claimed.no_information_when_nothing_scores one_chunk_system (py "zebra").
Proof.
  intros H.
  destruct (H eq_refl eq_refl) as [_ Hgen].
  vm_compute in Hgen. discriminate Hgen.
Qed.

(** C2, amended: when no chunk scores above zero under the lexical fallback,
    [find_relevant_chunks] returns the first five chunks, and an initialised
    system builds the prompt from them and calls the generation service
    once; the fixed don't-have-information message is what [ask_question]
    returns, without any generation call, when the retrieval hands back no
    chunk at all. *)
Theorem ask_question_nothing_scores (self : t) (question : str)
  (generate : str -> GenOutcome) :
  model self = Some generate ->
  chunks self <> [] ->
  (vector_store self = None ->
   scored_chunks question (chunks self) = [] ->
   find_relevant_chunks self question 5 = (firstn 5 (chunks self), [])
   /\ ask_question self question
      = (generation_answer generate (firstn 5 (chunks self)) question,
         [CallGenerate
            (build_prompt
               (join (newline ++ newline) (firstn 5 (chunks self)))
               question)]))
  /\ (fst (find_relevant_chunks self question 5) = [] ->
      fst (ask_question self question) = msg_no_information
      /\ generation_prompts (snd (ask_question self question)) = []).
Proof.
  intros Hm Hc. split.
  - intros Hv Hs.
    assert (Hf : find_relevant_chunks self question 5
                 = (firstn 5 (chunks self), [])).
    { unfold find_relevant_chunks. rewrite Hv.
      now rewrite keyword_search_nothing_scores. }
    split; [exact Hf|].
    rewrite (ask_question_unfold self question Hm Hc), Hf. cbn [fst snd].
    destruct (firstn 5 (chunks self)) eqn:E; [|reflexivity].
    exfalso. revert E. apply firstn_nonempty; [lia|assumption].
  - intros He.
    rewrite (ask_question_unfold self question Hm Hc), He. cbn [fst snd].
    split; [reflexivity|].
    apply find_relevant_chunks_no_generation.
Qed.

Lemma ask_question_nothing_scores_witness :
  find_relevant_chunks one_chunk_system (py "zebra") 5
  = ([py "alpha beta"; py "gamma delta"], [])
  /\ fst (ask_question one_chunk_system (py "zebra")) = py "generated".
Proof.
  destruct (@ask_question_nothing_scores one_chunk_system (py "zebra")
              (fun _ => GenText (py "generated")) eq_refl)
    as [H _]; [discriminate|].
  destruct (H eq_refl eq_refl) as [Hf Ha].
  split; [exact Hf|].
  rewrite Ha. reflexivity.
Defined.

(** C6, as stated, fails: the keyword scorer would rank "gamma delta" first
    for "gamma"; after a search error the first chunk comes back instead. *)
Lemma search_error_demotes_to_lexical_fails :
  ~ Claimed.search_error_demotes_to_lexical failing_store_system (py "gamma") 1.
Proof.
  intros H.
  specialize (H _ _ eq_refl eq_refl).
  vm_compute in H. discriminate H.
Qed.

(** C6, amended: an error raised by the similarity search never aborts
    [find_relevant_chunks]; the error is swallowed and the first [top_k]
    chunks of the document come back in document order, without any keyword
    scoring; [ask_question] on an initialised system then goes on to the
    generation step with them, so no error reaches the user. *)
Theorem search_error_returns_first_chunks (self : t) (question : str)
  (top_k : nat) store (error_msg : str) :
  vector_store self = Some store ->
  store question top_k = SearchRaises error_msg ->
  find_relevant_chunks self question top_k
  = (firstn top_k (chunks self), [CallSimilaritySearch question top_k])
  /\ (top_k = 5 -> forall generate,
        model self = Some generate -> chunks self <> [] ->
        fst (ask_question self question)
        = generation_answer generate (firstn 5 (chunks self)) question).
Proof.
  intros Hv He.
  assert (Hf : find_relevant_chunks self question top_k
               = (firstn top_k (chunks self),
                  [CallSimilaritySearch question top_k])).
  { unfold find_relevant_chunks. now rewrite Hv, He. }
  split; [exact Hf|].
  intros -> generate Hm Hc.
  rewrite (ask_question_unfold self question Hm Hc), Hf. cbn [fst snd].
  destruct (firstn 5 (chunks self)) eqn:E; [|reflexivity].
  exfalso. revert E. apply firstn_nonempty; [lia|assumption].
Qed.

Lemma search_error_returns_first_chunks_witness :
  find_relevant_chunks failing_store_system (py "gamma") 1
  = ([py "alpha beta"], [CallSimilaritySearch (py "gamma") 1]).
Proof.
  apply (@search_error_returns_first_chunks failing_store_system (py "gamma") 1
           (fun _ _ => SearchRaises (py "embedding backend unavailable"))
           (py "embedding backend unavailable") eq_refl eq_refl).
Defined.

End QuestionAnswerer.

(* ===================================================================== *)
(** * The module-level API on an uninitialised system *)
(* ===================================================================== *)

Section Uninitialised.
Import PyStr rag_system.

Lemma ask_loaded_calls (question : str) (st : State) :
  exists made,
    calls (snd (ask_loaded question st)) = calls st ++ made
    /\ NewsReadingSystem.initializations made = []
    /\ news_system (snd (ask_loaded question st)) = news_system st.
Proof.
  unfold ask_loaded.
  destruct (news_system st) as [ns|] eqn:E.
  - pose proof (ask_question_no_initialization ns question) as Hn.
    destruct (NewsReadingSystem.ask_question ns question) as [answer made].
    exists made. cbn [snd calls news_system]. auto.
  - exists []. rewrite app_nil_r. auto.
Qed.

(** C10: with the global [news_system] unset, [get_next_sentence] returns
    [(None, False)], [get_remaining_text] the empty string and
    [get_progress] 0, all without touching the state; [ask_pdf_question]
    enters [initialize_rag] exactly once and, when that fails, returns the
    fixed apology and leaves the system unset. *)
Theorem uninitialised_defaults (env : Env) (question : str) (st : State) :
  news_system st = None ->
  get_next_sentence st = ((None, false), st)
  /\ get_remaining_text st = []
  /\ get_progress st = NewsReadingSystem.ProgressZero
  /\ (exists made,
        calls (snd (ask_pdf_question env question st)) = calls st ++ made
        /\ NewsReadingSystem.initializations made = [english])
  /\ (fst (initialize_rag env english st) = false ->
      fst (ask_pdf_question env question st) = msg_unavailable
      /\ news_system (snd (ask_pdf_question env question st)) = None).
Proof.
  intros Hn.
  split; [unfold get_next_sentence; now rewrite Hn|].
  split; [unfold get_remaining_text; now rewrite Hn|].
  split; [unfold get_progress; now rewrite Hn|].
  unfold ask_pdf_question. rewrite Hn.
  destruct (initialize_rag env english st) as [ok st'] eqn:Ei.
  assert (Hc : calls st' = calls st ++ [NewsReadingSystem.CallInitialize english]
               /\ (ok = false -> news_system st' = None)).
  { unfold initialize_rag in Ei.
    destruct (negb (pdf_exists env)).
    - inversion Ei; subst. cbn. auto.
    - destruct (construct env english); inversion Ei; subst; cbn; auto.
      split; [reflexivity|discriminate]. }
  destruct Hc as [Hc Hf].
  split.
  - destruct ok; cbn [negb].
    + destruct (ask_loaded_calls question st') as (made & Hm & Hi & _).
      exists (NewsReadingSystem.CallInitialize english :: made).
      rewrite Hm, Hc, <- app_assoc. split; [reflexivity|].
      change (NewsReadingSystem.CallInitialize english :: made)
        with ([NewsReadingSystem.CallInitialize english] ++ made).
      now rewrite initializations_app, Hi.
    + exists [NewsReadingSystem.CallInitialize english]. cbn [snd]. auto.
  - cbn [fst]. intros ->. cbn [negb fst snd]. auto.
Qed.

Lemma uninitialised_defaults_witness :
  get_next_sentence initial = ((None, false), initial)
  /\ fst (ask_pdf_question (mkEnv false (fun _ => None)) (py "who?") initial)
     = msg_unavailable.
Proof.
  pose proof (@uninitialised_defaults (mkEnv false (fun _ => None))
                (py "who?") initial eq_refl) as (H1 & _ & _ & _ & H5).
  split; [exact H1|].
  apply H5. reflexivity.
Defined.

End Uninitialised.

(* ===================================================================== *)
(** * The handlers *)
(* ===================================================================== *)

Section Handlers.
Import PyStr working_voice.

Variable env : rag_system.Env.

Lemma ask_pdf_question_loaded (question : str) (st : rag_system.State) ns :
  rag_system.news_system st = Some ns ->
  rag_system.ask_pdf_question env question st
  = (fst (NewsReadingSystem.ask_question ns question),
     rag_system.mkState (Some ns)
       (rag_system.calls st ++ snd (NewsReadingSystem.ask_question ns question))).
Proof.
  intros H. unfold rag_system.ask_pdf_question, rag_system.ask_loaded.
  rewrite H. destruct (NewsReadingSystem.ask_question ns question). reflexivity.
Qed.

(** A question leaves [is_reading_news] and [is_paused_for_question] as they
    are, whatever the answer turns out to be. *)
Lemma handle_user_question_flags (sid : SessionId) (data : option str)
  (w : World) :
  is_reading_news (handle_user_question env sid data w) = is_reading_news w
  /\ is_paused_for_question (handle_user_question env sid data w)
     = is_paused_for_question w.
Proof.
  unfold handle_user_question.
  destruct (negb (truthy (strip (data_get data [])))); [auto|].
  destruct (rag_system.ask_pdf_question env _ (rag w)) as [answer r].
  destruct w as [r0 l rd ps cn [|] em sp];
    cbn -[NewsReadingSystem.dict_get continue_prompts py]; auto.
Qed.

Lemma handle_user_question_lifecycle (sid : SessionId) (data : option str)
  (w : World) :
  lifecycle w = PausedForQuestion ->
  lifecycle (handle_user_question env sid data w) = PausedForQuestion.
Proof.
  destruct (handle_user_question_flags sid data w) as [Hr Hp].
  unfold lifecycle. rewrite Hr, Hp.
  destruct (is_reading_news w), (is_paused_for_question w),
    (speech_cancelled w); try discriminate; reflexivity.
Qed.

Lemma handle_user_question_loaded (sid : SessionId) (data : option str)
  (w : World) ns :
  rag_system.news_system (rag w) = Some ns ->
  truthy (strip (data_get data [])) = true ->
  let question := strip (data_get data []) in
  let w' := handle_user_question env sid data w in
  rag_system.news_system (rag w') = Some ns
  /\ exists rest,
       emitted w'
       = emitted w
         ++ (sid, question_answer question
                    (fst (NewsReadingSystem.ask_question ns question)))
         :: rest
       /\ dispatched w' = dispatched w.
Proof.
  intros Hn Ht question w'. subst w'.
  unfold handle_user_question. rewrite Ht. cbn [negb]. fold question.
  rewrite (ask_pdf_question_loaded question (rag w) Hn).
  set (answer := fst (NewsReadingSystem.ask_question ns question)).
  unfold dispatched. cbn [rag] in Hn.
  destruct w as [r0 l rd ps cn [|] em sp];
    cbn -[NewsReadingSystem.dict_get continue_prompts py];
    (split; [reflexivity|]);
    eexists; (split; [rewrite <- app_assoc; reflexivity|]);
    rewrite !flat_map_app; cbn -[NewsReadingSystem.dict_get continue_prompts py];
    now rewrite !app_nil_r.
Qed.

(** C5: when the generation call raises, [ask_question] returns the
    retry-later message if the error text contains "429" or, lower-cased,
    "quota", and the technical-difficulty message otherwise; the handler of
    the question emits that answer and leaves [is_reading_news] and
    [is_paused_for_question] as they were, so a session paused for a
    question stays paused for a question. *)
Theorem generation_failure_is_answered (self : NewsReadingSystem.t)
  (question : str) generate (error_msg : str) :
  NewsReadingSystem.model self = Some generate ->
  NewsReadingSystem.chunks self <> [] ->
  fst (NewsReadingSystem.find_relevant_chunks self question 5) <> [] ->
  generate
    (NewsReadingSystem.build_prompt
       (join (newline ++ newline)
             (fst (NewsReadingSystem.find_relevant_chunks self question 5)))
       question)
  = NewsReadingSystem.GenRaises error_msg ->
  let answer :=
    if contains (py "429") error_msg || contains (py "quota") (lower error_msg)
    then NewsReadingSystem.msg_quota else NewsReadingSystem.msg_technical in
  fst (NewsReadingSystem.ask_question self question) = answer
  /\ forall (sid : SessionId) (data : option str) (w : World),
       rag_system.news_system (rag w) = Some self ->
       strip (data_get data []) = question ->
       truthy question = true ->
       let w' := handle_user_question env sid data w in
       In (sid, question_answer question answer) (emitted w')
       /\ is_reading_news w' = is_reading_news w
       /\ is_paused_for_question w' = is_paused_for_question w
       /\ cursor w' = cursor w
       /\ (lifecycle w = PausedForQuestion -> lifecycle w' = PausedForQuestion).
Proof.
  intros Hm Hc Hr Hg answer.
  assert (Ha : fst (NewsReadingSystem.ask_question self question) = answer).
  { rewrite (ask_question_unfold self question Hm Hc).
    destruct (fst (NewsReadingSystem.find_relevant_chunks self question 5))
      as [|r rel] eqn:E; [congruence|].
    cbn [fst]. unfold NewsReadingSystem.generation_answer.
    rewrite Hg. reflexivity. }
  split; [exact Ha|].
  intros sid data w Hn Hq Ht w'. subst w'.
  rewrite <- Hq in Ht.
  destruct (handle_user_question_loaded sid data w Hn Ht) as (Hn' & rest & He & _).
  destruct (handle_user_question_flags sid data w) as [Hf1 Hf2].
  split.
  - rewrite He, Hq, Ha. apply in_or_app. right. left. reflexivity.
  - repeat split; try assumption.
    + unfold cursor. now rewrite Hn', Hn.
    + apply handle_user_question_lifecycle.
Qed.

End Handlers.

Section HandlersExamples.
Import PyStr working_voice Scenarios.

Lemma generation_failure_is_answered_witness :
  fst (NewsReadingSystem.ask_question quota_system (py "gamma"))
  = NewsReadingSystem.msg_quota
  /\ lifecycle (handle_user_question no_env 7 (Some (py " gamma ")) paused_world)
     = PausedForQuestion.
Proof.
  destruct (@generation_failure_is_answered no_env quota_system (py "gamma")
              (fun _ => NewsReadingSystem.GenRaises
                 (py "429 Resource has been exhausted (e.g. check quota)."))
              (py "429 Resource has been exhausted (e.g. check quota).")
              eq_refl) as [Ha Hw].
  - discriminate.
  - vm_compute. discriminate.
  - reflexivity.
  - split; [exact Ha|].
    destruct (Hw 7 (Some (py " gamma ")) paused_world eq_refl eq_refl eq_refl)
      as (_ & _ & _ & _ & Hl).
    apply Hl. reflexivity.
Defined.

End HandlersExamples.

(* ===================================================================== *)
(** * Sessions *)
(* ===================================================================== *)

Section Sessions.
Import PyStr working_voice Scenarios.

(** C9, as stated, fails: session 2 is reading; session 1 asks a question
    and session 2 finds itself paused and its speech cancelled. *)
Lemma sessions_isolated_fails :
  ~ Claimed.sessions_isolated no_env reading_world 1 2 ask_question.
Proof.
  intros H.
  assert (Hne : 1 <> 2) by discriminate.
  specialize (H Hne).
  apply (f_equal s_paused) in H. discriminate H.
Qed.

Ltac handler_cases w :=
  destruct w as [? ? ? ? ? [|] ? ?];
  cbn -[NewsReadingSystem.dict_get continue_prompts py str_eqb].

(** C9, amended: the handlers keep nothing per session. Cursor, pause and
    cancel flags, lifecycle, language and document are process-wide globals:
    a command handled for session [a] leaves every session [b] in the state
    that the same command sent by [b] itself would have left it in, and the
    collaborators are called alike; the one thing that belongs to the sender
    is the room its events are emitted to. In particular a question asked by
    one session pauses and cancels all of them. *)
Theorem session_state_is_process_wide (env : rag_system.Env)
  (a b : SessionId) (c : Command) (w : World) :
  let wa := fst (handle env a c w) in
  let wb := fst (handle env b c w) in
  session_state wa b = session_state wb b
  /\ rag wa = rag wb
  /\ is_reading_news wa = is_reading_news wb
  /\ (exists events,
        emitted wa = emitted w ++ map (pair a) events
        /\ emitted wb = emitted w ++ map (pair b) events)
  /\ s_paused (session_state (fst (handle env a ask_question w)) b) = true
  /\ s_cancelled (session_state (fst (handle env a ask_question w)) b) = true.
Proof.
  cbv zeta. split; [|split; [|split; [|split; [|split; reflexivity]]]].
  - destruct c; cbn [handle fst]; try reflexivity.
    + unfold handle_set_language.
      destruct (negb (str_eqb _ _)); [|reflexivity].
      cbn [current_language set_language rag].
      destruct (rag_system.initialize_rag env _ (rag w)); reflexivity.
    + unfold handle_user_question.
      destruct (negb (truthy _)); [reflexivity|].
      destruct (rag_system.ask_pdf_question env _ (rag w)).
      handler_cases w; reflexivity.
  - destruct c; cbn [handle fst]; try reflexivity.
    + unfold handle_set_language.
      destruct (negb (str_eqb _ _)); [|reflexivity].
      cbn [current_language set_language rag].
      destruct (rag_system.initialize_rag env _ (rag w)); reflexivity.
    + unfold handle_user_question.
      destruct (negb (truthy _)); [reflexivity|].
      destruct (rag_system.ask_pdf_question env _ (rag w)).
      handler_cases w; reflexivity.
  - destruct c; cbn [handle fst]; try reflexivity.
    + unfold handle_set_language.
      destruct (negb (str_eqb _ _)); [|reflexivity].
      cbn [current_language set_language rag].
      destruct (rag_system.initialize_rag env _ (rag w)); reflexivity.
    + unfold handle_user_question.
      destruct (negb (truthy _)); [reflexivity|].
      destruct (rag_system.ask_pdf_question env _ (rag w)).
      handler_cases w; reflexivity.
  - destruct c; cbn [handle fst].
    + unfold handle_set_language.
      destruct (negb (str_eqb _ _)).
      * cbn [current_language set_language rag].
        destruct (rag_system.initialize_rag env _ (rag w)) as [ok r].
        eexists [_]. split; reflexivity.
      * eexists [_]. split; reflexivity.
    + exists []. cbn [map handle_start_reading fst emitted set_rag
                      set_cancelled set_paused set_reading].
      rewrite app_nil_r. split; reflexivity.
    + eexists [_]. split; reflexivity.
    + unfold handle_user_question.
      destruct (negb (truthy _)).
      * exists []. cbn [map]. rewrite app_nil_r. split; reflexivity.
      * destruct (rag_system.ask_pdf_question env _ (rag w)) as [answer r].
        handler_cases w; eexists [_; _]; rewrite <- !app_assoc;
          split; reflexivity.
    + eexists [_; _]. cbn [handle_continue_reading emit emitted map].
      rewrite <- !app_assoc. split; reflexivity.
    + eexists [_]. split; reflexivity.
    + exists []. cbn [map]. rewrite app_nil_r. split; reflexivity.
Qed.

(** Two sessions, one cursor: session 1 starts and is sent the first
    sentence; session 2 starts, which rewinds the cursor, and is sent the
    first sentence too; the second sentence then goes to session 1 only and
    the third to session 2 only. *)
Lemma two_sessions_one_cursor :
  dispatched_to
    (fst (run no_env
            ([Handle 1 start_reading] ++ repeat (Tick 0) 12
             ++ [Handle 2 start_reading] ++ repeat (Tick 2) 8
             ++ repeat (Tick 0) 8 ++ repeat (Tick 2) 8)
            (idle_world, [])))
  = [ (1, py "A cat sat on the mat quietly.");
      (2, py "A cat sat on the mat quietly.");
      (1, py "Dogs barked loudly outside the house.");
      (2, py "The weather was sunny and warm today.") ].
Proof. vm_compute. reflexivity. Qed.

End Sessions.

(* ===================================================================== *)
(** * Strings: occurrences and words *)
(* ===================================================================== *)

Section StringFacts.
Import PyStr.

Lemma str_eqb_eq (a b : str) : str_eqb a b = true <-> a = b.
Proof.
  unfold str_eqb. destruct (list_eq_dec ascii_dec a b); split; congruence.
Qed.

Lemma mem_In (x : str) (xs : list str) : mem x xs = true <-> In x xs.
Proof.
  unfold mem. rewrite existsb_exists. split.
  - intros (y & Hy & He). apply str_eqb_eq in He. now subst.
  - intros H. exists x. split; [assumption|]. now apply str_eqb_eq.
Qed.

Lemma starts_with_spec (w s : str) :
  starts_with w s = true <-> exists post, s = w ++ post.
Proof.
  revert s. induction w as [|a w IH]; intros s; simpl.
  - split; [intros _; now exists s|reflexivity].
  - destruct s as [|b s].
    + split; [discriminate|intros [post H]; discriminate].
    + rewrite andb_true_iff, IH. split.
      * intros [He [post ->]]. apply Ascii.eqb_eq in He. subst. now exists post.
      * intros [post H]. inversion H; subst. split; [apply Ascii.eqb_refl|now exists post].
Qed.

(** [contains w s] says that [w] occurs in [s]. *)
Lemma contains_spec (w s : str) :
  contains w s = true <-> exists pre post, s = pre ++ w ++ post.
Proof.
  induction s as [|c s IH].
  - cbn [contains]. rewrite orb_false_r, starts_with_spec. split.
    + intros [post H]. now exists [], post.
    + intros (pre & post & H). destruct pre; [now exists post|discriminate].
  - cbn [contains]. rewrite orb_true_iff, starts_with_spec, IH. split.
    + intros [[post H]|(pre & post & H)].
      * now exists [], post.
      * exists (c :: pre), post. now rewrite H.
    + intros (pre & post & H). destruct pre as [|p pre].
      * left. now exists post.
      * right. inversion H; subst. now exists pre, post.
Qed.

Lemma contains_trans (a b c : str) :
  contains a b = true -> contains b c = true -> contains a c = true.
Proof.
  rewrite !contains_spec. intros (p1 & q1 & ->) (p2 & q2 & ->).
  exists (p2 ++ p1), (q1 ++ q2). now rewrite <- !app_assoc.
Qed.

(** Every word of [s.split()] occurs in [s]. *)
Lemma split_from_occurs (cur s w : str) :
  In w (split_from cur s) -> exists pre post, cur ++ s = pre ++ w ++ post.
Proof.
  revert cur. induction s as [|c s IH]; intros cur; cbn [split_from].
  - destruct cur; cbn [flush]; [intros []|].
    intros [<-|[]]. exists [], []. now rewrite !app_nil_r.
  - destruct (is_space c).
    + intros H. apply in_app_or in H. destruct H as [H|H].
      * destruct cur; cbn [flush] in H; [destruct H|].
        destruct H as [<-|[]]. now exists [], (c :: s).
      * destruct (IH [] H) as (pre & post & E). cbn [app] in E.
        exists (cur ++ c :: pre), post. rewrite E, <- app_assoc. reflexivity.
    + intros H. destruct (IH _ H) as (pre & post & E).
      exists pre, post. rewrite <- E, <- app_assoc. reflexivity.
Qed.

Lemma split_word_contained (s w : str) :
  In w (split s) -> contains w s = true.
Proof.
  intros H. apply contains_spec. exact (split_from_occurs [] s w H).
Qed.

End StringFacts.

(* ===================================================================== *)
(** * The keyword scorer *)
(* ===================================================================== *)

Section KeywordScorer.
Import PyStr NewsReadingSystem Scenarios.

Lemma fold_score_sum (f : str -> nat) (words : list str) (acc : nat) :
  fold_left (fun score word => score + f word) words acc
  = acc + list_sum (map f words).
Proof.
  unfold list_sum.
  revert acc. induction words as [|w ws IH]; intros acc;
    cbn [fold_left map fold_right].
  - lia.
  - rewrite IH. lia.
Qed.

Lemma chunk_score_sum (words : list str) (chunk : str) :
  chunk_score words chunk = list_sum (map (word_score (lower chunk)) words).
Proof. unfold chunk_score. now rewrite fold_score_sum. Qed.

Lemma list_sum_perm (l l' : list nat) :
  Permutation l l' -> list_sum l = list_sum l'.
Proof. unfold list_sum. induction 1; cbn [fold_right]; lia. Qed.

(** The score does not depend on the order in which the set of question
    words is walked. *)
Lemma chunk_score_order_irrelevant (words words' : list str) (chunk : str) :
  Permutation words words' -> chunk_score words chunk = chunk_score words' chunk.
Proof.
  intros H. rewrite !chunk_score_sum.
  apply list_sum_perm. now apply Permutation_map.
Qed.

Lemma question_words_spec (question : str) :
  NoDup (question_words question)
  /\ forall w, In w (question_words question)
       <-> In w (split (lower question)) /\ ~ In w stop_words.
Proof.
  unfold question_words. split.
  - apply NoDup_filter, NoDup_nodup.
  - intros w. rewrite filter_In, nodup_In, negb_true_iff.
    rewrite <- mem_In with (xs := stop_words).
    destruct (mem w stop_words); intuition congruence.
Qed.

(** The second branch of the word loop can only be reached by a word that
    the first test already accepted, so a word scores 3 or nothing. *)
Lemma word_score_values (chunk_lower word : str) :
  word_score chunk_lower word = if contains word chunk_lower then 3 else 0.
Proof.
  unfold word_score.
  destruct (contains word chunk_lower) eqn:E; [reflexivity|].
  destruct (existsb _ _) eqn:Ex; [|reflexivity].
  apply existsb_exists in Ex. destruct Ex as (cw & Hin & Hc).
  apply split_word_contained in Hin.
  rewrite (contains_trans _ _ _ Hc Hin) in E. discriminate.
Qed.

Lemma insert_desc_perm (x : nat * str) (l : list (nat * str)) :
  Permutation (x :: l) (insert_desc x l).
Proof.
  induction l as [|y l IH]; cbn [insert_desc]; [reflexivity|].
  destruct (fst x <? fst y); [|reflexivity].
  rewrite perm_swap. now apply perm_skip.
Qed.

Lemma insert_desc_sorted (x : nat * str) (l : list (nat * str)) :
  StronglySorted (fun a b => fst b <= fst a) l ->
  StronglySorted (fun a b => fst b <= fst a) (insert_desc x l).
Proof.
  induction 1 as [|y l Hs IH Hy]; cbn [insert_desc].
  - constructor; constructor.
  - destruct (fst x <? fst y) eqn:E.
    + apply Nat.ltb_lt in E. constructor; [assumption|].
      rewrite <- insert_desc_perm. constructor; [lia|assumption].
    + apply Nat.ltb_ge in E. constructor.
      * now constructor.
      * constructor; [assumption|].
        eapply Forall_impl; [|exact Hy]. cbn. intros; lia.
Qed.

Lemma insert_desc_stable (n : nat) (x : nat * str) (l : list (nat * str)) :
  filter (fun a => fst a =? n) (insert_desc x l)
  = filter (fun a => fst a =? n) (x :: l).
Proof.
  induction l as [|y l IH]; cbn [insert_desc]; [reflexivity|].
  destruct (fst x <? fst y) eqn:E; [|reflexivity].
  apply Nat.ltb_lt in E. cbn [filter] in *. rewrite IH.
  destruct (fst x =? n) eqn:Ex, (fst y =? n) eqn:Ey; try reflexivity.
  apply Nat.eqb_eq in Ex, Ey. lia.
Qed.

(** The model of [list.sort(reverse=True, key=...)] is a stable sort by
    descending score. *)
Lemma sort_desc_stable (l : list (nat * str)) : stable_desc_sort_of l (sort_desc l).
Proof.
  unfold stable_desc_sort_of.
  induction l as [|x l (Hp & Hs & Hf)]; cbn [sort_desc fold_right].
  - repeat split; constructor.
  - fold (sort_desc l). repeat split.
    + rewrite <- insert_desc_perm. now apply perm_skip.
    + now apply insert_desc_sorted.
    + intros n. rewrite insert_desc_stable. cbn [filter]. now rewrite Hf.
Qed.

(** The stop words of the question are dropped; the chunk with both
    remaining words comes first, then the others in document order. *)
Lemma keyword_search_example :
  keyword_search (py "What is the cat of the dog")
    [py "category theory"; py "a cat sat on dog"; py "birds"; py "dog"] 5
  = [py "a cat sat on dog"; py "category theory"; py "dog"].
Proof. vm_compute. reflexivity. Qed.

(** C3, as stated, fails: counted per chunk word, "cat cat cat" scores 9
    against 3 and comes first; the code counts the question word once for
    either chunk, and the tie leaves "a cat" in front. *)
Lemma lexical_fallback_as_claimed_fails :
  ~ Claimed.lexical_fallback_as_claimed cat_system (py "cat") 1.
Proof.
  intros H. specialize (H eq_refl).
  vm_compute in H. discriminate H.
Qed.

(** C3, amended: in the lexical fallback the score of a chunk is a sum over
    the distinct lower-cased question words that are not stop words, one
    term per question word however many chunk words match it: 3 for a
    question word that equals a word of the lower-cased chunk, nothing for a
    question word that occurs nowhere in it, never more than 3. The chunks
    with a score above 0 are sorted by descending score, chunk order kept on
    ties, and the first [top_k] are returned; when none scores above 0 the
    first [top_k] chunks of the document are returned instead. *)
Theorem keyword_search_ranks (question : str) (cs : list str) (top_k : nat) :
  let words := question_words question in
  let scored := scored_chunks question cs in
  (NoDup words
   /\ forall w, In w words
        <-> In w (split (lower question)) /\ ~ In w stop_words)
  /\ (forall chunk,
        chunk_score words chunk
        = list_sum (map (word_score (lower chunk)) words))
  /\ (forall chunk w,
        (In w (split (lower chunk)) -> word_score (lower chunk) w = 3)
        /\ (contains w (lower chunk) = false -> word_score (lower chunk) w = 0)
        /\ word_score (lower chunk) w <= 3)
  /\ scored
     = filter (fun sc => 0 <? fst sc)
         (map (fun chunk => (chunk_score words chunk, chunk)) cs)
  /\ stable_desc_sort_of scored (sort_desc scored)
  /\ keyword_search question cs top_k
     = match map snd (firstn top_k (sort_desc scored)) with
       | [] => firstn top_k cs
       | ranked => ranked
       end.
Proof.
  cbv zeta. split; [apply question_words_spec|].
  split; [intros; apply chunk_score_sum|].
  split.
  { intros chunk w. rewrite word_score_values. repeat split.
    - intros H. now rewrite (split_word_contained _ _ H).
    - now intros ->.
    - destruct (contains w (lower chunk)); lia. }
  split; [reflexivity|].
  split; [apply sort_desc_stable|].
  unfold keyword_search.
  destruct (map snd (firstn top_k (sort_desc (scored_chunks question cs))));
    reflexivity.
Qed.

End KeywordScorer.

(* ===================================================================== *)
(** * Strings: stripping and splitting *)
(* ===================================================================== *)

Section StripFacts.
Import PyStr.

Lemma lstrip_decompose (s : str) :
  exists ws, all_space ws /\ s = ws ++ lstrip s.
Proof.
  induction s as [|c s (ws & Hws & E)]; cbn [lstrip].
  - exists []. split; [constructor|reflexivity].
  - destruct (is_space c) eqn:Ec.
    + exists (c :: ws). split; [now constructor|]. cbn. now rewrite <- E.
    + exists []. split; [constructor|reflexivity].
Qed.

Lemma lstrip_head (s : str) :
  match lstrip s with [] => True | c :: _ => is_space c = false end.
Proof.
  induction s as [|c s IH]; cbn [lstrip]; [exact I|].
  destruct (is_space c) eqn:Ec; [exact IH|exact Ec].
Qed.

Lemma lstrip_fixed (s : str) :
  match s with [] => True | c :: _ => is_space c = false end -> lstrip s = s.
Proof. destruct s as [|c s]; cbn [lstrip]; [reflexivity|]. now intros ->. Qed.

Lemma lstrip_idempotent (s : str) : lstrip (lstrip s) = lstrip s.
Proof. apply lstrip_fixed, lstrip_head. Qed.

Lemma rstrip_decompose (s : str) :
  exists ws, all_space ws /\ s = rstrip s ++ ws.
Proof.
  destruct (lstrip_decompose (rev s)) as (ws & Hws & E).
  exists (rev ws). split.
  - unfold all_space. now apply Forall_rev.
  - unfold rstrip. rewrite <- rev_app_distr, <- E. now rewrite rev_involutive.
Qed.

Lemma trimmed_strip (s : str) : trimmed (strip s).
Proof.
  unfold trimmed, strip, rstrip. rewrite rev_involutive. split.
  - destruct (lstrip_decompose (rev (lstrip s))) as (ws & _ & E).
    apply lstrip_fixed.
    destruct (rev (lstrip (rev (lstrip s)))) as [|c u] eqn:Eu; [exact I|].
    apply (f_equal (@rev ascii)) in E.
    rewrite rev_involutive, rev_app_distr, Eu in E.
    pose proof (lstrip_head s) as Hh. rewrite E in Hh. exact Hh.
  - apply lstrip_idempotent.
Qed.

Lemma strip_trimmed (s : str) : trimmed s -> strip s = s.
Proof.
  intros [Hl Hr]. unfold strip, rstrip. rewrite Hl, Hr. apply rev_involutive.
Qed.

Lemma lstrip_nonempty_app (a b : str) :
  lstrip a = a -> a <> [] -> lstrip (a ++ b) = a ++ b.
Proof.
  intros H Hne. destruct a as [|c a]; [congruence|].
  pose proof (lstrip_head (c :: a)) as Hh. rewrite H in Hh.
  cbn [app lstrip]. now rewrite Hh.
Qed.

(** Two trimmed, non-empty strings joined by one space are trimmed. *)
Lemma trimmed_joined (a b : str) :
  trimmed a -> trimmed b -> a <> [] -> b <> [] -> trimmed (a ++ space ++ b).
Proof.
  intros [Ha _] [_ Hb] Hna Hnb. split.
  - now apply lstrip_nonempty_app.
  - rewrite !rev_app_distr, <- app_assoc.
    apply lstrip_nonempty_app; [assumption|].
    intros E. apply Hnb. apply (f_equal (@rev ascii)) in E.
    now rewrite rev_involutive in E.
Qed.

Lemma remove_ws_app (a b : str) :
  remove_ws (a ++ b) = remove_ws a ++ remove_ws b.
Proof. apply filter_app. Qed.

Lemma remove_ws_all_space (ws : str) : all_space ws -> remove_ws ws = [].
Proof.
  induction 1 as [|c ws Hc _ IH]; [reflexivity|].
  cbn [remove_ws filter]. now rewrite Hc.
Qed.

Lemma remove_ws_strip (s : str) : remove_ws (strip s) = remove_ws s.
Proof.
  unfold strip.
  destruct (lstrip_decompose s) as (ws1 & H1 & E1).
  destruct (rstrip_decompose (lstrip s)) as (ws2 & H2 & E2).
  rewrite E1 at 2. rewrite E2 at 2.
  rewrite !remove_ws_app, (remove_ws_all_space H1), (remove_ws_all_space H2).
  now rewrite app_nil_r.
Qed.

Lemma remove_ws_space_joined (a b : str) :
  remove_ws (a ++ space ++ b) = remove_ws a ++ remove_ws b.
Proof. now rewrite !remove_ws_app. Qed.

(** [split] across a whitespace code point. *)
Lemma split_from_across (cur a b : str) (c : ascii) :
  is_space c = true ->
  split_from cur (a ++ c :: b) = split_from cur a ++ split_from [] b.
Proof.
  intros Hc. revert cur. induction a as [|x a IH]; intros cur; cbn [app split_from].
  - now rewrite Hc.
  - destruct (is_space x).
    + now rewrite IH, app_assoc.
    + apply IH.
Qed.

Lemma word_count_space_joined (a b : str) :
  word_count (a ++ space ++ b) = word_count a + word_count b.
Proof.
  unfold word_count, split, space. cbn [app].
  rewrite split_from_across by reflexivity. apply length_app.
Qed.

End StripFacts.

(* ===================================================================== *)
(** * Pause-aligned segments *)
(* ===================================================================== *)

Section NaturalPauses.
Import PyStr lip_sync_manager.

Lemma truthy_nonempty (s : str) : truthy s = true <-> s <> [].
Proof. destruct s; cbn; split; congruence. Qed.

(** The pieces of [re.split], put together again, are the text without its
    terminators. *)
Lemma concat_re_split_from (in_run : bool) (cur s : str) :
  List.concat (re_split_from in_run cur s)
  = cur ++ filter (fun c => negb (is_terminator c)) s.
Proof.
  revert in_run cur. induction s as [|c s IH]; intros in_run cur;
    cbn [re_split_from filter].
  - cbn. reflexivity.
  - destruct (is_terminator c); cbn [negb].
    + destruct in_run; [apply IH|].
      cbn [List.concat]. now rewrite IH.
    + rewrite IH, <- app_assoc. reflexivity.
Qed.

Lemma remove_ws_kept_pieces (pieces : list str) :
  remove_ws (List.concat (map strip (filter (fun s => truthy (strip s)) pieces)))
  = remove_ws (List.concat pieces).
Proof.
  induction pieces as [|p ps IH]; [reflexivity|].
  cbn [filter List.concat]. rewrite remove_ws_app, <- IH.
  destruct (truthy (strip p)) eqn:E.
  - cbn [map List.concat]. now rewrite remove_ws_app, remove_ws_strip.
  - rewrite <- (remove_ws_strip p).
    destruct (strip p); [reflexivity|discriminate].
Qed.

Lemma stripped_sentences_of_text (text : str) :
  remove_ws (List.concat (stripped_sentences text))
  = remove_ws (filter (fun c => negb (is_terminator c)) text).
Proof.
  unfold stripped_sentences, re_split.
  now rewrite remove_ws_kept_pieces, concat_re_split_from.
Qed.

Lemma stripped_sentences_loop (text : str) :
  Forall (loop_sentence (stripped_sentences text)) (stripped_sentences text).
Proof.
  apply Forall_forall. intros s Hs. unfold loop_sentence.
  split; [|split; [|exact Hs]].
  - unfold stripped_sentences in Hs. apply in_map_iff in Hs.
    destruct Hs as (y & <- & _). apply trimmed_strip.
  - unfold stripped_sentences in Hs. apply in_map_iff in Hs.
    destruct Hs as (y & <- & Hy). apply filter_In in Hy.
    now apply truthy_nonempty.
Qed.

Lemma concat_snoc (l : list str) (s : str) :
  List.concat (l ++ [s]) = List.concat l ++ s.
Proof. rewrite concat_app. cbn. now rewrite app_nil_r. Qed.

Lemma pause_step_invariant (sentences done : list str) (st : list str * str)
  (s : str) :
  pause_invariant sentences done st ->
  loop_sentence sentences s ->
  pause_invariant sentences (done ++ [s]) (pause_step st s).
Proof.
  destruct st as [chunks cur].
  intros (Ht & Hne & Hws & Hch & Hcur) (Hst & Hsn & Hin).
  unfold pause_step.
  destruct cur as [|c0 cur'] eqn:Ecur; cbn [truthy].
  - (* nothing accumulated yet *)
    assert (Hgoal : pause_invariant sentences (done ++ [s]) (chunks, s)).
    { unfold pause_invariant. repeat split; try apply Hst; auto.
      rewrite app_nil_r in Hws.
      now rewrite concat_snoc, !remove_ws_app, Hws. }
    destruct (15 <? word_count s); exact Hgoal.
  - rewrite <- Ecur in *.
    assert (Hc : cur <> []) by (rewrite Ecur; discriminate).
    destruct (15 <? word_count (cur ++ space ++ s)) eqn:E.
    + rewrite (strip_trimmed Ht).
      unfold pause_invariant. repeat split; try apply Hst; auto.
      * rewrite !concat_snoc, !remove_ws_app.
        rewrite remove_ws_app in Hws. now rewrite Hws.
      * apply Forall_app. split; [assumption|].
        constructor; [|constructor].
        destruct Hcur as [Hcur|Hcur]; [congruence|exact Hcur].
    + apply Nat.ltb_ge in E.
      unfold pause_invariant. repeat split.
      * now apply trimmed_joined.
      * apply (trimmed_joined Ht Hst Hc Hsn).
      * intros _ H. apply app_eq_nil in H. tauto.
      * rewrite concat_snoc, (remove_ws_app (List.concat done)), <- Hws.
        rewrite (remove_ws_app (List.concat chunks) (cur ++ space ++ s)).
        rewrite remove_ws_space_joined, (remove_ws_app (List.concat chunks) cur).
        now rewrite !app_assoc.
      * assumption.
      * right. left. exact E.
Qed.

Lemma pause_loop_invariant (sentences rest done : list str)
  (st : list str * str) :
  pause_invariant sentences done st ->
  Forall (loop_sentence sentences) rest ->
  pause_invariant sentences (done ++ rest) (pause_loop rest st).
Proof.
  revert done st. induction rest as [|s rest IH]; intros done st Hinv Hall.
  - now rewrite app_nil_r.
  - inversion Hall as [|? ? Hs Hrest]; subst.
    cbn [pause_loop fold_left].
    replace (done ++ s :: rest) with ((done ++ [s]) ++ rest)
      by now rewrite <- app_assoc.
    apply IH; [|assumption]. now apply pause_step_invariant.
Qed.

Lemma join_snoc (done : list str) (s : str) :
  done <> [] -> join space (done ++ [s]) = join space done ++ space ++ s.
Proof.
  induction done as [|p done IH]; [congruence|]. intros _.
  destruct done as [|q done]; [reflexivity|].
  change (join space ((p :: q :: done) ++ [s]))
    with (p ++ space ++ join space ((q :: done) ++ [s])).
  rewrite IH by discriminate.
  change (join space (p :: q :: done)) with (p ++ space ++ join space (q :: done)).
  now rewrite <- !app_assoc.
Qed.

Lemma join_nonempty (l : list str) :
  l <> [] -> Forall (fun s => s <> []) l -> join space l <> [].
Proof.
  destruct l as [|p l]; [congruence|]. intros _ H.
  inversion H as [|? ? Hp _]; subst.
  destruct l; cbn [join]; [assumption|].
  intros E. apply app_eq_nil in E. tauto.
Qed.

Lemma word_count_join (l : list str) :
  word_count (join space l) = list_sum (map word_count l).
Proof.
  induction l as [|p l IH]; [reflexivity|].
  destruct l as [|q l].
  - cbn [join map]. unfold list_sum. cbn [fold_right]. lia.
  - change (join space (p :: q :: l)) with (p ++ space ++ join space (q :: l)).
    rewrite word_count_space_joined, IH. reflexivity.
Qed.

(** While the words seen so far stay within 15, everything goes into the one
    current chunk. *)
Lemma pause_loop_single (rest done : list str) :
  Forall (fun s => s <> []) done ->
  Forall (fun s => s <> []) rest ->
  list_sum (map word_count (done ++ rest)) <= 15 ->
  pause_loop rest ([], join space done) = ([], join space (done ++ rest)).
Proof.
  revert done. induction rest as [|s rest IH]; intros done Hd Hr Hsum.
  - now rewrite app_nil_r.
  - inversion Hr as [|? ? Hs Hrest]; subst.
    replace (done ++ s :: rest) with ((done ++ [s]) ++ rest) in *
      by now rewrite <- app_assoc.
    cbn [pause_loop fold_left].
    assert (Hle : list_sum (map word_count (done ++ [s])) <= 15).
    { rewrite map_app, list_sum_app in Hsum. lia. }
    assert (Hstep : pause_step ([], join space done) s
                    = ([], join space (done ++ [s]))).
    { unfold pause_step. destruct done as [|p done].
      - cbn [join truthy app]. cbn in Hle.
        destruct (15 <? word_count s) eqn:E; [|reflexivity].
        apply Nat.ltb_lt in E. lia.
      - assert (Hne : join space (p :: done) <> [])
          by (apply join_nonempty; [discriminate|assumption]).
        apply truthy_nonempty in Hne. rewrite Hne.
        rewrite <- join_snoc by discriminate.
        rewrite word_count_join.
        destruct (15 <? _) eqn:E; [|reflexivity].
        apply Nat.ltb_lt in E. lia. }
    rewrite Hstep. apply IH; [|assumption|assumption].
    apply Forall_app. split; [assumption|]. now constructor.
Qed.

(** What [split_text_for_natural_pauses] returns, in terms of the loop. *)
Lemma split_text_unfold (text : str) :
  let sentences := stripped_sentences text in
  (sentences = [] -> split_text_for_natural_pauses text = [text])
  /\ (sentences <> [] ->
      split_text_for_natural_pauses text
      = fst (pause_loop sentences ([], []))
        ++ [snd (pause_loop sentences ([], []))]
      /\ pause_invariant sentences sentences (pause_loop sentences ([], []))).
Proof.
  cbv zeta. unfold split_text_for_natural_pauses. split.
  - intros ->. reflexivity.
  - intros Hne.
    assert (Hinv : pause_invariant (stripped_sentences text)
                     ([] ++ stripped_sentences text)
                     (pause_loop (stripped_sentences text) ([], []))).
    { apply pause_loop_invariant; [|apply stripped_sentences_loop].
      unfold pause_invariant. repeat split; auto. }
    cbn [app] in Hinv.
    destruct (pause_loop (stripped_sentences text) ([], [])) as [chunks cur].
    split; [|exact Hinv].
    destruct Hinv as (Ht & Hc & _).
    specialize (Hc Hne). rewrite (strip_trimmed Ht).
    apply truthy_nonempty in Hc. rewrite Hc. cbn [fst snd].
    destruct chunks; reflexivity.
Qed.

(** Four sentences of 8, 8, 1 and 20 words: the second does not fit with
    the first, the third joins the second, and the fourth stays alone, over
    the limit. *)
Lemma natural_pauses_example :
  split_text_for_natural_pauses
    (py "one two three four five six seven eight. nine ten eleven twelve thirteen fourteen fifteen sixteen! seventeen? a b c d e f g h i j k l m n o p q r s t.")
  = [ py "one two three four five six seven eight";
      py "nine ten eleven twelve thirteen fourteen fifteen sixteen seventeen";
      py "a b c d e f g h i j k l m n o p q r s t" ].
Proof. vm_compute. reflexivity. Qed.

(** C7, as stated, fails: a five-word text of two sentences comes back as
    one chunk without its terminators, which is not the text. *)
Lemma pauses_as_claimed_fails :
  ~ Claimed.pauses_as_claimed (py "Hello world. How are you?").
Proof.
  intros (_ & _ & _ & H).
  assert (Hw : word_count (py "Hello world. How are you?") <= 15)
    by (vm_compute; lia).
  specialize (H Hw). vm_compute in H. discriminate H.
Qed.

(** C7, amended: the result is never empty. The sentences of a text are the
    stripped non-blank pieces between runs of [.], [!] and [?]; ignoring
    whitespace they are the text without those terminators. When the text
    has a sentence, the chunks, concatenated and ignoring whitespace,
    reproduce the sentences in order, and every chunk has at most 15 words or
    is a single sentence of the text; when the sentences have at most 15
    words in all, the result is the one chunk made of the sentences joined by
    single spaces. When the text has no sentence, the result is the text
    itself. *)
Theorem natural_pauses (text : str) :
  let sentences := stripped_sentences text in
  let chunks := split_text_for_natural_pauses text in
  chunks <> []
  /\ remove_ws (List.concat sentences)
     = remove_ws (filter (fun c => negb (is_terminator c)) text)
  /\ (sentences <> [] ->
      remove_ws (List.concat chunks) = remove_ws (List.concat sentences)
      /\ (forall c, In c chunks -> word_count c <= 15 \/ In c sentences)
      /\ (list_sum (map word_count sentences) <= 15 ->
          chunks = [join space sentences]))
  /\ (sentences = [] -> chunks = [text]).
Proof.
  cbv zeta.
  destruct (split_text_unfold text) as [Hnil Hcons].
  split; [|split; [apply stripped_sentences_of_text|split; [|exact Hnil]]].
  - destruct (stripped_sentences text) as [|s0 rest] eqn:E.
    + rewrite Hnil by reflexivity. discriminate.
    + destruct Hcons as [-> _]; [discriminate|].
      intros H. apply app_eq_nil in H. destruct H as [_ H]. discriminate H.
  - intros Hne. destruct (Hcons Hne) as [-> Hinv].
    destruct (pause_loop (stripped_sentences text) ([], [])) as [cs cur] eqn:El.
    cbn [fst snd]. destruct Hinv as (Ht & Hc & Hws & Hch & Hcur).
    split; [|split].
    + now rewrite concat_snoc.
    + intros c Hin. apply in_app_or in Hin. destruct Hin as [Hin|[<-|[]]].
      * rewrite Forall_forall in Hch. now apply Hch.
      * destruct Hcur as [Hcur|Hcur]; [|exact Hcur].
        exfalso. now apply Hc.
    + intros Hsum.
      pose proof (stripped_sentences_loop text) as Hall.
      assert (Hn : Forall (fun s : str => s <> []) (stripped_sentences text)).
      { eapply Forall_impl; [|exact Hall]. intros s Hs. apply Hs. }
      pose proof (@pause_loop_single (stripped_sentences text) []
                    (Forall_nil _) Hn Hsum) as Hs.
      cbn [join app] in Hs. pose proof (eq_trans (eq_sym El) Hs) as E2.
      now inversion E2.
Qed.

End NaturalPauses.

(* ===================================================================== *)
(** * Binary64: what the operations do to normal floats *)
(* ===================================================================== *)

Section Binary64.
Import PyFloat.
Local Open Scope Z_scope.

Lemma pow_pos_positive (k : positive) : 0 < Z.pow_pos 2 k.
Proof. rewrite Z.pow_pos_fold. apply Z.pow_pos_nonneg; lia. Qed.

Lemma digits_bounds (p : positive) :
  2 ^ (Zpos (digits2_pos p) - 1) <= Zpos p < 2 ^ Zpos (digits2_pos p).
Proof.
  induction p as [p IH|p IH|].
  - cbn [digits2_pos]. rewrite Pos2Z.inj_succ.
    replace (Z.succ (Z.pos (digits2_pos p)) - 1) with (Z.succ (Z.pos (digits2_pos p) - 1)) by lia.
    rewrite !Z.pow_succ_r by lia. lia.
  - cbn [digits2_pos]. rewrite Pos2Z.inj_succ.
    replace (Z.succ (Z.pos (digits2_pos p)) - 1) with (Z.succ (Z.pos (digits2_pos p) - 1)) by lia.
    rewrite !Z.pow_succ_r by lia. lia.
  - cbn. lia.
Qed.

Lemma digits_unique (p : positive) (k : Z) :
  2 ^ (k - 1) <= Zpos p < 2 ^ k -> Zpos (digits2_pos p) = k.
Proof.
  intros [Hlo Hhi]. pose proof (digits_bounds p) as [Dlo Dhi].
  assert (0 < k).
  { destruct (Z_lt_le_dec 0 k); [assumption|].
    assert (2 ^ k <= 2 ^ 0) by (apply Z.pow_le_mono_r; lia). cbn in *. lia. }
  destruct (Z.lt_trichotomy (Zpos (digits2_pos p)) k) as [Hlt|[Heq|Hgt]]; [|assumption|].
  - assert (2 ^ Zpos (digits2_pos p) <= 2 ^ (k - 1)) by (apply Z.pow_le_mono_r; lia). lia.
  - assert (2 ^ k <= 2 ^ (Zpos (digits2_pos p) - 1)) by (apply Z.pow_le_mono_r; lia). lia.
Qed.

Lemma shr_1_div (mrs : shr_record) :
  0 <= shr_m mrs -> shr_m (shr_1 mrs) = shr_m mrs / 2.
Proof.
  destruct mrs as [m r s]. cbn [shr_m shr_1]. intros H.
  destruct m as [|p|p]; [reflexivity| |lia].
  destruct p as [p|p|]; cbn [shr_m].
  - rewrite Pos2Z.inj_xI. apply Z.div_unique with (r := 1); lia.
  - rewrite Pos2Z.inj_xO. apply Z.div_unique with (r := 0); lia.
  - reflexivity.
Qed.

Lemma iter_pos_shr (n : positive) (mrs : shr_record) :
  0 <= shr_m mrs ->
  shr_m (iter_pos shr_1 n mrs) = shr_m mrs / 2 ^ Zpos n.
Proof.
  revert mrs. induction n as [n IH|n IH|]; intros mrs H; cbn [iter_pos].
  - assert (H1 : 0 <= shr_m (shr_1 mrs)) by (rewrite shr_1_div by assumption; apply Z.div_pos; lia).
    assert (H2 : 0 <= shr_m (iter_pos shr_1 n (shr_1 mrs))).
    { rewrite IH by assumption. apply Z.div_pos; [assumption|]. apply Z.pow_pos_nonneg; lia. }
    rewrite IH by assumption. rewrite IH by assumption. rewrite shr_1_div by assumption.
    rewrite !Z.div_div by (try apply Z.pow_pos_nonneg; lia).
    f_equal. replace (Z.pos n~1) with (1 + Z.pos n + Z.pos n) by lia.
    rewrite !Z.pow_add_r by lia. lia.
  - assert (H2 : 0 <= shr_m (iter_pos shr_1 n mrs)).
    { rewrite IH by assumption. apply Z.div_pos; [assumption|]. apply Z.pow_pos_nonneg; lia. }
    rewrite IH by assumption. rewrite IH by assumption.
    rewrite !Z.div_div by (try apply Z.pow_pos_nonneg; lia).
    f_equal. replace (Z.pos n~0) with (Z.pos n + Z.pos n) by lia.
    rewrite !Z.pow_add_r by lia. lia.
  - rewrite shr_1_div by assumption. reflexivity.
Qed.

Lemma shr_m_of_loc (m : Z) (l : location) : shr_m (shr_record_of_loc m l) = m.
Proof. destruct l as [|[ | | ]]; reflexivity. Qed.

Lemma Zdigits2_bounds (m : Z) :
  0 < m -> 2 ^ (Zdigits2 m - 1) <= m < 2 ^ Zdigits2 m.
Proof. destruct m as [|p|p]; try lia. intros _. apply digits_bounds. Qed.

Lemma Zdigits2_unique (m k : Z) :
  0 < m -> 2 ^ (k - 1) <= m < 2 ^ k -> Zdigits2 m = k.
Proof. destruct m as [|p|p]; try lia. intros _. apply digits_unique. Qed.

Lemma shr_fexp_normal (m e : Z) (l : location) :
  0 < m -> 53 <= Zdigits2 m -> -1021 <= Zdigits2 m + e ->
  shr_m (fst (shr_fexp 53 1024 m e l)) = m / 2 ^ (Zdigits2 m - 53)
  /\ snd (shr_fexp 53 1024 m e l) = e + Zdigits2 m - 53.
Proof.
  intros Hm Hd He. unfold shr_fexp, shr.
  assert (Hn : fexp 53 1024 (Zdigits2 m + e) - e = Zdigits2 m - 53).
  { unfold fexp, emin. lia. }
  rewrite Hn.
  destruct (Zdigits2 m - 53) as [|p|p] eqn:E; cbn [fst snd].
  - rewrite shr_m_of_loc, Z.pow_0_r, Z.div_1_r. split; lia.
  - rewrite iter_pos_shr, shr_m_of_loc by (rewrite shr_m_of_loc; lia).
    split; lia.
  - lia.
Qed.

Lemma shifted_mantissa (m : Z) :
  0 < m -> 53 <= Zdigits2 m ->
  2 ^ 52 <= m / 2 ^ (Zdigits2 m - 53) < 2 ^ 53.
Proof.
  intros Hm Hd. pose proof (Zdigits2_bounds Hm) as [Hlo Hhi].
  assert (Hp : 0 < 2 ^ (Zdigits2 m - 53)) by (apply Z.pow_pos_nonneg; lia).
  split.
  - apply Z.div_le_lower_bound; [assumption|].
    rewrite <- Z.pow_add_r by lia.
    replace (Zdigits2 m - 53 + 52) with (Zdigits2 m - 1) by lia. assumption.
  - apply Z.div_lt_upper_bound; [assumption|].
    rewrite <- Z.pow_add_r by lia.
    replace (Zdigits2 m - 53 + 53) with (Zdigits2 m) by lia. assumption.
Qed.

Lemma round_nearest_even_step (m : Z) (l : location) :
  round_nearest_even m l = m \/ round_nearest_even m l = m + 1.
Proof.
  destruct l as [|[ | | ]]; cbn [round_nearest_even]; auto.
  destruct (Z.even m); auto.
Qed.

(** Rounding a positive mantissa of at least 53 digits, within the normal
    range: a normal float comes out, of the same magnitude or one more. *)
Lemma binary_round_aux_normal (sx : bool) (mx ex : Z) (lx : location) :
  0 < mx -> 53 <= Zdigits2 mx ->
  -1021 <= Zdigits2 mx + ex -> Zdigits2 mx + ex + 1 <= 1024 ->
  exists m e,
    binary_round_aux 53 1024 sx mx ex lx = S754_finite sx m e
    /\ digits2_pos m = 53%positive
    /\ Zdigits2 mx + ex <= 53 + e <= Zdigits2 mx + ex + 1.
Proof.
  intros Hm Hd Hlo Hhi. unfold binary_round_aux.
  destruct (shr_fexp_normal ex lx Hm Hd Hlo) as [H1 H2].
  destruct (shr_fexp 53 1024 mx ex lx) as [mrs1 e1]. cbn [fst snd] in H1, H2.
  pose proof (shifted_mantissa Hm Hd) as Hm1. rewrite <- H1 in Hm1.
  set (m2 := round_nearest_even (shr_m mrs1) (loc_of_shr_record mrs1)).
  assert (Hm2 : 2 ^ 52 <= m2 <= 2 ^ 53).
  { subst m2. destruct (round_nearest_even_step (shr_m mrs1) (loc_of_shr_record mrs1)) as [-> | ->]; lia. }
  assert (Hm2pos : 0 < m2) by lia.
  assert (Hd2 : Zdigits2 m2 = 53 \/ (Zdigits2 m2 = 54 /\ m2 = 2 ^ 53)).
  { destruct (Z.eq_dec m2 (2 ^ 53)) as [E|E].
    - right. split; [|assumption]. apply Zdigits2_unique; [assumption|].
      rewrite E. change (54 - 1) with 53. split; [lia|].
      apply Z.pow_lt_mono_r; lia.
    - left. apply Zdigits2_unique; [assumption|].
      change (53 - 1) with 52. lia. }
  assert (Hd2' : 53 <= Zdigits2 m2) by lia.
  assert (Hlo2 : -1021 <= Zdigits2 m2 + e1) by lia.
  destruct (shr_fexp_normal e1 loc_Exact Hm2pos Hd2' Hlo2) as [H3 H4].
  destruct (shr_fexp 53 1024 m2 e1 loc_Exact) as [mrs3 e3]. cbn [fst snd] in H3, H4.
  pose proof (shifted_mantissa Hm2pos Hd2') as Hm3. rewrite <- H3 in Hm3.
  destruct (shr_m mrs3) as [|p|p] eqn:Ep; try lia.
  assert (He3 : (e3 <=? 1024 - 53) = true) by (apply Z.leb_le; lia).
  rewrite He3. exists p, e3. split; [reflexivity|]. split.
  - assert (Zpos (digits2_pos p) = 53) by (apply digits_unique; change (53 - 1) with 52; lia).
    congruence.
  - lia.
Qed.

Lemma normal_widen (lo hi lo' hi' : Z) (x : PyFloat.float) :
  normal lo hi x -> lo' <= lo -> hi <= hi' -> normal lo' hi' x.
Proof. intros (m & e & H1 & H2 & H3) Hl Hh. exists m, e. repeat split; auto; lia. Qed.

Lemma mantissa_53 (m : positive) :
  digits2_pos m = 53%positive -> 2 ^ 52 <= Zpos m < 2 ^ 53.
Proof. intros H. pose proof (digits_bounds m) as Hb. rewrite H in Hb. exact Hb. Qed.

Lemma mul_normal (a b c d : Z) (x y : PyFloat.float) :
  normal a b x -> normal c d y ->
  -1021 <= a + c - 1 -> b + d + 1 <= 1024 ->
  normal (a + c - 1) (b + d + 1) (PyFloat.mul x y).
Proof.
  intros (mx & ex & -> & Hmx & Hex) (my & ey & -> & Hmy & Hey) Hlo Hhi.
  unfold PyFloat.mul, SFmul, PyFloat.prec, PyFloat.emax. cbn [xorb].
  pose proof (@mantissa_53 mx Hmx) as Bx. pose proof (@mantissa_53 my Hmy) as By.
  assert (Hprod : 2 ^ 104 <= Zpos (mx * my) < 2 ^ 106).
  { rewrite Pos2Z.inj_mul.
    change (2 ^ 104) with (2 ^ 52 * 2 ^ 52). change (2 ^ 106) with (2 ^ 53 * 2 ^ 53).
    split; [apply Z.mul_le_mono_nonneg; lia|apply Z.mul_lt_mono_nonneg; lia]. }
  assert (Hd : Zdigits2 (Zpos (mx * my)) = 105 \/ Zdigits2 (Zpos (mx * my)) = 106).
  { destruct (Z_lt_le_dec (Zpos (mx * my)) (2 ^ 105)).
    - left. apply Zdigits2_unique; [lia|]. change (105 - 1) with 104. lia.
    - right. apply Zdigits2_unique; [lia|]. change (106 - 1) with 105. lia. }
  destruct (@binary_round_aux_normal false (Zpos (mx * my)) (ex + ey) loc_Exact)
    as (m & e & -> & Hm & He); try lia.
  exists m, e. repeat split; auto; lia.
Qed.

Lemma div_normal (a b c d : Z) (x y : PyFloat.float) :
  normal a b x -> normal c d y ->
  -1021 <= a - d -> b - c + 2 <= 1024 ->
  exists q, PyFloat.truediv x y = Some q /\ normal (a - d) (b - c + 2) q.
Proof.
  intros (mx & ex & -> & Hmx & Hex) (my & ey & -> & Hmy & Hey) Hlo Hhi.
  unfold PyFloat.truediv. cbn [PyFloat.is_zero]. eexists. split; [reflexivity|].
  unfold SFdiv, SFdiv_core_binary. cbn [xorb Zdigits2]. rewrite Hmx, Hmy.
  pose proof (@mantissa_53 mx Hmx) as Bx. pose proof (@mantissa_53 my Hmy) as By.
  assert (He' : Z.min (fexp 53 1024 (53 + ex - (53 + ey))) (ex - ey) = ex - ey - 53).
  { unfold fexp, emin. lia. }
  unfold PyFloat.prec, PyFloat.emax. rewrite He'.
  replace (ex - ey - (ex - ey - 53)) with 53 by lia.
  rewrite Z.shiftl_mul_pow2 by lia.
  pose proof (Z_div_mod (Zpos mx * 2 ^ 53) (Zpos my) ltac:(lia)) as Hdm.
  destruct (Z.div_eucl (Zpos mx * 2 ^ 53) (Zpos my)) as [q r].
  destruct Hdm as [Hq Hr].
  assert (Hqb : 2 ^ 52 <= q < 2 ^ 54).
  { change (2 ^ 54) with (2 * 2 ^ 53). split; nia. }
  assert (Hd : Zdigits2 q = 53 \/ Zdigits2 q = 54).
  { destruct (Z_lt_le_dec q (2 ^ 53)).
    - left. apply Zdigits2_unique; [lia|]. change (53 - 1) with 52. lia.
    - right. apply Zdigits2_unique; [lia|]. change (54 - 1) with 53. lia. }
  destruct (@binary_round_aux_normal false q (ex - ey - 53) (new_location (Zpos my) r))
    as (m & e & -> & Hm & He); try lia.
  exists m, e. repeat split; auto; lia.
Qed.

Lemma iter_xO_pow (p d : positive) :
  Zpos (Pos.iter xO p d) = Zpos p * 2 ^ Zpos d.
Proof.
  induction d as [|d IH] using Pos.peano_ind.
  - cbn. lia.
  - rewrite Pos.iter_succ, Pos2Z.inj_xO, IH, Pos2Z.inj_succ, Z.pow_succ_r by lia. lia.
Qed.

Lemma of_int_normal (w : Z) :
  0 < w -> Zdigits2 w + 1 <= 1024 ->
  normal (Zdigits2 w) (Zdigits2 w + 1) (PyFloat.of_int w).
Proof.
  intros Hw Hd. destruct w as [|p|p]; try lia.
  unfold PyFloat.of_int, binary_normalize, binary_round, PyFloat.prec, PyFloat.emax.
  pose proof (digits_bounds p) as Hb.
  assert (Hpos : 0 < Zpos (digits2_pos p)) by lia.
  assert (Hf : fexp 53 1024 (Zpos (digits2_pos p) + 0) = Zpos (digits2_pos p) - 53).
  { unfold fexp, emin. lia. }
  rewrite Hf. unfold shl_align. cbn [Zdigits2] in *.
  destruct (Zpos (digits2_pos p) - 53 - 0) as [|k|k] eqn:Ek.
  - destruct (@binary_round_aux_normal false (Zpos p) 0 loc_Exact)
      as (m & e & -> & Hm & He); cbn [Zdigits2]; try lia.
    exists m, e. cbn [Zdigits2] in He. repeat split; auto; lia.
  - destruct (@binary_round_aux_normal false (Zpos p) 0 loc_Exact)
      as (m & e & -> & Hm & He); cbn [Zdigits2]; try lia.
    exists m, e. cbn [Zdigits2] in He. repeat split; auto; lia.
  - assert (Hk : Zpos k = 53 - Zpos (digits2_pos p)) by lia.
    assert (Hmz : 2 ^ 52 <= Zpos (Pos.iter xO p k) < 2 ^ 53).
    { rewrite iter_xO_pow, Hk.
      replace 52 with ((Zpos (digits2_pos p) - 1) + (53 - Zpos (digits2_pos p))) at 1 by lia.
      replace 53 with (Zpos (digits2_pos p) + (53 - Zpos (digits2_pos p))) at 4 by lia.
      rewrite !Z.pow_add_r by lia.
      assert (0 < 2 ^ (53 - Zpos (digits2_pos p))) by (apply Z.pow_pos_nonneg; lia).
      split; nia. }
    assert (Hdz : Zdigits2 (Zpos (Pos.iter xO p k)) = 53).
    { apply Zdigits2_unique; [lia|]. change (53 - 1) with 52. exact Hmz. }
    destruct (@binary_round_aux_normal false (Zpos (Pos.iter xO p k))
                (Zpos (digits2_pos p) - 53) loc_Exact)
      as (m & e & -> & Hm & He); try lia.
    exists m, e. repeat split; auto; lia.
Qed.

Lemma round_normal (lo hi : Z) (x : PyFloat.float) :
  normal lo hi x -> 0 <= hi ->
  exists r, PyFloat.round x = Some r /\ 0 <= r <= 2 ^ hi.
Proof.
  intros (m & e & -> & Hm & He) Hhi. cbn [PyFloat.round PyFloat.signed].
  eexists. split; [reflexivity|].
  pose proof (@mantissa_53 m Hm) as Bm.
  destruct e as [|p|k].
  - rewrite Z.pow_0_r, Z.mul_1_r. split; [lia|].
    assert (2 ^ 53 <= 2 ^ hi) by (apply Z.pow_le_mono_r; lia). lia.
  - assert (Hp : 0 < 2 ^ Zpos p) by (apply Z.pow_pos_nonneg; lia).
    split; [nia|].
    assert (2 ^ (53 + Zpos p) <= 2 ^ hi) by (apply Z.pow_le_mono_r; lia).
    rewrite Z.pow_add_r in H by lia. nia.
  - rewrite Z.pow_pos_fold.
    assert (Hd : 0 < 2 ^ Zpos k) by (apply Z.pow_pos_nonneg; lia).
    assert (Hq : 0 <= Zpos m / 2 ^ Zpos k) by (apply Z.div_pos; lia).
    assert (Hub : Zpos m / 2 ^ Zpos k + 1 <= 2 ^ hi).
    { destruct (Z_le_gt_dec (Zpos k) 53).
      - assert (Zpos m / 2 ^ Zpos k < 2 ^ (53 - Zpos k)).
        { apply Z.div_lt_upper_bound; [assumption|].
          rewrite <- Z.pow_add_r by lia.
          replace (Zpos k + (53 - Zpos k)) with 53 by lia. lia. }
        assert (2 ^ (53 - Zpos k) <= 2 ^ hi) by (apply Z.pow_le_mono_r; lia).
        lia.
      - assert (2 ^ 53 < 2 ^ Zpos k) by (apply Z.pow_lt_mono_r; lia).
        rewrite Z.div_small by lia.
        assert (2 ^ 0 <= 2 ^ hi) by (apply Z.pow_le_mono_r; lia).
        cbn in *. lia. }
    destruct (2 * (Zpos m mod 2 ^ Zpos k) ?= 2 ^ Zpos k); try lia.
    destruct (Z.even (Zpos m / 2 ^ Zpos k)); lia.
Qed.

Lemma Zdigits2_le (m k : Z) : 0 < m -> m < 2 ^ k -> Zdigits2 m <= k.
Proof.
  intros Hm Hk. pose proof (@Zdigits2_bounds m Hm) as [Hlo _].
  destruct (Z_le_gt_dec (Zdigits2 m) k); [assumption|].
  assert (2 ^ k <= 2 ^ (Zdigits2 m - 1)).
  { apply Z.pow_le_mono_r; [lia|]. lia. }
  lia.
Qed.

Lemma Zdigits2_pos (m : Z) : 0 < m -> 1 <= Zdigits2 m.
Proof. destruct m; cbn; lia. Qed.

Lemma quotient_digits (a b q r k : Z) :
  1 <= k -> 0 < b -> a = b * q + r -> 0 <= r < b ->
  2 ^ (k - 1) * b <= a -> a < 2 ^ (k + 1) * b ->
  0 < q /\ (Zdigits2 q = k \/ Zdigits2 q = k + 1).
Proof.
  intros Hk1 Hb Ha Hr Hlo Hhi.
  assert (Hk : 0 < 2 ^ (k - 1)) by (apply Z.pow_pos_nonneg; lia).
  assert (Hq : 2 ^ (k - 1) <= q < 2 ^ (k + 1)) by (split; nia).
  split; [lia|].
  destruct (Z_lt_le_dec q (2 ^ k)).
  - left. apply Zdigits2_unique; lia.
  - right. apply Zdigits2_unique; [lia|].
    replace (k + 1 - 1) with k by lia. lia.
Qed.

Lemma truediv_int_normal (a b : Z) :
  0 < a -> 0 < b ->
  -1021 <= Zdigits2 a - Zdigits2 b -> Zdigits2 a - Zdigits2 b + 2 <= 1024 ->
  exists q,
    PyFloat.truediv_int a b = Some q
    /\ normal (Zdigits2 a - Zdigits2 b) (Zdigits2 a - Zdigits2 b + 2) q.
Proof.
  intros Ha Hb Hlo Hhi.
  pose proof (Zdigits2_bounds Ha) as Ba. pose proof (Zdigits2_bounds Hb) as Bb.
  pose proof (@Zdigits2_pos a Ha) as Da. pose proof (@Zdigits2_pos b Hb) as Db.
  set (da := Zdigits2 a) in *. set (db := Zdigits2 b) in *.
  assert (Hpb : 2 ^ db = 2 * 2 ^ (db - 1)).
  { replace db with (Z.succ (db - 1)) at 1 by lia. apply Z.pow_succ_r. lia. }
  assert (Hpb0 : 0 < 2 ^ (db - 1)) by (apply Z.pow_pos_nonneg; lia).
  destruct a as [|pa|pa]; try lia. destruct b as [|pb|pb]; try lia.
  unfold PyFloat.truediv_int. cbn [Z.eqb PyFloat.exact_int].
  unfold SFdiv, SFdiv_core_binary, PyFloat.prec, PyFloat.emax.
  cbn [xorb]. fold da db.
  replace (da + 0 - (db + 0)) with (da - db) by lia.
  replace (0 - 0) with 0 by lia.
  assert (Hf : fexp 53 1024 (da - db) = da - db - 53).
  { unfold fexp, emin. lia. }
  rewrite Hf.
  destruct (Z_lt_le_dec (da - db - 53) 0) as [Hs|Hs].
  - replace (Z.min (da - db - 53) 0) with (da - db - 53) by lia.
    replace (0 - (da - db - 53)) with (53 - (da - db)) by lia.
    destruct (53 - (da - db)) as [|sp|sp] eqn:Es; try lia.
    rewrite Z.shiftl_mul_pow2 by lia. rewrite <- Es.
    pose proof (Z_div_mod (Zpos pa * 2 ^ (53 - (da - db))) (Zpos pb) ltac:(lia)) as Hdm.
    destruct (Z.div_eucl (Zpos pa * 2 ^ (53 - (da - db))) (Zpos pb)) as [q r].
    destruct Hdm as [Hq Hr].
    assert (Hsh : 0 < 2 ^ (53 - (da - db))) by (apply Z.pow_pos_nonneg; lia).
    assert (E1 : 2 ^ (da - 1) * 2 ^ (53 - (da - db)) = 2 ^ 52 * 2 ^ db).
    { rewrite <- !Z.pow_add_r by lia. f_equal. lia. }
    assert (E2 : 2 ^ da * 2 ^ (53 - (da - db)) = 2 ^ 53 * 2 ^ db).
    { rewrite <- !Z.pow_add_r by lia. f_equal. lia. }
    destruct (@quotient_digits (Zpos pa * 2 ^ (53 - (da - db))) (Zpos pb) q r 53)
      as [Hq0 Hd]; try lia.
    { change (2 ^ (53 - 1)) with (2 ^ 52). nia. }
    { change (2 ^ (53 + 1)) with (2 * 2 ^ 53). nia. }
    destruct (@binary_round_aux_normal false q (da - db - 53)
                (new_location (Zpos pb) r))
      as (m & e & -> & Hm & He); try lia.
    eexists. split; [reflexivity|]. exists m, e. repeat split; auto; lia.
  - replace (Z.min (da - db - 53) 0) with 0 by lia.
    replace (0 - 0) with 0 by lia. cbv iota.
    pose proof (Z_div_mod (Zpos pa) (Zpos pb) ltac:(lia)) as Hdm.
    destruct (Z.div_eucl (Zpos pa) (Zpos pb)) as [q r].
    destruct Hdm as [Hq Hr].
    assert (E1 : 2 ^ (da - 1) = 2 ^ (da - db - 1) * 2 ^ db).
    { rewrite <- Z.pow_add_r by lia. f_equal. lia. }
    assert (E2 : 2 ^ da = 2 ^ (da - db + 1) * 2 ^ (db - 1)).
    { rewrite <- Z.pow_add_r by lia. f_equal. lia. }
    assert (0 < 2 ^ (da - db - 1)) by (apply Z.pow_pos_nonneg; lia).
    assert (0 < 2 ^ (da - db + 1)) by (apply Z.pow_pos_nonneg; lia).
    destruct (@quotient_digits (Zpos pa) (Zpos pb) q r (da - db))
      as [Hq0 Hd]; try lia; try nia.
    destruct (@binary_round_aux_normal false q 0
                (new_location (Zpos pb) r))
      as (m & e & -> & Hm & He); try lia.
    eexists. split; [reflexivity|]. exists m, e. repeat split; auto; lia.
Qed.

End Binary64.

(* ===================================================================== *)
(** * The speech rate *)
(* ===================================================================== *)

Section OptimalRate.
Import PyStr PyFloat lip_sync_manager.
Local Open Scope Z_scope.

(** Whatever float comes out of the arithmetic, clamping and truncating it
    lands within the two bounds. *)
Lemma clamp_within (x : PyFloat.float) (r : Z) :
  PyFloat.int_of_num
    (PyFloat.max_int_num min_wpm (PyFloat.min_int_float max_wpm x)) = Some r ->
  110 <= r <= 170.
Proof.
  unfold PyFloat.min_int_float, min_wpm, max_wpm.
  destruct (PyFloat.lt_float_int x 170) eqn:Hhi; cbn [PyFloat.max_int_num].
  2:{ cbn. intros H. inversion H. lia. }
  destruct (PyFloat.lt_int_float 110 x) eqn:Hlo; cbn [PyFloat.int_of_num].
  2:{ intros H. inversion H. lia. }
  unfold PyFloat.lt_float_int in Hhi. unfold PyFloat.lt_int_float in Hlo.
  unfold PyFloat.trunc.
  destruct x as [s|s| |s m e].
  - apply Z.ltb_lt in Hlo. lia.
  - destruct s; discriminate.
  - discriminate.
  - intros H.
    apply (f_equal (fun o => match o with Some v => v | None => 0 end)) in H.
    cbv beta iota in H. subst r.
    destruct e as [|p|k]; apply Z.ltb_lt in Hhi, Hlo.
    + lia.
    + lia.
    + pose proof (pow_pos_positive k) as Hd.
      destruct s; unfold PyFloat.signed in *.
      * lia.
      * split.
        -- apply Z.div_le_lower_bound; lia.
        -- apply Z.lt_le_incl, Z.div_lt_upper_bound; lia.
Qed.

Lemma calculate_optimal_rate_by_words (text : str) :
  calculate_optimal_rate text = rate_for_words (Z.of_nat (word_count text)).
Proof.
  unfold calculate_optimal_rate, rate_for_words, estimate_speech_duration.
  destruct (Z.of_nat (word_count text) <=? 5); [reflexivity|].
  now destruct (PyFloat.truediv_int (Z.of_nat (word_count text)) base_wpm).
Qed.

Lemma rate_for_words_within (words r : Z) :
  rate_for_words words = Some r -> 110 <= r <= 170.
Proof.
  unfold rate_for_words.
  destruct (words <=? 5); [intros H; inversion H; unfold base_wpm; lia|].
  destruct (PyFloat.truediv_int _ _) as [q|]; cbn [bind]; [|discriminate].
  destruct (PyFloat.truediv _ _) as [ratio|]; cbn [bind]; [|discriminate].
  destruct (PyFloat.round ratio) as [rounded|]; cbn [bind]; [|discriminate].
  destruct (PyFloat.truediv _ _) as [per_second|]; cbn [bind]; [|discriminate].
  apply clamp_within.
Qed.

Lemma const_normal :
  normal 8 8 (PyFloat.of_int base_wpm) /\ normal 6 6 (PyFloat.of_int 60)
  /\ normal 3 3 talk_video_duration.
Proof.
  repeat split; eexists _, _; (split; [vm_compute; reflexivity|]);
    split; (reflexivity || lia).
Qed.

(** The float that reaches the clamp, for a text of more than five words. *)
Lemma required_wpm_normal (words : Z) :
  5 < words -> words < 2 ^ 1016 ->
  exists required_wpm,
    normal (-2) 1023 required_wpm
    /\ rate_for_words words
       = PyFloat.int_of_num
           (PyFloat.max_int_num min_wpm
              (PyFloat.min_int_float max_wpm required_wpm))
    /\ Claimed.claimed_optimal_rate words
       = PyFloat.int_of_num (Claimed.claimed_clamp 110 170 required_wpm).
Proof.
  intros Hw Hbig.
  destruct const_normal as (H140 & H60 & H5).
  assert (Hpos : 0 < words) by lia.
  pose proof (@Zdigits2_le words 1016 Hpos Hbig) as Hdw.
  pose proof (@Zdigits2_pos words Hpos) as Hdw1.
  set (dw := Zdigits2 words) in *.
  pose proof (@of_int_normal words Hpos) as Hfw. fold dw in Hfw.
  specialize (Hfw ltac:(lia)).
  destruct (@truediv_int_normal words base_wpm Hpos ltac:(reflexivity))
    as (q & Eq & Hq0);
    change (Zdigits2 base_wpm) with 8; fold dw; try lia.
  change (Zdigits2 base_wpm) with 8 in Hq0. fold dw in Hq0.
  assert (Hq : normal (dw - 8) (dw + 1 - 8 + 2) q)
    by (eapply normal_widen; [exact Hq0 | lia | lia]).
  pose proof (mul_normal Hq H60) as Hest. specialize (Hest ltac:(lia) ltac:(lia)).
  destruct (div_normal Hest H5) as (ratio & Eratio & Hratio); try lia.
  pose proof (@round_normal _ _ ratio Hratio) as Hround. specialize (Hround ltac:(lia)).
  destruct Hround as (rounded & Eround & Hrounded).
  set (num_loops := Z.max 1 rounded).
  assert (Hloops : 0 < num_loops) by (subst num_loops; lia).
  assert (Hdl : Zdigits2 num_loops <= dw + 2).
  { apply Zdigits2_le; [assumption|].
    replace (dw + 2) with (Z.succ (dw + 1 - 8 + 2 + 6 + 1 - 3 + 2)) by lia.
    rewrite Z.pow_succ_r by lia.
    assert (0 < 2 ^ (dw + 1 - 8 + 2 + 6 + 1 - 3 + 2)) by (apply Z.pow_pos_nonneg; lia).
    subst num_loops. lia. }
  pose proof (@Zdigits2_pos num_loops Hloops) as Hdl1.
  pose proof (@of_int_normal num_loops Hloops) as Hfl. specialize (Hfl ltac:(lia)).
  pose proof (mul_normal Hfl H5) as Htarget. specialize (Htarget ltac:(lia) ltac:(lia)).
  destruct (div_normal Hfw Htarget) as (per_second & Eps & Hps); try lia.
  pose proof (mul_normal Hps H60) as Hreq. specialize (Hreq ltac:(lia) ltac:(lia)).
  exists (PyFloat.mul per_second (PyFloat.of_int 60)).
  split; [eapply normal_widen; [exact Hreq|lia|lia]|].
  assert (Hgt : (words <=? 5) = false) by (apply Z.leb_gt; lia).
  split.
  - unfold rate_for_words. rewrite Hgt, Eq. cbn [bind].
    rewrite Eratio. cbn [bind]. rewrite Eround. cbn [bind].
    fold num_loops. rewrite Eps. reflexivity.
  - unfold Claimed.claimed_optimal_rate. rewrite Hgt.
    change (PyFloat.truediv_int words 140)
      with (PyFloat.truediv_int words base_wpm).
    rewrite Eq. cbn [bind].
    change (PyFloat.of_int 5) with talk_video_duration.
    rewrite Eratio. cbn [bind]. rewrite Eround. cbn [bind].
    fold num_loops. rewrite Eps. reflexivity.
Qed.

(** On a normal float the clamp of the code and the clamp of the
    specification truncate to the same integer. *)
Lemma clamp_agrees (lo hi : Z) (x : PyFloat.float) :
  normal lo hi x ->
  exists r,
    PyFloat.int_of_num
      (PyFloat.max_int_num min_wpm (PyFloat.min_int_float max_wpm x)) = Some r
    /\ PyFloat.int_of_num (Claimed.claimed_clamp 110 170 x) = Some r.
Proof.
  intros (m & e & -> & _ & _).
  unfold PyFloat.min_int_float, Claimed.claimed_clamp, min_wpm, max_wpm,
    PyFloat.lt_float_int, PyFloat.lt_int_float, PyFloat.signed.
  destruct e as [|p|k].
  - destruct (Z.ltb_spec (Zpos m * 2 ^ 0) 170), (Z.ltb_spec (Zpos m * 2 ^ 0) 110),
      (Z.ltb_spec 170 (Zpos m * 2 ^ 0)); try lia;
      cbn [PyFloat.max_int_num PyFloat.lt_int_float PyFloat.signed];
      try destruct (Z.ltb_spec 110 (Zpos m * 2 ^ 0)); try lia;
      cbn [PyFloat.int_of_num PyFloat.trunc PyFloat.signed];
      eexists; split; try reflexivity; f_equal; lia.
  - destruct (Z.ltb_spec (Zpos m * 2 ^ Zpos p) 170),
      (Z.ltb_spec (Zpos m * 2 ^ Zpos p) 110),
      (Z.ltb_spec 170 (Zpos m * 2 ^ Zpos p)); try lia;
      cbn [PyFloat.max_int_num PyFloat.lt_int_float PyFloat.signed];
      try destruct (Z.ltb_spec 110 (Zpos m * 2 ^ Zpos p)); try lia;
      cbn [PyFloat.int_of_num PyFloat.trunc PyFloat.signed];
      eexists; split; try reflexivity; f_equal; lia.
  - pose proof (pow_pos_positive k) as Hd.
    destruct (Z.ltb_spec (Zpos m) (170 * Z.pow_pos 2 k)),
      (Z.ltb_spec (Zpos m) (110 * Z.pow_pos 2 k)),
      (Z.ltb_spec (170 * Z.pow_pos 2 k) (Zpos m)); try lia;
      cbn [PyFloat.max_int_num PyFloat.lt_int_float PyFloat.signed];
      try destruct (Z.ltb_spec (110 * Z.pow_pos 2 k) (Zpos m)); try lia;
      cbn [PyFloat.int_of_num PyFloat.trunc PyFloat.signed];
      eexists; split; try reflexivity; f_equal.
    + assert (E : Zpos m = 110 * Z.pow_pos 2 k) by lia.
      rewrite E, Z.div_mul by lia. reflexivity.
    + assert (E : Zpos m = 170 * Z.pow_pos 2 k) by lia.
      rewrite E, Z.div_mul by lia. reflexivity.
Qed.

(** What Python computes for texts of 0 to 30 words. *)
Lemma rates_of_short_texts :
  map (fun n => rate_for_words (Z.of_nat n)) (seq 0 31)
  = map Some
      [140; 140; 140; 140; 140; 140; 110; 110; 110; 110; 120; 132; 144; 156;
       168; 170; 170; 170; 110; 114; 120; 126; 132; 138; 144; 150; 156; 162;
       168; 170; 120].
Proof. vm_compute. reflexivity. Qed.

(** C8: on every text (of fewer than [2^1016] words, so that no
    intermediate float overflows) [calculate_optimal_rate] returns a value;
    the value is within [[min_wpm, max_wpm] = [110, 170]]; it is
    [base_wpm = 140] when the text has at most 5 words; and it is, as an
    integer, the clamp to [[110, 170]] of wordCount/(loops*5.0)*60 with
    loops = max(1, round(wordCount/140*60/5.0)), computed in binary64. *)
Theorem calculate_optimal_rate_clamped (text : str) :
  Z.of_nat (word_count text) < 2 ^ 1016 ->
  exists r,
    calculate_optimal_rate text = Some r
    /\ 110 <= r <= 170
    /\ ((word_count text <= 5)%nat -> r = 140)
    /\ Claimed.claimed_optimal_rate (Z.of_nat (word_count text)) = Some r.
Proof.
  intros Hbig. rewrite calculate_optimal_rate_by_words.
  destruct (Z_le_gt_dec (Z.of_nat (word_count text)) 5) as [Hle|Hgt].
  - exists 140.
    assert (E : (Z.of_nat (word_count text) <=? 5) = true) by (apply Z.leb_le; lia).
    unfold rate_for_words, Claimed.claimed_optimal_rate. rewrite E.
    repeat split; lia || reflexivity.
  - destruct (@required_wpm_normal (Z.of_nat (word_count text)) ltac:(lia) Hbig)
      as (x & Hx & Ecode & Eclaim).
    destruct (clamp_agrees Hx) as (r & Hr & Hr').
    exists r. rewrite Ecode, Eclaim.
    split; [exact Hr|]. split; [exact (clamp_within x Hr)|].
    split; [lia|exact Hr'].
Qed.

Lemma calculate_optimal_rate_clamped_witness :
  exists r,
    calculate_optimal_rate
      (py "one two three four five six seven eight nine ten eleven twelve")
    = Some r
    /\ 110 <= r <= 170
    /\ ((word_count
           (py "one two three four five six seven eight nine ten eleven twelve")
         <= 5)%nat -> r = 140)
    /\ Claimed.claimed_optimal_rate
         (Z.of_nat
            (word_count
               (py "one two three four five six seven eight nine ten eleven twelve")))
       = Some r.
Proof.
  apply calculate_optimal_rate_clamped.
  vm_compute. reflexivity.
Defined.

End OptimalRate.

(* ===================================================================== *)
(** * The narration thread under interruption *)
(* ===================================================================== *)

Section Narration.
Import PyStr working_voice.

Variable env : rag_system.Env.

Lemma tick_single (w : World) (t : Thread) :
  sys_step env (Tick 0) (w, [t])
  = (fst (thread_step w t), [snd (thread_step w t)]).
Proof. cbn. now destruct (thread_step w t). Qed.

Lemma handle_user_question_keeps (sid : SessionId) (data : option str)
  (w : World) ns :
  rag_system.news_system (rag w) = Some ns ->
  let w' := handle_user_question env sid data w in
  rag_system.news_system (rag w') = Some ns
  /\ dispatched w' = dispatched w
  /\ is_reading_news w' = is_reading_news w
  /\ is_paused_for_question w' = is_paused_for_question w.
Proof.
  intros Hn w'. subst w'.
  destruct (handle_user_question_flags env sid data w) as [Hr Hp].
  destruct (truthy (strip (data_get data []))) eqn:Ht.
  - destruct (handle_user_question_loaded env sid data w Hn Ht)
      as (Hn' & rest & _ & Hd).
    auto.
  - unfold handle_user_question. rewrite Ht. cbn [negb]. auto.
Qed.

Lemma dispatched_emit (sid : SessionId) (e : Event) (w : World) :
  dispatched (emit sid e w) = dispatched w ++ sentence_of (sid, e).
Proof.
  unfold dispatched. cbn [emit emitted].
  rewrite flat_map_app. cbn [flat_map]. now rewrite app_nil_r.
Qed.




Lemma firstn_next {A} (l : list A) (j : nat) (x : A) :
  nth_error l j = Some x -> firstn j l ++ [x] = firstn (S j) l.
Proof.
  revert l. induction j as [|j IH]; intros [|a l] H; try discriminate.
  - cbn in H. now inversion H.
  - cbn [firstn app]. f_equal. now apply IH.
Qed.

Ltac in_order_same t ns j :=
  exists t, ns, j; cbn [fst snd pc pending List.length];
  repeat split; auto; try discriminate.

(** A step of the thread keeps the dispatched sentences in the order of the
    document. *)
Lemma tick_in_order (sentences : list str) (c : nat) (already : list str)
  (sys : System) :
  Forall (fun x => truthy x = true) sentences ->
  in_order sentences c already sys ->
  in_order sentences c already (sys_step env (Tick 0) sys).
Proof.
  intros Hnonempty.
  destruct sys as [w ts].
  intros (t & ns & j & Hts & Hn & Hs & Hc & Hd & Hpend).
  cbn [fst snd] in *. subst ts. rewrite tick_single.
  destruct t as [tsid p]. cbn [pc] in *.
  unfold thread_step. cbn [pc session_id].
  destruct p; cbn [pending List.length] in Hd; rewrite ?Nat.sub_0_r in Hd.
  - (* AtIntro *)
    in_order_same (mkThread tsid (AtIntroGuard
      (rag_system.get_news_intro (current_language w) (rag w)))) ns j.
    now rewrite dispatched_emit, app_nil_r, Nat.sub_0_r.
  - destruct (news_anchor w && negb (speech_cancelled w));
      [in_order_same (mkThread tsid InIntroSpeak) ns j
      |in_order_same (mkThread tsid AtWhile) ns j];
      now rewrite Nat.sub_0_r.
  - in_order_same (mkThread tsid AtWhile) ns j. now rewrite Nat.sub_0_r.
  - destruct (is_reading_news w);
      [in_order_same (mkThread tsid AtPauseCheck) ns j
      |in_order_same (mkThread tsid Finished) ns j];
      now rewrite Nat.sub_0_r.
  - destruct (is_paused_for_question w || speech_cancelled w);
      [in_order_same (mkThread tsid AtSleep) ns j
      |in_order_same (mkThread tsid AtPull) ns j];
      now rewrite Nat.sub_0_r.
  - in_order_same (mkThread tsid AtWhile) ns j. now rewrite Nat.sub_0_r.
  - (* AtPull *)
    unfold rag_system.get_next_sentence. rewrite Hn.
    unfold NewsReadingSystem.get_next_sentence. rewrite Hs, Hc.
    destruct (c + j <? List.length sentences) eqn:El.
    + apply Nat.ltb_lt in El.
      destruct (nth_error sentences (c + j)) as [x|] eqn:Ex.
      2:{ apply nth_error_None in Ex. lia. }
      assert (Hx : truthy x = true).
      { rewrite Forall_forall in Hnonempty.
        apply Hnonempty. eapply nth_error_In. exact Ex. }
      cbn [fst snd]. rewrite Hx. cbn [fst snd].
      eexists _, _, (S j). cbn [fst snd pc pending List.length rag set_rag
        rag_system.news_system NewsReadingSystem.sentences
        NewsReadingSystem.current_position
        NewsReadingSystem.set_current_position].
      split; [reflexivity|]. split; [reflexivity|].
      split; [exact Hs|]. split; [cbn; lia|]. split.
      * cbn [pc pending List.length]. replace (S j - 1) with j by lia. exact Hd.
      * cbn [pc pending]. intros x' [= <-]. split; [lia|].
        replace (c + S j - 1) with (c + j) by lia. exact Ex.
    + cbn [fst snd].
      eexists _, ns, j. cbn [fst snd pc pending List.length rag set_rag
        rag_system.news_system].
      repeat split; auto; try discriminate. now rewrite Nat.sub_0_r.
  - (* AtEmit *)
    destruct (Hpend sentence eq_refl) as [Hj Hx].
    in_order_same (mkThread tsid (AtSpeakGuard sentence has_more)) ns j.
    rewrite dispatched_emit, Hd. cbn [sentence_of snd].
    rewrite Nat.sub_0_r, <- app_assoc. f_equal.
    replace j with (S (j - 1)) at 2 by lia.
    apply firstn_next. rewrite nth_error_skipn.
    replace (c + (j - 1)) with (c + j - 1) by lia. exact Hx.
  - destruct (news_anchor w && negb (speech_cancelled w));
      [in_order_same (mkThread tsid (InSpeak sentence has_more)) ns j
      |in_order_same (mkThread tsid (AtPausedDuringSpeech sentence has_more)) ns j];
      now rewrite Nat.sub_0_r.
  - in_order_same (mkThread tsid (AtPausedDuringSpeech sentence has_more)) ns j.
    now rewrite Nat.sub_0_r.
  - destruct (is_paused_for_question w || speech_cancelled w);
      [in_order_same (mkThread tsid AtWhile) ns j
      |in_order_same (mkThread tsid (AtHasMore has_more)) ns j];
      now rewrite Nat.sub_0_r.
  - destruct (negb has_more);
      [in_order_same (mkThread tsid Finished) ns j
      |in_order_same (mkThread tsid AtWhile) ns j];
      rewrite Nat.sub_0_r; try assumption.
    change (dispatched (set_reading (emit tsid news_completed w) false))
      with (dispatched (emit tsid news_completed w)).
    now rewrite dispatched_emit, app_nil_r.
  - in_order_same (mkThread tsid Finished) ns j. now rewrite Nat.sub_0_r.
  - (* AtStartedEmit *)
    in_order_same (mkThread tsid Finished) ns j.
    now rewrite dispatched_emit, app_nil_r, Nat.sub_0_r.
Qed.

Lemma in_order_ext (sentences : list str) (c : nat) (already : list str)
  (sys sys' : System) :
  snd sys' = snd sys ->
  rag_system.news_system (rag (fst sys'))
  = rag_system.news_system (rag (fst sys)) ->
  dispatched (fst sys') = dispatched (fst sys) ->
  in_order sentences c already sys -> in_order sentences c already sys'.
Proof.
  intros Ht Hn Hd (t & ns & j & H).
  exists t, ns, j. rewrite Ht, Hn, Hd. exact H.
Qed.

(** So does every command that neither restarts the reading nor reloads
    the document. *)
Lemma step_in_order (sentences : list str) (c : nat) (already : list str)
  (a : Action) (sys : System) :
  Forall (fun x => truthy x = true) sentences ->
  keeps_document a ->
  in_order sentences c already sys ->
  in_order sentences c already (sys_step env a sys).
Proof.
  intros Hne Ha Hin. destruct a as [i|sid cmd].
  - cbn in Ha. subst i. now apply tick_in_order.
  - destruct sys as [w ts].
    destruct cmd; cbn in Ha; try contradiction;
      cbn [sys_step handle]; eapply in_order_ext; try exact Hin;
      cbn [fst snd]; try apply app_nil_r; try reflexivity.
    + unfold handle_ask_question. now rewrite dispatched_emit, app_nil_r.
    + destruct Hin as (t & ns & j & _ & Hn & _). cbn [fst] in Hn.
      destruct (handle_user_question_keeps sid question w Hn) as (Hn' & _).
      congruence.
    + destruct Hin as (t & ns & j & _ & Hn & _). cbn [fst] in Hn.
      now destruct (handle_user_question_keeps sid question w Hn) as (_ & Hd & _).
    + unfold handle_continue_reading.
      now rewrite !dispatched_emit, !app_nil_r.
    + unfold handle_stop_reading. now rewrite dispatched_emit, app_nil_r.
Qed.

Lemma run_in_order (sentences : list str) (c : nat) (already : list str)
  (acts : list Action) (sys : System) :
  Forall (fun x => truthy x = true) sentences ->
  Forall keeps_document acts ->
  in_order sentences c already sys ->
  in_order sentences c already (run env acts sys).
Proof.
  intros Hne. revert sys. induction acts as [|a acts IH]; intros sys Hall Hin.
  - exact Hin.
  - inversion Hall; subst. cbn [run fold_left].
    apply IH; [assumption|]. now apply step_in_order.
Qed.

(** Whatever the schedule of thread steps, questions, continues, stops and
    cancels, the sentences are dispatched in the order of the document:
    none twice, none left out. *)
Lemma dispatched_in_order (w : World) (t : Thread) ns (acts : list Action) :
  rag_system.news_system (rag w) = Some ns ->
  Forall (fun x => truthy x = true) (NewsReadingSystem.sentences ns) ->
  pending (pc t) = [] ->
  Forall keeps_document acts ->
  exists n,
    dispatched (fst (run env acts (w, [t])))
    = dispatched w
      ++ firstn n (skipn (NewsReadingSystem.current_position ns)
                         (NewsReadingSystem.sentences ns)).
Proof.
  intros Hn Hne Hp Hall.
  assert (Hin : in_order (NewsReadingSystem.sentences ns)
                  (NewsReadingSystem.current_position ns) (dispatched w)
                  (w, [t])).
  { exists t, ns, 0. cbn [fst snd]. rewrite Hp. cbn.
    repeat split; auto; try discriminate. now rewrite app_nil_r. }
  destruct (run_in_order Hne Hall Hin) as (t' & ns' & j & _ & _ & _ & _ & Hd & _).
  eexists. exact Hd.
Qed.








End Narration.

Section NarrationExamples.
Import PyStr working_voice Scenarios.

(** A thread interrupted after its pause check and before its pull pulls
    and dispatches the third sentence while the question is open, does not
    hand it to [speak], and goes on with the fourth after
    [continue_reading]: the dispatched sentences are still in order, as
    [dispatched_in_order] says, but the third one was never spoken. *)
Lemma interrupted_before_pull :
  let resumed :=
    run no_env
      ([Handle 1 ask_question] ++ repeat (Tick 0) 6
       ++ [Handle 1 (continue_reading None)] ++ repeat (Tick 0) 6)
      (reading_second, [mkThread 1 AtPull]) in
  dispatched (fst resumed)
  = dispatched reading_second
    ++ [py "The third sentence has six words.";
        py "The fourth sentence has six words."]
  /\ map snd (spoken (fst resumed)) = [py "The fourth sentence has six words."].
Proof. split; reflexivity. Qed.

End NarrationExamples.

(* ===================================================================== *)
(** * Strings: the words of a text *)
(* ===================================================================== *)

Section Words.
Import PyStr.

Lemma flush_word (cur : str) :
  Forall (fun c => is_space c = false) cur -> Forall is_word (flush cur).
Proof.
  intros H. destruct cur as [|c cur]; cbn; [constructor|].
  constructor; [|constructor]. split; [discriminate | exact H].
Qed.

Lemma split_from_words (cur s : str) :
  Forall (fun c => is_space c = false) cur -> Forall is_word (split_from cur s).
Proof.
  revert cur. induction s as [|c s IH]; intros cur Hcur; cbn [split_from].
  - now apply flush_word.
  - destruct (is_space c) eqn:Hc.
    + apply Forall_app. split; [now apply flush_word | apply IH; constructor].
    + apply IH. apply Forall_app. split; [exact Hcur | repeat constructor; exact Hc].
Qed.

Lemma split_words (s : str) : Forall is_word (split s).
Proof. apply split_from_words. constructor. Qed.

Lemma split_from_word (cur w : str) :
  Forall (fun c => is_space c = false) w ->
  split_from cur w = flush (cur ++ w).
Proof.
  revert cur. induction w as [|c w IH]; intros cur Hw; cbn [split_from].
  - now rewrite app_nil_r.
  - inversion Hw as [|? ? Hc Hw']; subst. rewrite Hc, IH by exact Hw'.
    now rewrite <- app_assoc.
Qed.

Lemma split_word (w : str) : is_word w -> split w = [w].
Proof.
  intros [Hne Hw]. unfold split. rewrite split_from_word by exact Hw.
  cbn. destruct w; [contradiction | reflexivity].
Qed.

Lemma split_join (ws : list str) :
  Forall is_word ws -> split (join space ws) = ws.
Proof.
  induction ws as [|w ws IH]; intros H; [reflexivity|].
  inversion H as [|? ? Hw Hws]; subst.
  destruct ws as [|w' ws].
  - cbn [join]. now apply split_word.
  - change (join space (w :: w' :: ws)) with (w ++ blank :: join space (w' :: ws)).
    unfold split. rewrite split_from_across by reflexivity.
    fold (split w). fold (split (join space (w' :: ws))).
    rewrite IH by exact Hws. now rewrite split_word.
Qed.

Lemma split_normalised (s : str) : split (join space (split s)) = split s.
Proof. apply split_join, split_words. Qed.

Lemma split_from_trailing (cur s ws : str) :
  all_space ws -> split_from cur (s ++ ws) = split_from cur s.
Proof.
  intros Hws. revert cur. induction s as [|c s IH]; intros cur; cbn [app split_from].
  - revert cur. induction Hws as [|c ws Hc _ IH]; intros cur; cbn [split_from].
    + reflexivity.
    + rewrite Hc, IH. cbn. now rewrite app_nil_r.
  - destruct (is_space c); now rewrite IH.
Qed.

Lemma split_leading (ws s : str) :
  all_space ws -> split (ws ++ s) = split s.
Proof.
  intros Hws. induction Hws as [|c ws Hc _ IH]; [reflexivity|].
  unfold split in *. cbn [app split_from]. now rewrite Hc.
Qed.

Lemma split_strip (s : str) : split (strip s) = split s.
Proof.
  unfold strip.
  destruct (lstrip_decompose s) as [ws [Hws Hs]].
  destruct (rstrip_decompose (lstrip s)) as [ws' [Hws' Hs']].
  rewrite Hs at 2. rewrite split_leading by exact Hws.
  rewrite Hs' at 2. unfold split. now rewrite split_from_trailing.
Qed.

Lemma split_map_space (f : ascii -> ascii) (cur s : str) :
  (forall c, is_space c = true -> is_space (f c) = true) ->
  (forall c, is_space c = false -> f c = c) ->
  split_from cur (map f s) = split_from cur s.
Proof.
  intros Hsp Hid. revert cur. induction s as [|c s IH]; intros cur; [reflexivity|].
  cbn [map split_from]. destruct (is_space c) eqn:Hc.
  - now rewrite (Hsp c Hc), IH.
  - now rewrite (Hid c Hc), Hc, IH.
Qed.

Lemma split_replace_space (old : ascii) (s : str) :
  is_space old = true -> split (replace_char old blank s) = split s.
Proof.
  intros Hold. apply split_map_space; intros c Hc.
  - destruct (Ascii.eqb c old); [reflexivity | exact Hc].
  - destruct (Ascii.eqb c old) eqn:E; [|reflexivity].
    apply Ascii.eqb_eq in E. subst. congruence.
Qed.

End Words.

(* ===================================================================== *)
(** * Document loading: extraction, sentences, translation, setup *)
(* ===================================================================== *)

Section Extraction.
Import PyStr NewsReadingSystem.

Lemma split_clean_page (p : str) : split (clean_page p) = split p.
Proof.
  unfold clean_page. rewrite split_normalised.
  rewrite !split_replace_space by reflexivity. reflexivity.
Qed.

Lemma fold_left_pages (g : str -> str) (pages : list str) (acc : str) :
  fold_left (fun text p => if truthy p then text ++ g p else text) pages acc
  = acc ++ List.concat (map (fun p => if truthy p then g p else []) pages).
Proof.
  revert acc. induction pages as [|p pages IH]; intros acc; cbn [fold_left map List.concat].
  - now rewrite app_nil_r.
  - rewrite IH. destruct (truthy p); [now rewrite <- app_assoc | reflexivity].
Qed.

Lemma extract_text_parts (pages : list str) :
  extract_text pages = strip (List.concat (map page_part pages)).
Proof.
  unfold extract_text.
  rewrite (fold_left_pages (fun p => clean_page p ++ space)). reflexivity.
Qed.

Lemma split_page_parts (pages : list str) :
  split (List.concat (map page_part pages)) = flat_map split pages.
Proof.
  induction pages as [|p pages IH]; [reflexivity|].
  cbn [map List.concat flat_map]. rewrite <- IH. unfold page_part at 1.
  destruct p as [|c p]; [reflexivity|]. cbn [truthy].
  rewrite <- app_assoc. unfold split.
  change (space ++ ?x) with (blank :: x).
  rewrite split_from_across by reflexivity.
  fold (split (clean_page (c :: p))). now rewrite split_clean_page.
Qed.

Lemma join_app (a b : list str) :
  a <> [] -> b <> [] ->
  join space (a ++ b) = join space a ++ space ++ join space b.
Proof.
  intros Ha Hb. induction a as [|x a IH]; [contradiction|].
  destruct a as [|y a].
  - cbn [app]. destruct b; [contradiction | reflexivity].
  - change (join space ((x :: y :: a) ++ b))
      with (x ++ space ++ join space ((y :: a) ++ b)).
    rewrite IH by discriminate. cbn [join]. now rewrite <- !app_assoc.
Qed.

Lemma word_trimmed (w : str) : is_word w -> trimmed w /\ w <> [].
Proof.
  intros [Hne Hw]. split; [|exact Hne]. split.
  - destruct w as [|c w]; [reflexivity|]. inversion Hw; subst.
    cbn [lstrip]. now rewrite H1.
  - apply lstrip_fixed. destruct (rev w) as [|c r] eqn:E; [exact I|].
    rewrite Forall_forall in Hw. apply Hw. apply in_rev. rewrite E. now left.
Qed.

Lemma join_words_trimmed (ws : list str) :
  Forall is_word ws -> ws <> [] ->
  trimmed (join space ws) /\ join space ws <> [].
Proof.
  induction ws as [|w ws IH]; intros H Hne; [contradiction|].
  inversion H as [|? ? Hw Hws]; subst.
  destruct ws as [|w' ws].
  - now apply word_trimmed.
  - destruct (word_trimmed Hw) as [Ht Hn].
    destruct (IH Hws ltac:(discriminate)) as [Ht' Hn'].
    change (join space (w :: w' :: ws)) with (w ++ space ++ join space (w' :: ws)).
    split; [now apply trimmed_joined|].
    destruct w; [contradiction | discriminate].
Qed.

Lemma strip_trailing_space (x : str) :
  trimmed x -> x <> [] -> strip (x ++ space) = x.
Proof.
  intros [Hl Hr] Hne. unfold strip, rstrip.
  rewrite lstrip_nonempty_app by assumption.
  rewrite rev_app_distr. cbn [space rev app lstrip].
  change (is_space (ascii_of_nat 32)) with true. cbv iota.
  rewrite Hr. apply rev_involutive.
Qed.

Lemma page_parts_joined (pages : list str) :
  Forall (fun p => p = [] \/ split p <> []) pages ->
  List.concat (map page_part pages)
  = match flat_map split pages with
    | [] => []
    | ws => join space ws ++ space
    end.
Proof.
  induction 1 as [|p pages Hp _ IH]; [reflexivity|].
  cbn [map List.concat flat_map]. rewrite IH. clear IH.
  destruct Hp as [-> | Hp]; [reflexivity|].
  unfold page_part. destruct p as [|c p]; [now elim Hp|]. cbn [truthy].
  unfold clean_page. rewrite !split_replace_space by reflexivity.
  destruct (split (c :: p)) as [|w ws] eqn:E; [now elim Hp|].
  destruct (flat_map split pages) as [|v vs] eqn:F.
  - now rewrite !app_nil_r.
  - change (match (w :: ws) ++ v :: vs with
            | [] => []
            | s :: l => join space (s :: l) ++ space
            end) with (join space ((w :: ws) ++ v :: vs) ++ space).
    rewrite join_app by discriminate. now rewrite <- !app_assoc.
Qed.

(** X1: the text [extract_text_from_pdf] builds from the page texts holds
    exactly the words of the pages, in page order, and has no whitespace at
    either end; when no page consists of whitespace only it is these words
    joined by single spaces. *)
Theorem extract_text_words (pages : list str) :
  split (extract_text pages) = flat_map split pages
  /\ trimmed (extract_text pages)
  /\ (Forall (fun p => p = [] \/ split p <> []) pages ->
      extract_text pages = join space (flat_map split pages)).
Proof.
  rewrite extract_text_parts. split; [|split].
  - rewrite split_strip. apply split_page_parts.
  - apply trimmed_strip.
  - intros H. rewrite (page_parts_joined H).
    pose proof (split_page_parts pages) as Hw.
    assert (Hall : Forall is_word (flat_map split pages)).
    { rewrite <- Hw. apply split_words. }
    destruct (flat_map split pages) as [|w ws]; [reflexivity|].
    destruct (join_words_trimmed Hall ltac:(discriminate)) as [Ht Hn].
    now apply strip_trailing_space.
Qed.

Lemma ends_sentence_cons (x : ascii) (w : str) :
  w <> [] -> ends_sentence (x :: w) = ends_sentence w.
Proof.
  intros Hw. unfold ends_sentence. cbn [rev].
  destruct (rev w) as [|c r] eqn:E; [|reflexivity].
  apply (f_equal (@rev ascii)) in E. rewrite rev_involutive in E. contradiction.
Qed.

Lemma sentence_split_word (w : str) :
  Forall (fun c => is_space c = false) w -> w <> [] ->
  forall (prev skipping : bool) (cur tail : str),
    sentence_split_from prev skipping cur (w ++ tail)
    = sentence_split_from (ends_sentence w) false (cur ++ w) tail.
Proof.
  induction w as [|x w IH]; intros Hw Hne prev skipping cur tail;
    [contradiction|].
  inversion Hw as [|? ? Hx Hw']; subst.
  cbn [app sentence_split_from]. rewrite Hx.
  destruct w as [|y w].
  - reflexivity.
  - rewrite IH by (auto; discriminate).
    rewrite (@ends_sentence_cons x (y :: w)) by discriminate.
    now rewrite <- app_assoc.
Qed.

Lemma sentence_split_runs (ws : list str) :
  Forall is_word ws -> ws <> [] ->
  forall (prev skipping : bool) (cur : list str) (gathered : str),
    (forall w, gathered ++ w = join space (cur ++ [w])) ->
    sentence_split_from prev skipping gathered (join space ws)
    = map (join space) (sentence_runs cur ws).
Proof.
  induction ws as [|w ws IH]; intros Hws Hne prev skipping cur gathered Hg;
    [contradiction|].
  inversion Hws as [|? ? [Hwn Hw] Hws']; subst.
  assert (Hrun : cur ++ [w] <> []) by (destruct cur; discriminate).
  destruct ws as [|w' ws].
  - cbn [join sentence_runs].
    rewrite <- (app_nil_r w) at 1. rewrite sentence_split_word by assumption.
    cbn [sentence_split_from]. rewrite Hg.
    destruct (ends_sentence w); [reflexivity|].
    cbn [sentence_runs].
    destruct (cur ++ [w]) eqn:E; [contradiction|].
    cbn [map]. rewrite <- E. reflexivity.
  - change (join space (w :: w' :: ws)) with (w ++ space ++ join space (w' :: ws)).
    rewrite sentence_split_word by assumption.
    cbn [space app sentence_split_from].
    change (is_space (ascii_of_nat 32)) with true. cbv iota.
    cbn [sentence_runs].
    destruct (ends_sentence w).
    + cbn [map]. rewrite Hg. f_equal.
      apply (IH Hws' ltac:(discriminate) false true [] []). reflexivity.
    + apply (IH Hws' ltac:(discriminate) false false (cur ++ [w])).
      intros w2. rewrite join_snoc by exact Hrun. rewrite <- Hg.
      now rewrite <- app_assoc.
Qed.

Lemma sentence_runs_concat (ws cur : list str) :
  List.concat (sentence_runs cur ws) = cur ++ ws.
Proof.
  revert cur. induction ws as [|w ws IH]; intros cur; cbn [sentence_runs].
  - destruct cur; cbn; now rewrite ?app_nil_r.
  - destruct (ends_sentence w); cbn [List.concat]; rewrite IH;
      now rewrite <- app_assoc.
Qed.

Lemma sentence_runs_words (ws cur : list str) :
  Forall is_word cur -> Forall is_word ws ->
  Forall (fun run => run <> [] /\ Forall is_word run) (sentence_runs cur ws).
Proof.
  revert cur. induction ws as [|w ws IH]; intros cur Hcur Hws; cbn [sentence_runs].
  - destruct cur as [|c0 cur]; [constructor|].
    constructor; [|constructor]. split; [discriminate | exact Hcur].
  - inversion Hws as [|? ? Hw Hws']; subst.
    assert (Hrun : Forall is_word (cur ++ [w])).
    { apply Forall_app. split; [exact Hcur | constructor; [exact Hw | constructor]]. }
    destruct (ends_sentence w).
    + constructor; [|apply IH; [constructor | exact Hws']].
      split; [destruct cur; discriminate | exact Hrun].
    + apply IH; assumption.
Qed.

Lemma Forall_removelast {A} (P : A -> Prop) (l : list A) :
  Forall P l -> Forall P (removelast l).
Proof.
  induction 1 as [|x l Hx Hl IH]; [constructor|].
  cbn [removelast]. destruct l; [constructor | now constructor].
Qed.

Lemma sentence_runs_inside (ws cur : list str) :
  Forall (fun w => ends_sentence w = false) cur ->
  Forall (fun run => Forall (fun w => ends_sentence w = false) (removelast run))
         (sentence_runs cur ws).
Proof.
  revert cur. induction ws as [|w ws IH]; intros cur Hcur; cbn [sentence_runs].
  - destruct cur; repeat constructor. now apply Forall_removelast.
  - destruct (ends_sentence w) eqn:Ew.
    + constructor; [|apply IH; constructor].
      now rewrite removelast_last.
    + apply IH. apply Forall_app. split; [exact Hcur | repeat constructor; exact Ew].
Qed.

Lemma sentence_runs_closed (ws cur : list str) :
  Forall (fun run => ends_sentence (last run []) = true)
         (removelast (sentence_runs cur ws)).
Proof.
  revert cur. induction ws as [|w ws IH]; intros cur; cbn [sentence_runs].
  - destruct cur; constructor.
  - destruct (ends_sentence w) eqn:Ew; [|apply IH].
    cbn [removelast]. specialize (IH []).
    destruct (sentence_runs [] ws); [constructor|].
    constructor; [|exact IH]. now rewrite last_last.
Qed.

Lemma filter_map_swap {A B} (f : A -> B) (p : B -> bool) (l : list A) :
  filter p (map f l) = map f (filter (fun x => p (f x)) l).
Proof.
  induction l as [|x l IH]; [reflexivity|].
  cbn [map filter]. destruct (p (f x)); cbn [map]; now rewrite IH.
Qed.

(** X2: [split_into_sentences] gathers the words of the text in runs, a run
    ending with each word whose last code point is [.], [!] or [?] (and the
    last run with the text): the runs hold the words of the text in order,
    none is empty, inside a run no word but its last closes a sentence, and
    every run but the last is closed by one. The sentences are, in that
    order, the runs of five words or more, each joined by single spaces;
    shorter runs are left out of the reading. *)
Theorem split_into_sentences_fragments (text : str) :
  exists runs : list (list str),
    List.concat runs = split text
    /\ Forall (fun run => run <> []) runs
    /\ Forall (fun run =>
                 Forall (fun w => ends_sentence w = false) (removelast run))
              runs
    /\ Forall (fun run => ends_sentence (last run []) = true) (removelast runs)
    /\ split_into_sentences text
       = map (join space) (filter (fun run => 5 <=? List.length run) runs).
Proof.
  exists (sentence_runs [] (split text)).
  pose proof (split_words text) as Hwords.
  pose proof (@sentence_runs_words (split text) [] (Forall_nil _) Hwords) as Hruns.
  split; [apply sentence_runs_concat|]. split.
  { eapply Forall_impl; [|exact Hruns]. now intros run [H _]. }
  split; [apply sentence_runs_inside; constructor|].
  split; [apply sentence_runs_closed|].
  unfold split_into_sentences.
  assert (Hcase : split text = [] \/ split text <> [])
    by (destruct (split text); [now left | right; discriminate]).
  destruct Hcase as [E|E]; [rewrite E; reflexivity|].
  rewrite (@sentence_split_runs (split text) Hwords E false false [] [])
    by reflexivity.
  rewrite Forall_forall in Hruns.
  assert (Hstrip : map strip (map (join space) (sentence_runs [] (split text)))
                   = map (join space) (sentence_runs [] (split text))).
  { rewrite map_map. apply map_ext_in. intros run Hin.
    destruct (Hruns run Hin) as [Hne Hw].
    destruct (join_words_trimmed Hw Hne) as [Ht Hn].
    exact (strip_trimmed Ht). }
  rewrite Hstrip, filter_map_swap. f_equal.
  apply filter_ext_in. intros run Hin.
  destruct (Hruns run Hin) as [Hne Hw].
  destruct (join_words_trimmed Hw Hne) as [Ht Hn].
  unfold word_count. rewrite (split_join Hw).
  destruct (join space run); [contradiction | reflexivity].
Qed.

End Extraction.

Section Loading.
Import PyStr NewsReadingSystem.

Lemma dict_get_missing (d : list (str * str)) (key default : str) :
  ~ In key (map fst d) -> dict_get d key default = default.
Proof.
  induction d as [|[k v] d IH]; intros H; [reflexivity|].
  cbn [dict_get]. destruct (str_eqb k key) eqn:E.
  - apply str_eqb_eq in E. elim H. now left.
  - apply IH. intros Hin. apply H. now right.
Qed.

(** X3: [translate_text] returns the text itself, without a call, for the
    target ['english'] and when there is no model; a target that is neither
    ['english'] nor a key of [lang_names] (the comparison is case-sensitive)
    is translated as Hindi; and when the generation call raises, the
    original text comes back. *)
Theorem translate_text_fallbacks (self : t) (text target_language : str) :
  translate_text self text (py "english") = (text, [])
  /\ (model self = None -> translate_text self text target_language = (text, []))
  /\ (target_language <> py "english" ->
      ~ In target_language (map fst lang_names) ->
      translate_text self text target_language
      = translate_text self text (py "hindi"))
  /\ (target_language <> py "english" ->
      forall generate error_msg,
        model self = Some generate ->
        generate (translation_prompt
                    (dict_get lang_names target_language (py "Hindi")) text)
        = GenRaises error_msg ->
        fst (translate_text self text target_language) = text).
Proof.
  split; [reflexivity|]. split; [|split].
  - intros Hm. unfold translate_text. rewrite Hm.
    now destruct (str_eqb target_language (py "english")).
  - intros Hne Hnot. unfold translate_text.
    destruct (str_eqb target_language (py "english")) eqn:E.
    + apply str_eqb_eq in E. contradiction.
    + rewrite dict_get_missing by exact Hnot. reflexivity.
  - intros Hne generate error_msg Hm Hg. unfold translate_text.
    destruct (str_eqb target_language (py "english")) eqn:E.
    + reflexivity.
    + rewrite Hm, Hg. reflexivity.
Qed.

(** X4: an instance that [setup] completes starts at position 0, holds the
    model, takes its chunks from the untranslated text of the PDF and its
    vector store from those chunks, and has only non-empty sentences of five
    words or more; in English, and in any language when the translation
    call raises, the sentences are those of the untranslated text. *)
Theorem setup_document (o : Outside) (language : str) (ns : t) :
  setup o language = Some ns ->
  exists pages generate,
    pdf_pages o = Some pages /\ api_key o = true
    /\ generative_model o = Some generate
    /\ NewsReadingSystem.language ns = language
    /\ current_position ns = 0
    /\ model ns = Some generate
    /\ chunks ns = text_splitter o (extract_text pages)
    /\ vector_store ns = faiss_store o (chunks ns)
    /\ Forall (fun s => s <> [] /\ 5 <= word_count s) (sentences ns)
    /\ (language = py "english" ->
        sentences ns = split_into_sentences (extract_text pages))
    /\ (forall error_msg,
          generate (translation_prompt
                      (dict_get lang_names language (py "Hindi"))
                      (extract_text pages))
          = GenRaises error_msg ->
          sentences ns = split_into_sentences (extract_text pages)).
Proof.
  unfold setup. intros H.
  destruct (pdf_pages o) as [pages|]; [|discriminate].
  destruct (api_key o); [|discriminate].
  destruct (generative_model o) as [generate|]; [|discriminate].
  cbn [negb] in H.
  apply (f_equal (fun x => match x with Some v => v | None => ns end)) in H.
  cbv beta iota in H. subst ns.
  exists pages, generate. cbn [NewsReadingSystem.language current_position model
    chunks vector_store sentences].
  repeat (split; [reflexivity|]). split; [|split].
  - eapply Forall_impl; [|apply split_into_sentences_truthy].
    intros s [Ht Hw]. split; [now apply truthy_nonempty | exact Hw].
  - intros ->. reflexivity.
  - intros error_msg Hg.
    destruct (str_eqb language (py "english")) eqn:E; [reflexivity|].
    cbn [negb]. unfold translate_text. rewrite E.
    cbn [model]. rewrite Hg. reflexivity.
Qed.

End Loading.

(* ===================================================================== *)
(** * The position tracker: remaining text, progress, reset *)
(* ===================================================================== *)

Section Tracker.
Import PyStr NewsReadingSystem.

Lemma set_current_position_same (self : t) :
  set_current_position self (current_position self) = self.
Proof. now destruct self. Qed.

Lemma after_calls_record (k : nat) (self : t) :
  current_position self = 0 ->
  after_calls k self
  = set_current_position self (Nat.min k (List.length (sentences self))).
Proof.
  intros H0. induction k as [|k IH].
  - cbn [after_calls Nat.min]. rewrite <- H0. symmetry. apply set_current_position_same.
  - cbn [after_calls]. rewrite IH. unfold get_next_sentence.
    cbn [set_current_position current_position sentences].
    destruct (Nat.ltb_spec (Nat.min k (List.length (sentences self)))
                (List.length (sentences self))) as [Hlt|Hge]; cbn [snd].
    + unfold set_current_position. cbn [language sentences chunks model vector_store].
      f_equal. lia.
    + f_equal. lia.
Qed.

Lemma join_skipn_all (l : list str) (k : nat) :
  List.length l <= k -> join space (skipn k l) = [].
Proof. intros H. now rewrite skipn_all2. Qed.

(** X5: on an instance at position 0, [k] calls of [get_next_sentence]
    change nothing but the position, which becomes [min k n];
    [get_remaining_text] is then the sentences from the [k]-th on joined by
    single spaces, the empty string once [k] reaches [n], and for [0 < k < n]
    the sentences read, a space and the remaining text make up the whole
    document; [get_progress] reports [min k n] of [n]; and [reset_position]
    gives back the instance as it was. *)
Theorem tracker_accounting (self : t) (k : nat) :
  current_position self = 0 ->
  let n := List.length (sentences self) in
  after_calls k self = set_current_position self (Nat.min k n)
  /\ get_remaining_text (after_calls k self)
     = join space (skipn k (sentences self))
  /\ (n <= k -> get_remaining_text (after_calls k self) = [])
  /\ (0 < k < n ->
      join space (firstn k (sentences self)) ++ space
        ++ get_remaining_text (after_calls k self)
      = join space (sentences self))
  /\ (0 < n -> get_progress (after_calls k self) = ProgressPercent (Nat.min k n) n)
  /\ reset_position (after_calls k self) = self.
Proof.
  intros H0 n.
  assert (Hrem : get_remaining_text (after_calls k self)
                 = join space (skipn k (sentences self))).
  { rewrite after_calls_record by exact H0. unfold get_remaining_text.
    cbn [set_current_position current_position sentences]. fold n.
    destruct (Nat.ltb_spec (Nat.min k n) n) as [Hlt|Hge].
    - now replace (Nat.min k n) with k by lia.
    - symmetry. apply join_skipn_all. fold n. lia. }
  split; [now apply after_calls_record|]. split; [exact Hrem|].
  split; [|split; [|split]].
  - intros Hk. rewrite Hrem. now apply join_skipn_all.
  - intros Hk. rewrite Hrem.
    rewrite <- (firstn_skipn k (sentences self)) at 3.
    symmetry. apply join_app.
    + intros E. apply (f_equal (@List.length str)) in E.
      rewrite length_firstn in E. cbn in E. fold n in E. lia.
    + intros E. apply (f_equal (@List.length str)) in E.
      rewrite length_skipn in E. cbn in E. fold n in E. lia.
  - intros Hn. rewrite after_calls_record by exact H0. unfold get_progress.
    cbn [set_current_position current_position sentences]. fold n.
    destruct (Nat.ltb_spec 0 n); [reflexivity | lia].
  - rewrite after_calls_record by exact H0. unfold reset_position.
    destruct self. cbn in *. now subst.
Qed.

Lemma lower_char_idempotent (c : ascii) : lower_char (lower_char c) = lower_char c.
Proof. destruct c as [[] [] [] [] [] [] [] []]; reflexivity. Qed.

Lemma lower_idempotent (s : str) : lower (lower s) = lower s.
Proof.
  unfold lower. rewrite map_map. apply map_ext, lower_char_idempotent.
Qed.

(** X6: [get_news_intro] looks the language up in lower case: each of the
    five languages gets its own introduction whatever the letter case, any
    other language gets the English one; and without a loaded document the
    module-level function answers its fixed greeting for every language. *)
Theorem get_news_intro_languages (language : str) :
  (forall k v, In (k, v) intros -> lower language = k ->
               get_news_intro language = v)
  /\ (~ In (lower language) (map fst intros) ->
      get_news_intro language = intro_english)
  /\ get_news_intro (lower language) = get_news_intro language
  /\ (forall st, rag_system.news_system st = None ->
        rag_system.get_news_intro language st = py "Hello! Welcome to the news.").
Proof.
  split; [|split; [|split]].
  - intros k v Hin Hk. unfold get_news_intro. rewrite Hk.
    cbn in Hin.
    repeat (destruct Hin as [Hin|Hin];
            [injection Hin as <- <-; reflexivity|]).
    contradiction.
  - intros H. now apply dict_get_missing.
  - unfold get_news_intro. now rewrite lower_idempotent.
  - intros st H. unfold rag_system.get_news_intro. now rewrite H.
Qed.

End Tracker.

(* ===================================================================== *)
(** * Retrieval: what the keyword search returns, and the prompt *)
(* ===================================================================== *)

Section Retrieval.
Import PyStr NewsReadingSystem.

Lemma chunk_score_zero (words : list str) (chunk : str) :
  (forall w, In w words -> contains w (lower chunk) = false) ->
  chunk_score words chunk = 0.
Proof.
  intros H. rewrite chunk_score_sum.
  induction words as [|w words IH]; [reflexivity|].
  cbn [map list_sum fold_right]. rewrite word_score_values.
  rewrite (H w) by now left.
  cbn. apply IH. intros w' Hw'. apply H. now right.
Qed.

Lemma scored_chunks_none (question : str) (cs : list str) :
  (forall c, In c cs -> chunk_score (question_words question) c = 0) ->
  scored_chunks question cs = [].
Proof.
  intros H. unfold scored_chunks.
  induction cs as [|c cs IH]; [reflexivity|].
  cbn [map filter fst]. rewrite (H c) by now left. cbn [Nat.ltb Nat.leb].
  apply IH. intros c' Hc'. apply H. now right.
Qed.

(** X7: when no word of the question that is not a stop word occurs in any
    chunk (lower case on both sides), in particular when the question is
    blank or made of stop words only, the keyword search returns the first
    [top_k] chunks in document order. *)
Theorem keyword_search_no_match (question : str) (cs : list str) (top_k : nat) :
  (forall w c, In w (split (lower question)) -> ~ In w stop_words ->
               In c cs -> contains w (lower c) = false) ->
  keyword_search question cs top_k = firstn top_k cs.
Proof.
  intros H. apply keyword_search_nothing_scores, scored_chunks_none.
  intros c Hc. apply chunk_score_zero. intros w Hw.
  apply question_words_spec in Hw. destruct Hw as [Hin Hstop]. now apply H.
Qed.

Lemma keyword_search_no_match_witness :
  keyword_search (py "What is the") [py "what a day"; py "the end"] 1
  = firstn 1 [py "what a day"; py "the end"].
Proof.
  apply keyword_search_no_match.
  intros w c Hw Hs Hc. cbn in Hw.
  repeat (destruct Hw as [Hw|Hw];
          [subst w; exfalso; apply Hs; apply mem_In; vm_compute; reflexivity|]).
  contradiction.
Defined.

Lemma filter_filter_pos (m : nat) (l : list (nat * str)) :
  0 < m ->
  filter (fun x => fst x =? m) (filter (fun sc => 0 <? fst sc) l)
  = filter (fun x => fst x =? m) l.
Proof.
  intros Hm. induction l as [|x l IH]; [reflexivity|].
  cbn [filter]. destruct (Nat.ltb_spec 0 (fst x)) as [Hp|Hz]; cbn [filter].
  - now rewrite IH.
  - rewrite IH. destruct (Nat.eqb_spec (fst x) m); [lia | reflexivity].
Qed.

Lemma filter_map_score (f : str -> nat) (m : nat) (cs : list str) :
  filter (fun x => fst x =? m) (map (fun c => (f c, c)) cs)
  = map (fun c => (f c, c)) (filter (fun c => f c =? m) cs).
Proof.
  induction cs as [|c cs IH]; [reflexivity|].
  cbn [map filter fst]. destruct (f c =? m); cbn [map]; now rewrite IH.
Qed.

Lemma sorted_head (h : nat * str) (t : list (nat * str)) (x : nat * str) :
  StronglySorted (fun a b => fst b <= fst a) (h :: t) ->
  In x (h :: t) -> fst x <= fst h.
Proof.
  intros Hs [<- | Hin]; [lia|].
  inversion Hs as [|? ? _ Hall]; subst.
  rewrite Forall_forall in Hall. now apply Hall.
Qed.

Lemma scored_chunks_In (question : str) (cs : list str) (x : nat * str) :
  In x (scored_chunks question cs)
  <-> In (snd x) cs /\ fst x = chunk_score (question_words question) (snd x)
      /\ 0 < fst x.
Proof.
  unfold scored_chunks. rewrite filter_In, in_map_iff. split.
  - intros [[c [<- Hc]] Hp]. cbn [fst snd] in *.
    apply Nat.ltb_lt in Hp. auto.
  - intros [Hc [Hf Hp]]. split.
    + exists (snd x). split; [|exact Hc]. destruct x; cbn in *. now subst.
    + now apply Nat.ltb_lt.
Qed.

Lemma best_score_bound (words : list str) (cs : list str) (c : str) :
  In c cs -> chunk_score words c <= best_score words cs.
Proof.
  intros Hc. unfold best_score.
  assert (H : Forall (fun k => k <= list_max (map (chunk_score words) cs))
                     (map (chunk_score words) cs)).
  { apply list_max_le. lia. }
  rewrite Forall_forall in H. apply H. now apply in_map.
Qed.

Lemma filter_all {A} (p : A -> bool) (l : list A) :
  (forall x, In x l -> p x = true) -> filter p l = l.
Proof.
  induction l as [|x l IH]; intros H; [reflexivity|].
  cbn [filter]. rewrite (H x) by now left.
  f_equal. apply IH. intros y Hy. apply H. now right.
Qed.

(** X8: the first chunk the keyword search returns is the earliest chunk
    with the highest score of all chunks; no chunk of the document scores
    higher than it. *)
Theorem keyword_search_first_is_best (question : str) (cs : list str)
  (top_k : nat) :
  let words := question_words question in
  hd_error (keyword_search question cs (S top_k))
  = hd_error (filter (fun c => chunk_score words c =? best_score words cs) cs)
  /\ forall c c', hd_error (keyword_search question cs (S top_k)) = Some c ->
       In c' cs -> chunk_score words c' <= chunk_score words c.
Proof.
  intros words.
  assert (Hmain :
    hd_error (keyword_search question cs (S top_k))
    = hd_error (filter (fun c => chunk_score words c =? best_score words cs) cs)).
  { destruct (sort_desc_stable (scored_chunks question cs)) as [Hperm [Hsorted Hstable]].
    destruct (sort_desc (scored_chunks question cs)) as [|h t] eqn:Es.
    - apply Permutation_sym, Permutation_nil in Hperm.
      rewrite (keyword_search_nothing_scores _ _ _ Hperm).
      assert (Hz : forall c, In c cs -> chunk_score words c = 0).
      { intros c Hc. destruct (chunk_score words c) as [|k] eqn:E; [reflexivity|].
        assert (Hin : In (S k, c) (scored_chunks question cs)).
        { apply scored_chunks_In. cbn [fst snd]. fold words. repeat split; auto; lia. }
        rewrite Hperm in Hin. contradiction. }
      assert (Hb : best_score words cs = 0).
      { unfold best_score. apply Nat.le_0_r. apply list_max_le.
        apply Forall_forall. intros k Hk. apply in_map_iff in Hk.
        destruct Hk as [c [<- Hc]]. rewrite (Hz c Hc). lia. }
      rewrite Hb, filter_all.
      + now destruct cs.
      + intros c Hc. rewrite (Hz c Hc). reflexivity.
    - assert (Hh : In h (scored_chunks question cs)).
      { eapply Permutation_in; [apply Permutation_sym, Hperm | now left]. }
      apply scored_chunks_In in Hh. fold words in Hh. destruct Hh as [Hhc [Hhf Hhp]].
      assert (Hb : best_score words cs = fst h).
      { apply Nat.le_antisymm.
        - unfold best_score. apply list_max_le. apply Forall_forall.
          intros k Hk. apply in_map_iff in Hk. destruct Hk as [c [<- Hc]].
          destruct (chunk_score words c) as [|k] eqn:E; [lia|].
          rewrite <- E. 
          assert (Hin : In (chunk_score words c, c) (h :: t)).
          { eapply Permutation_in; [apply Hperm|].
            apply scored_chunks_In. cbn [fst snd]. fold words. repeat split; auto; lia. }
          apply (sorted_head Hsorted Hin).
        - rewrite Hhf. now apply best_score_bound. }
      unfold keyword_search. rewrite Es. cbn [firstn map hd_error].
      specialize (Hstable (fst h)). cbn [filter] in Hstable.
      rewrite Nat.eqb_refl in Hstable.
      unfold scored_chunks in Hstable. fold words in Hstable.
      rewrite filter_filter_pos, filter_map_score in Hstable by exact Hhp.
      rewrite Hb.
      destruct (filter (fun c => chunk_score words c =? fst h) cs) as [|c1 rest].
      + discriminate.
      + cbn [map] in Hstable. injection Hstable as Hh1 _. rewrite Hh1. reflexivity. }
  split; [exact Hmain|].
  intros c c' Hc Hc'. rewrite Hmain in Hc.
  destruct (filter (fun c0 => chunk_score words c0 =? best_score words cs) cs)
    as [|c1 rest] eqn:Ef; [discriminate|].
  cbn in Hc. injection Hc as ->.
  assert (Hin : In c (filter (fun c0 => chunk_score words c0 =? best_score words cs) cs)).
  { rewrite Ef. now left. }
  apply filter_In in Hin. destruct Hin as [_ Heq]. apply Nat.eqb_eq in Heq.
  rewrite Heq. now apply best_score_bound.
Qed.

Lemma sort_desc_incl (l : list (nat * str)) (x : nat * str) :
  In x (sort_desc l) -> In x l.
Proof.
  intros H. destruct (sort_desc_stable l) as [Hperm _].
  eapply Permutation_in; [apply Permutation_sym, Hperm | exact H].
Qed.

Lemma firstn_incl {A} (k : nat) (l : list A) : incl (firstn k l) l.
Proof.
  intros x Hx. rewrite <- (firstn_skipn k l). apply in_or_app. now left.
Qed.

Lemma keyword_search_bounds (question : str) (cs : list str) (top_k : nat) :
  List.length (keyword_search question cs top_k) <= top_k
  /\ incl (keyword_search question cs top_k) cs
  /\ (keyword_search question cs top_k = [] <-> cs = [] \/ top_k = 0).
Proof.
  unfold keyword_search.
  set (ranked := map snd (firstn top_k (sort_desc (scored_chunks question cs)))).
  assert (Hlen : List.length ranked <= top_k).
  { unfold ranked. rewrite length_map. apply firstn_le_length. }
  assert (Hincl : incl ranked cs).
  { intros c Hc. unfold ranked in Hc. apply in_map_iff in Hc.
    destruct Hc as [x [<- Hx]]. apply firstn_incl, sort_desc_incl in Hx.
    now apply scored_chunks_In in Hx. }
  assert (Hempty : cs = [] \/ top_k = 0 -> ranked = []).
  { intros [-> | ->]; unfold ranked; [now destruct top_k | reflexivity]. }
  destruct ranked as [|r ranked'] eqn:E.
  - split; [apply firstn_le_length|]. split; [apply firstn_incl|].
    split.
    + intros Hf. destruct cs; [now left|]. destruct top_k; [now right | discriminate].
    + intros [-> | ->]; [now destruct top_k | reflexivity].
  - split; [exact Hlen|]. split; [exact Hincl|]. split; [discriminate|].
    intros H. now apply Hempty in H.
Qed.

(** X9: without a vector store, or when the similarity search raises,
    [find_relevant_chunks] returns at most [top_k] chunks, each of them a
    chunk of the document, and returns none only when the document has no
    chunk or [top_k] is 0. *)
Theorem find_relevant_chunks_bounds (self : t) (question : str) (top_k : nat) :
  (vector_store self = None
   \/ exists store error_msg,
        vector_store self = Some store
        /\ store question top_k = SearchRaises error_msg) ->
  let found := fst (find_relevant_chunks self question top_k) in
  List.length found <= top_k
  /\ incl found (chunks self)
  /\ (found = [] <-> chunks self = [] \/ top_k = 0).
Proof.
  intros H found. subst found. unfold find_relevant_chunks.
  destruct H as [-> | [store [error_msg [-> ->]]]]; cbn [fst].
  - apply keyword_search_bounds.
  - split; [apply firstn_le_length|]. split; [apply firstn_incl|].
    split.
    + intros Hf. destruct (chunks self); [now left|].
      destruct top_k; [now right | discriminate].
    + intros [-> | ->]; [now destruct top_k | reflexivity].
Qed.

Lemma find_relevant_chunks_bounds_witness :
  let found := fst (find_relevant_chunks Scenarios.cat_system (py "cat") 1) in
  found = [py "a cat"]
  /\ List.length found <= 1
  /\ incl found (chunks Scenarios.cat_system)
  /\ (found = [] <-> chunks Scenarios.cat_system = [] \/ 1 = 0).
Proof.
  split; [reflexivity|].
  apply (@find_relevant_chunks_bounds Scenarios.cat_system (py "cat") 1).
  left. reflexivity.
Defined.

Lemma join_occurs (sep x : str) (l : list str) :
  In x l -> contains x (join sep l) = true.
Proof.
  intros H. apply contains_spec.
  induction l as [|y l IH]; [contradiction|].
  destruct l as [|z l].
  - destruct H as [-> | []]. exists [], []. cbn [join app]. now rewrite app_nil_r.
  - change (join sep (y :: z :: l)) with (y ++ sep ++ join sep (z :: l)).
    destruct H as [-> | H].
    + exists [], (sep ++ join sep (z :: l)). reflexivity.
    + destruct (IH H) as [pre [post E]]. rewrite E.
      exists (y ++ sep ++ pre), post. now rewrite <- !app_assoc.
Qed.

Lemma contains_suffix (a b : str) : contains b (a ++ b) = true.
Proof. apply contains_spec. exists a, []. now rewrite app_nil_r. Qed.

Lemma build_prompt_holds (context question : str) :
  contains context (build_prompt context question) = true
  /\ contains question (build_prompt context question) = true.
Proof.
  split.
  - apply join_occurs. cbn. auto.
  - apply contains_trans with (py "Viewer Question: " ++ question).
    + apply contains_suffix.
    + apply join_occurs. cbn. auto 10.
Qed.

Lemma generation_prompts_In (p : str) (made : list Call) :
  In (CallGenerate p) made <-> In p (generation_prompts made).
Proof.
  unfold generation_prompts. rewrite in_flat_map. split.
  - intros H. exists (CallGenerate p). split; [exact H | now left].
  - intros [c [Hc Hp]]. destruct c; cbn in Hp; try contradiction.
    destruct Hp as [-> | []]. exact Hc.
Qed.

(** X10: [ask_question] calls the generation service at most once; the
    prompt of that call contains the question and every chunk retrieved,
    and the call is made only when a chunk was retrieved. *)
Theorem ask_question_prompt (self : t) (question : str) :
  let found := fst (find_relevant_chunks self question 5) in
  List.length (generation_prompts (snd (ask_question self question))) <= 1
  /\ forall p, In (CallGenerate p) (snd (ask_question self question)) ->
       found <> []
       /\ contains question p = true
       /\ (forall c, In c found -> contains c p = true)
       /\ generation_prompts (snd (ask_question self question)) = [p].
Proof.
  intros found.
  destruct (model self) as [generate|] eqn:Hm.
  2:{ unfold ask_question. rewrite Hm. cbn. split; [lia | contradiction]. }
  destruct (chunks self) as [|c0 cs0] eqn:Hc.
  { unfold ask_question. rewrite Hm, Hc. cbn. split; [lia | contradiction]. }
  assert (Hne : chunks self <> []) by (rewrite Hc; discriminate).
  rewrite (ask_question_unfold self question Hm Hne). fold found.
  destruct (find_relevant_chunks_no_generation self question 5) as [Hg _].
  destruct found as [|c1 rest] eqn:Ef; cbn [snd].
  - rewrite Hg. cbn. split; [lia|]. intros p Hp.
    apply generation_prompts_In in Hp. rewrite Hg in Hp. contradiction.
  - rewrite generation_prompts_app, Hg. cbn [app generation_prompts flat_map List.length].
    split; [lia|]. intros p Hp.
    apply generation_prompts_In in Hp.
    rewrite generation_prompts_app, Hg in Hp. cbn in Hp.
    destruct Hp as [<- | []].
    destruct (build_prompt_holds (join (newline ++ newline) (c1 :: rest)) question)
      as [Hctx Hq].
    split; [discriminate|]. split; [exact Hq|]. split; [|reflexivity].
    intros c Hin. eapply contains_trans; [|exact Hctx]. now apply join_occurs.
Qed.

End Retrieval.

Section LazyLoading.
Import PyStr rag_system.

Lemma initialize_rag_ok (env : Env) (language : str) (st : State) ns :
  pdf_exists env = true -> construct env language = Some ns ->
  initialize_rag env language st
  = (true, mkState (Some ns) (calls st ++ [NewsReadingSystem.CallInitialize language])).
Proof. intros Hp Hc. unfold initialize_rag. now rewrite Hp, Hc. Qed.

Lemma initialize_rag_fails (env : Env) (language : str) (st : State) :
  pdf_exists env = false \/ construct env language = None ->
  initialize_rag env language st
  = (false, mkState (news_system st)
                    (calls st ++ [NewsReadingSystem.CallInitialize language])).
Proof.
  intros H. unfold initialize_rag.
  destruct (pdf_exists env); cbn [negb]; [|reflexivity].
  destruct H as [H | ->]; [discriminate | reflexivity].
Qed.

(** X11: when no document is loaded, [ask_pdf_question] enters
    [initialize_rag], in English. If the load succeeds the question and the
    next one are answered from that document and the next one does not load
    again; if it fails both questions get the unavailable message and each
    of them tries the load again. *)
Theorem ask_pdf_question_loads_once (env : Env) (q1 q2 : str) (st : State) :
  news_system st = None ->
  let st1 := snd (ask_pdf_question env q1 st) in
  let st2 := snd (ask_pdf_question env q2 st1) in
  (forall ns, pdf_exists env = true -> construct env english = Some ns ->
     news_system st1 = Some ns
     /\ fst (ask_pdf_question env q1 st)
        = fst (NewsReadingSystem.ask_question ns q1)
     /\ fst (ask_pdf_question env q2 st1)
        = fst (NewsReadingSystem.ask_question ns q2)
     /\ NewsReadingSystem.initializations (calls st2)
        = NewsReadingSystem.initializations (calls st) ++ [english])
  /\ (pdf_exists env = false \/ construct env english = None ->
      news_system st2 = None
      /\ fst (ask_pdf_question env q2 st1) = msg_unavailable
      /\ NewsReadingSystem.initializations (calls st2)
         = NewsReadingSystem.initializations (calls st) ++ [english; english]).
Proof.
  intros Hnone st1 st2. split.
  - intros ns Hp Hc.
    assert (E1 : ask_pdf_question env q1 st
                 = ask_loaded q1 (mkState (Some ns)
                     (calls st ++ [NewsReadingSystem.CallInitialize english]))).
    { unfold ask_pdf_question. rewrite Hnone.
      now rewrite (initialize_rag_ok env english st Hp Hc). }
    assert (E1' : ask_pdf_question env q1 st
                  = (fst (NewsReadingSystem.ask_question ns q1),
                     mkState (Some ns)
                       ((calls st ++ [NewsReadingSystem.CallInitialize english])
                        ++ snd (NewsReadingSystem.ask_question ns q1)))).
    { rewrite E1. unfold ask_loaded. cbn [news_system calls].
      now destruct (NewsReadingSystem.ask_question ns q1). }
    assert (Hst1 : news_system st1 = Some ns).
    { subst st1. now rewrite E1'. }
    split; [exact Hst1|]. split; [now rewrite E1'|].
    pose proof (ask_pdf_question_loaded env q2 st1 Hst1) as E2.
    split; [now rewrite E2|].
    subst st2. rewrite E2. cbn [snd calls]. subst st1. rewrite E1'. cbn [snd calls].
    rewrite !initializations_app, !ask_question_no_initialization.
    cbn. now rewrite !app_nil_r.
  - intros Hfail.
    assert (E : forall q s, news_system s = None ->
              ask_pdf_question env q s
              = (msg_unavailable,
                 mkState None (calls s ++ [NewsReadingSystem.CallInitialize english]))).
    { intros q s Hs. unfold ask_pdf_question. rewrite Hs.
      rewrite (initialize_rag_fails env english s Hfail). cbn [negb].
      now rewrite Hs. }
    subst st2 st1. rewrite (E q1 st Hnone). cbn [snd].
    rewrite (E q2) by reflexivity. cbn [snd fst news_system calls].
    repeat split.
    rewrite !initializations_app. cbn. now rewrite <- app_assoc.
Qed.

Lemma ask_pdf_question_loads_once_witness :
  NewsReadingSystem.initializations
    (calls (snd (ask_pdf_question
                   (mkEnv true (fun _ => Some Scenarios.one_chunk_system))
                   (py "second?")
                   (snd (ask_pdf_question
                           (mkEnv true (fun _ => Some Scenarios.one_chunk_system))
                           (py "first?") initial)))))
  = [english].
Proof.
  destruct (@ask_pdf_question_loads_once
              (mkEnv true (fun _ => Some Scenarios.one_chunk_system))
              (py "first?") (py "second?") initial eq_refl) as [H _].
  destruct (H Scenarios.one_chunk_system eq_refl eq_refl) as [_ [_ [_ H4]]].
  exact H4.
Defined.

End LazyLoading.

(* ===================================================================== *)
(** * Pacing: the shape of the pause chunks, the video loops *)
(* ===================================================================== *)

Section PauseShape.
Import PyStr lip_sync_manager.

Lemma unpunctuated_lstrip (s : str) : unpunctuated s -> unpunctuated (lstrip s).
Proof.
  induction 1 as [|c s Hc Hs IH]; [constructor|].
  cbn [lstrip]. destruct (is_space c); [exact IH | now constructor].
Qed.

Lemma unpunctuated_strip (s : str) : unpunctuated s -> unpunctuated (strip s).
Proof.
  intros H. unfold strip, rstrip, unpunctuated.
  apply Forall_rev. apply unpunctuated_lstrip. apply Forall_rev.
  now apply unpunctuated_lstrip.
Qed.

Lemma re_split_from_unpunctuated (in_run : bool) (cur s : str) :
  unpunctuated cur -> Forall unpunctuated (re_split_from in_run cur s).
Proof.
  revert in_run cur. induction s as [|c s IH]; intros in_run cur Hcur;
    cbn [re_split_from].
  - repeat constructor. exact Hcur.
  - destruct (is_terminator c) eqn:Hc.
    + destruct in_run; [now apply IH|].
      constructor; [exact Hcur | apply IH; constructor].
    + apply IH. apply Forall_app. split; [exact Hcur | repeat constructor; exact Hc].
Qed.

Lemma stripped_sentences_plain (text : str) :
  Forall plain (stripped_sentences text).
Proof.
  apply Forall_forall. intros s Hs.
  pose proof (stripped_sentences_loop text) as Hl.
  rewrite Forall_forall in Hl. destruct (Hl s Hs) as [Ht [Hne _]].
  split; [exact Ht|]. split; [exact Hne|].
  unfold stripped_sentences in Hs. apply in_map_iff in Hs.
  destruct Hs as [x [<- Hx]]. apply filter_In in Hx. destruct Hx as [Hx _].
  apply unpunctuated_strip.
  pose proof (@re_split_from_unpunctuated false [] text (Forall_nil _)) as Hall.
  rewrite Forall_forall in Hall. now apply Hall.
Qed.

Lemma pause_step_shape (done : list str) (st : list str * str) (s : str) :
  pause_shape done st -> plain s -> pause_shape (done ++ [s]) (pause_step st s).
Proof.
  destruct st as [chunks cur].
  intros [Hch [Ht [Hu [Hne Hlen]]]] [Hst [Hsn Hsu]].
  assert (Hd : done ++ [s] <> []) by (destruct done; discriminate).
  unfold pause_step.
  destruct s as [|a s]; [contradiction|].
  destruct cur as [|c cur]; cbn [truthy] in *.
  - assert (Hres : pause_shape (done ++ [a :: s]) (chunks, a :: s)).
    { unfold pause_shape. rewrite length_app. cbn [List.length truthy].
      repeat split; auto; try apply Hst. lia. }
    now destruct (15 <? word_count (a :: s)).
  - destruct (15 <? word_count ((c :: cur) ++ space ++ a :: s)).
    + unfold pause_shape. rewrite !length_app. cbn [List.length truthy].
      split.
      * apply Forall_app. split; [exact Hch|]. repeat constructor.
        -- apply trimmed_strip.
        -- apply trimmed_strip.
        -- rewrite strip_trimmed by exact Ht. discriminate.
        -- now apply unpunctuated_strip.
      * repeat split; auto; try apply Hst. lia.
    + unfold pause_shape. rewrite length_app. cbn [List.length].
      assert (Hj : trimmed ((c :: cur) ++ space ++ a :: s)).
      { apply trimmed_joined; auto. discriminate. }
      split; [exact Hch|]. split; [exact Hj|]. split.
      * apply Forall_app. split; [exact Hu|].
        apply Forall_app. split; [repeat constructor | exact Hsu].
      * split; [discriminate|]. cbn [app truthy]. lia.
Qed.

Lemma pause_loop_shape (rest done : list str) (st : list str * str) :
  pause_shape done st -> Forall plain rest ->
  pause_shape (done ++ rest) (pause_loop rest st).
Proof.
  revert done st. induction rest as [|s rest IH]; intros done st Hst Hall.
  - now rewrite app_nil_r.
  - inversion Hall as [|? ? Hs Hrest]; subst.
    cbn [pause_loop fold_left].
    replace (done ++ s :: rest) with ((done ++ [s]) ++ rest)
      by now rewrite <- app_assoc.
    apply IH; [now apply pause_step_shape | exact Hrest].
Qed.

(** X12: for a text with at least one sentence,
    [split_text_for_natural_pauses] returns no more chunks than the text has
    sentences, and every chunk is non-empty, stripped and free of the
    terminators [.], [!] and [?]. *)
Theorem natural_pauses_shape (text : str) :
  stripped_sentences text <> [] ->
  let chunks := split_text_for_natural_pauses text in
  List.length chunks <= List.length (stripped_sentences text)
  /\ Forall (fun c => trimmed c /\ c <> []
                      /\ Forall (fun ch => is_terminator ch = false) c) chunks.
Proof.
  intros Hne chunks. subst chunks.
  destruct (split_text_unfold text) as [_ Hun].
  destruct (Hun Hne) as [-> _].
  pose proof (@pause_loop_shape (stripped_sentences text) [] ([], [])) as Hsh.
  cbn [app] in Hsh.
  assert (H0 : pause_shape [] ([], [])).
  { unfold pause_shape. cbn. repeat split; auto; try constructor. }
  specialize (Hsh H0 (stripped_sentences_plain text)).
  destruct (pause_loop (stripped_sentences text) ([], [])) as [chunks cur].
  destruct Hsh as [Hch [Ht [Hu [Hn Hlen]]]]. cbn [fst snd].
  specialize (Hn Hne). destruct cur as [|c cur]; [contradiction|].
  cbn [truthy] in Hlen. split.
  - rewrite length_app. cbn [List.length]. lia.
  - apply Forall_app. split; [exact Hch|].
    constructor; [|constructor].
    split; [exact Ht|]. split; [discriminate | exact Hu].
Qed.

Lemma natural_pauses_shape_witness :
  let chunks := split_text_for_natural_pauses (py "Hello world. How are you?") in
  chunks = [py "Hello world How are you"]
  /\ List.length chunks
     <= List.length (stripped_sentences (py "Hello world. How are you?"))
  /\ Forall (fun c => trimmed c /\ c <> []
                      /\ Forall (fun ch => is_terminator ch = false) c) chunks.
Proof.
  split; [reflexivity|].
  apply (@natural_pauses_shape (py "Hello world. How are you?")).
  discriminate.
Defined.

End PauseShape.

Section VideoLoops.
Import PyStr PyFloat lip_sync_manager.
Local Open Scope Z_scope.

Lemma get_video_loops_by_words (text : str) :
  get_video_loops_needed text = loops_for_words (Z.of_nat (word_count text)).
Proof.
  unfold get_video_loops_needed, loops_for_words, estimate_speech_duration.
  now destruct (PyFloat.truediv_int (Z.of_nat (word_count text)) base_wpm).
Qed.

Lemma loops_for_words_total (words : Z) :
  0 <= words -> words < 2 ^ 1016 ->
  exists loops, loops_for_words words = Some loops /\ 1 <= loops.
Proof.
  intros H0 Hw.
  destruct (Z.eq_dec words 0) as [-> | Hnz].
  { exists 1. split; [vm_compute; reflexivity | lia]. }
  assert (Hpos : 0 < words) by lia.
  pose proof (@Zdigits2_le words 1016 Hpos Hw) as Hd.
  pose proof (@Zdigits2_pos words Hpos) as Hd1.
  destruct const_normal as [N140 [N60 N5]].
  destruct (@truediv_int_normal words base_wpm Hpos ltac:(reflexivity))
    as [q [Eq Nq]]; change (Zdigits2 base_wpm) with 8; try lia.
  change (Zdigits2 base_wpm) with 8 in Nq.
  pose proof (mul_normal Nq N60) as Ne.
  specialize (Ne ltac:(lia) ltac:(lia)).
  destruct (div_normal Ne N5) as [ratio [Er Nr]]; try lia.
  pose proof (@round_normal _ _ ratio Nr) as Hround.
  specialize (Hround ltac:(lia)). destruct Hround as [r [Err Hr]].
  exists (Z.max 1 r). split; [|lia].
  unfold loops_for_words. rewrite Eq. cbn [bind]. rewrite Er. cbn [bind].
  now rewrite Err.
Qed.

(** X13: [get_video_loops_needed] returns an integer of at least 1 for every
    text below [2^1016] words, 1 for texts of up to 17 words, and for texts
    of more than 5 words it is the number of loops from which
    [calculate_optimal_rate] derives its rate. *)
Theorem get_video_loops_needed_positive (text : str) :
  Z.of_nat (word_count text) < 2 ^ 1016 ->
  exists loops,
    get_video_loops_needed text = Some loops
    /\ 1 <= loops
    /\ ((word_count text <= 17)%nat -> loops = 1)
    /\ ((5 < word_count text)%nat ->
        calculate_optimal_rate text
        = bind (PyFloat.truediv (PyFloat.of_int (Z.of_nat (word_count text)))
                  (PyFloat.mul (PyFloat.of_int loops) talk_video_duration))
            (fun per_second =>
               PyFloat.int_of_num
                 (PyFloat.max_int_num min_wpm
                    (PyFloat.min_int_float max_wpm
                       (PyFloat.mul per_second (PyFloat.of_int 60)))))).
Proof.
  intros Hw.
  destruct (@loops_for_words_total (Z.of_nat (word_count text)) ltac:(lia) Hw)
    as [loops [El Hl]].
  exists loops. rewrite get_video_loops_by_words.
  split; [exact El|]. split; [exact Hl|]. split.
  - intros Hs.
    assert (Hn : forall n, (n <= 17)%nat -> loops_for_words (Z.of_nat n) = Some 1).
    { intros n Hn.
      do 18 (destruct n as [|n]; [vm_compute; reflexivity|]). lia. }
    rewrite (Hn _ Hs) in El. congruence.
  - intros H5. rewrite calculate_optimal_rate_by_words.
    unfold rate_for_words.
    destruct (Z.leb_spec (Z.of_nat (word_count text)) 5) as [Hle|_]; [lia|].
    unfold loops_for_words in El.
    destruct (PyFloat.truediv_int (Z.of_nat (word_count text)) base_wpm)
      as [q|]; [|discriminate].
    cbn [bind] in El |- *.
    destruct (PyFloat.truediv (PyFloat.mul q (PyFloat.of_int 60)) talk_video_duration)
      as [ratio|]; [|discriminate].
    cbn [bind] in El |- *.
    destruct (PyFloat.round ratio) as [r|]; [|discriminate].
    cbn [bind] in El |- *. injection El as <-. reflexivity.
Qed.

Lemma get_video_loops_needed_positive_witness :
  exists loops,
    get_video_loops_needed (py "one two three four five six seven") = Some loops
    /\ 1 <= loops.
Proof.
  destruct (@get_video_loops_needed_positive
              (py "one two three four five six seven"))
    as [loops [E [H _]]].
  - vm_compute. reflexivity.
  - exists loops. split; assumption.
Defined.

End VideoLoops.

(* ===================================================================== *)
(** * The handlers: questions and language *)
(* ===================================================================== *)

Section Questions.
Import PyStr working_voice.

Variable env : rag_system.Env.

Lemma lstrip_all_space (ws : str) : all_space ws -> lstrip ws = [].
Proof.
  induction 1 as [|c ws Hc _ IH]; [reflexivity|].
  cbn [lstrip]. now rewrite Hc.
Qed.

Lemma strip_all_space (ws : str) : all_space ws -> strip ws = [].
Proof. intros H. unfold strip. now rewrite lstrip_all_space. Qed.

Lemma strip_empty_all_space (s : str) : strip s = [] -> all_space s.
Proof.
  intros H.
  destruct (lstrip_decompose s) as [ws [Hws Hs]].
  destruct (rstrip_decompose (lstrip s)) as [ws' [Hws' Hs']].
  unfold strip in H. rewrite H in Hs'. cbn [app] in Hs'.
  rewrite Hs, Hs'. apply Forall_app. now split.
Qed.

Lemma user_question_emits (sid : SessionId) (data : option str) (w : World) :
  truthy (strip (data_get data [])) = true ->
  List.length (emitted (handle_user_question env sid data w))
  = List.length (emitted w) + 2.
Proof.
  intros Hq. unfold handle_user_question. rewrite Hq. cbn [negb].
  destruct (rag_system.ask_pdf_question env (strip (data_get data [])) (rag w))
    as [a r].
  destruct w as [rg lang rd pz cn [|] em sp];
    cbn -[NewsReadingSystem.dict_get continue_prompts py str_eqb];
    rewrite !length_app; cbn [List.length]; lia.
Qed.

(** X14: [handle_user_question] leaves the whole process state as it was,
    nothing emitted, nothing spoken, no call to the document, exactly when
    the question is missing from the payload or consists of whitespace
    only. *)
Theorem blank_question_is_ignored (sid : SessionId) (data : option str)
  (w : World) :
  (handle_user_question env sid data w = w
   <-> all_space (data_get data []))
  /\ handle_user_question env sid None w = w.
Proof.
  split; [|reflexivity]. split.
  - intros Heq. destruct (truthy (strip (data_get data []))) eqn:Hq.
    + pose proof (user_question_emits sid data w Hq) as Hlen.
      rewrite Heq in Hlen. lia.
    + apply strip_empty_all_space.
      destruct (strip (data_get data [])); [reflexivity | discriminate].
  - intros H. unfold handle_user_question. now rewrite (strip_all_space H).
Qed.

(** X15: for a question that is not blank, [handle_user_question] emits to
    the asking session the answer of [ask_pdf_question] to the stripped
    question and then the continue prompt, and nothing else; with a speech
    engine both texts are spoken in that order and [speech_cancelled] is
    cleared, without one nothing is spoken and the flag stays; the reading
    and pause flags and the language stay; the prompt is the English one for
    every language other than exactly ['english'], ['hindi'] and
    ['marathi']. *)
Theorem user_question_events (sid : SessionId) (data : option str) (w : World) :
  truthy (strip (data_get data [])) = true ->
  let question := strip (data_get data []) in
  let answer := fst (rag_system.ask_pdf_question env question (rag w)) in
  let prompt :=
    NewsReadingSystem.dict_get continue_prompts (current_language w)
      (py "Can we continue with the news?") in
  let w' := handle_user_question env sid data w in
  emitted w'
  = emitted w ++ [(sid, question_answer question answer);
                  (sid, ask_continue prompt)]
  /\ spoken w'
     = spoken w ++ (if news_anchor w then [(sid, answer); (sid, prompt)] else [])
  /\ rag w' = snd (rag_system.ask_pdf_question env question (rag w))
  /\ speech_cancelled w'
     = (if news_anchor w then false else speech_cancelled w)
  /\ is_reading_news w' = is_reading_news w
  /\ is_paused_for_question w' = is_paused_for_question w
  /\ current_language w' = current_language w
  /\ (~ In (current_language w) (map fst continue_prompts) ->
      prompt = py "Can we continue with the news?").
Proof.
  intros Hq. cbv zeta. unfold handle_user_question. rewrite Hq. cbn [negb].
  set (question := strip (data_get data [])).
  destruct (rag_system.ask_pdf_question env question (rag w)) as [a r].
  destruct w as [rg lang rd pz cn [|] em sp];
    cbn -[NewsReadingSystem.dict_get continue_prompts py str_eqb];
    rewrite <- ?app_assoc;
    repeat split; try (intros; now apply dict_get_missing);
    now rewrite app_nil_r.
Qed.

(** X16: [handle_set_language] takes ['english'] when the payload names no
    language. For the current language it only answers [ready], and nothing
    is reloaded. For another language it switches [current_language], enters
    [initialize_rag] once with it, and answers [ready] with the new document
    loaded, or [error] with the old document still in place under the new
    language. The reading, pause and cancel flags are never touched. *)
Theorem set_language_reloads (sid : SessionId) (language : option str)
  (w : World) :
  let new_language := data_get language rag_system.english in
  let w' := handle_set_language env sid language w in
  current_language w' = new_language
  /\ is_reading_news w' = is_reading_news w
  /\ is_paused_for_question w' = is_paused_for_question w
  /\ speech_cancelled w' = speech_cancelled w
  /\ (new_language = current_language w ->
      w' = emit sid (language_set new_language ready) w)
  /\ (new_language <> current_language w ->
      rag_system.calls (rag w')
      = rag_system.calls (rag w)
        ++ [NewsReadingSystem.CallInitialize new_language]
      /\ (forall ns,
            rag_system.pdf_exists env = true ->
            rag_system.construct env new_language = Some ns ->
            rag_system.news_system (rag w') = Some ns
            /\ emitted w'
               = emitted w ++ [(sid, language_set new_language ready)])
      /\ (rag_system.pdf_exists env = false
          \/ rag_system.construct env new_language = None ->
          rag_system.news_system (rag w') = rag_system.news_system (rag w)
          /\ emitted w'
             = emitted w ++ [(sid, language_set new_language error)])).
Proof.
  cbv zeta. unfold handle_set_language.
  set (new_language := data_get language rag_system.english).
  destruct (str_eqb new_language (current_language w)) eqn:E; cbn [negb].
  - apply str_eqb_eq in E.
    destruct w as [rg lang rd pz cn an em sp].
    cbn [emit current_language rag is_reading_news is_paused_for_question
         speech_cancelled news_anchor emitted spoken cursor] in *.
    subst lang.
    do 4 (split; [reflexivity|]). split; [reflexivity|].
    intros Hne. now elim Hne.
  - assert (Hne : new_language <> current_language w).
    { intros Heq. apply str_eqb_eq in Heq. congruence. }
    destruct w as [rg lang rd pz cn an em sp].
    cbn [set_language current_language rag is_reading_news
         is_paused_for_question speech_cancelled news_anchor emitted spoken] in *.
    destruct (rag_system.initialize_rag env new_language rg) as [ok r] eqn:Ei.
    cbn [set_rag emit current_language rag is_reading_news
         is_paused_for_question speech_cancelled news_anchor emitted spoken cursor].
    do 4 (split; [reflexivity|]).
    split; [intros Heq; now elim Hne|]. intros _.
    split; [|split].
    + unfold rag_system.initialize_rag in Ei.
      destruct (rag_system.pdf_exists env); cbn [negb] in Ei.
      * destruct (rag_system.construct env new_language);
          injection Ei as <- <-; reflexivity.
      * injection Ei as <- <-. reflexivity.
    + intros ns Hp Hc.
      rewrite (initialize_rag_ok env new_language rg Hp Hc) in Ei.
      injection Ei as <- <-. split; reflexivity.
    + intros Hf.
      rewrite (initialize_rag_fails env new_language rg Hf) in Ei.
      injection Ei as <- <-. split; reflexivity.
Qed.

End Questions.

Section QuestionsExamples.
Import PyStr working_voice Scenarios.

Lemma user_question_events_witness :
  emitted (handle_user_question no_env 7 (Some (py " gamma ")) paused_world)
  = [ (7, question_answer (py "gamma") NewsReadingSystem.msg_quota);
      (7, ask_continue (py "Can we continue with the news?")) ]
  /\ speech_cancelled
       (handle_user_question no_env 7 (Some (py " gamma ")) paused_world)
     = false.
Proof.
  destruct (@user_question_events no_env 7 (Some (py " gamma ")) paused_world
              eq_refl) as [He [_ [_ [Hc _]]]].
  split; [exact He | exact Hc].
Defined.

End QuestionsExamples.

(* ===================================================================== *)
(** * The voice loop: get_response and run *)
(* ===================================================================== *)

Section Anchor.
Import PyStr working_voice.NewsAnchorAI.

Variable env : rag_system.Env.

Lemma any_in_spec (words : list str) (s : str) :
  any_in words s = true <-> exists word, In word words /\ contains word s = true.
Proof. unfold any_in. apply existsb_exists. Qed.

(** X17: [get_response] on a non-empty input answers the greeting when the
    lower-cased input contains one of the greeting words as a substring, so
    for every input containing [hi], as in [which] or [this]; the thanks
    reply comes second and the farewell third; the document is consulted
    only when none of the ten words occurs. An empty or missing input gets
    the request to repeat. *)
Theorem get_response_small_talk (user_input : str) (st : rag_system.State) :
  user_input <> [] ->
  let user_lower := lower user_input in
  (any_in greeting_words user_lower = true ->
   get_response env (Some user_input) st = (msg_greeting, st))
  /\ (contains (py "hi") user_lower = true ->
      get_response env (Some user_input) st = (msg_greeting, st))
  /\ (any_in greeting_words user_lower = false ->
      any_in thanks_words user_lower = true ->
      get_response env (Some user_input) st = (msg_welcome, st))
  /\ (any_in greeting_words user_lower = false ->
      any_in thanks_words user_lower = false ->
      any_in farewell_words user_lower = true ->
      get_response env (Some user_input) st = (msg_farewell, st))
  /\ (rag_system.calls (snd (get_response env (Some user_input) st))
      <> rag_system.calls st ->
      forall word,
        In word (greeting_words ++ thanks_words ++ farewell_words) ->
        contains word user_lower = false)
  /\ get_response env None st = (msg_repeat, st)
  /\ get_response env (Some []) st = (msg_repeat, st).
Proof.
  intros Hne user_lower.
  destruct user_input as [|c u]; [contradiction|].
  unfold get_response. fold user_lower.
  assert (Hhi : contains (py "hi") user_lower = true ->
                any_in greeting_words user_lower = true).
  { intros H. apply any_in_spec. exists (py "hi"). split; [|exact H].
    cbn. auto. }
  split; [now intros ->|]. split; [intros H; now rewrite (Hhi H)|].
  split; [now intros -> ->|]. split; [now intros -> -> ->|].
  split; [|split; reflexivity].
  intros Hcalls word Hin.
  destruct (contains word user_lower) eqn:Hw; [|reflexivity].
  exfalso. apply Hcalls.
  apply in_app_or in Hin. destruct Hin as [Hin|Hin].
  - assert (Hg : any_in greeting_words user_lower = true)
      by (apply any_in_spec; eauto).
    now rewrite Hg.
  - destruct (any_in greeting_words user_lower); [reflexivity|].
    apply in_app_or in Hin. destruct Hin as [Hin|Hin].
    + assert (Hg : any_in thanks_words user_lower = true)
        by (apply any_in_spec; eauto).
      now rewrite Hg.
    + destruct (any_in thanks_words user_lower); [reflexivity|].
      assert (Hg : any_in farewell_words user_lower = true)
        by (apply any_in_spec; eauto).
      now rewrite Hg.
Qed.

Lemma conversation_goes_on (heard : list (option str)) (st : rag_system.State) :
  Forall goes_on heard -> snd (conversation env heard st) = false.
Proof.
  intros H. revert st. induction H as [|u heard Hu _ IH]; intros st; [reflexivity|].
  cbn [conversation]. destruct u as [[|c text]|]; try apply IH.
  cbn [goes_on] in Hu. rewrite Hu.
  destruct (get_response env _ st) as [response st'].
  specialize (IH st'). destruct (conversation env heard st') as [[said st''] ended].
  exact IH.
Qed.

Lemma conversation_exit (before after : list (option str)) (text : str)
  (st : rag_system.State) :
  Forall goes_on before -> text <> [] ->
  any_in exit_words (lower text) = true ->
  conversation env (before ++ Some text :: after) st
  = ((fst (fst (conversation env before st)) ++ [msg_goodbye],
      snd (fst (conversation env before st))), true).
Proof.
  intros H Hne Hexit. revert st.
  induction H as [|u before Hu _ IH]; intros st.
  - cbn [app conversation fst snd]. destruct text as [|c text]; [contradiction|].
    now rewrite Hexit.
  - cbn [app conversation]. destruct u as [[|c u]|]; try apply IH.
    cbn [goes_on] in Hu. rewrite Hu.
    destruct (get_response env _ st) as [response st'].
    rewrite IH. destruct (conversation env before st') as [[said st''] ended].
    reflexivity.
Qed.

(** X18: the conversation loop of [run] goes on as long as no input contains
    an exit word, and at the first input that contains one, as a substring
    of its lower case, it says goodbye and ends: that input is not answered
    and what is heard after it has no effect. *)
Theorem run_stops_at_exit_word (before after : list (option str)) (text : str)
  (st : rag_system.State) :
  Forall goes_on before -> text <> [] ->
  any_in exit_words (lower text) = true ->
  snd (run env before st) = false
  /\ run env (before ++ Some text :: after) st
     = ((fst (fst (run env before st)) ++ [msg_goodbye],
         snd (fst (run env before st))), true).
Proof.
  intros H Hne Hexit. unfold run.
  rewrite (conversation_exit after st H Hne Hexit).
  pose proof (conversation_goes_on st H) as Hgo.
  destruct (conversation env before st) as [[said st'] ended].
  cbn [fst snd] in *. split; [exact Hgo | reflexivity].
Qed.

End Anchor.

Section AnchorExamples.
Import PyStr working_voice.NewsAnchorAI Scenarios.

Lemma get_response_small_talk_witness :
  get_response no_env (Some (py "Which documents are required?")) rag_system.initial
  = (msg_greeting, rag_system.initial).
Proof.
  destruct (@get_response_small_talk no_env
              (py "Which documents are required?") rag_system.initial)
    as [_ [H _]].
  - discriminate.
  - apply H. vm_compute. reflexivity.
Defined.

Lemma run_stops_at_exit_word_witness :
  run no_env [Some (py "hello there"); None; Some (py "Nonstop news"); Some (py "thanks")]
      rag_system.initial
  = (([msg_greeting; msg_greeting; msg_goodbye], rag_system.initial), true).
Proof.
  destruct (@run_stops_at_exit_word no_env [Some (py "hello there"); None]
              [Some (py "thanks")] (py "Nonstop news") rag_system.initial)
    as [_ H].
  - repeat constructor.
  - discriminate.
  - vm_compute. reflexivity.
  - exact H.
Defined.

End AnchorExamples.

(* ===================================================================== *)
(** * The narration thread: stopping, resuming, a whole reading *)
(* ===================================================================== *)

Section Stopping.
Import PyStr working_voice.

Variable env : rag_system.Env.


Lemma halted_step (w : World) (t : Thread) :
  halted w ->
  halted (fst (thread_step w t))
  /\ spoken (fst (thread_step w t)) = spoken w
  /\ steps_left (pc (snd (thread_step w t))) <= steps_left (pc t) - 1
  /\ List.length (dispatched (fst (thread_step w t)))
       + may_dispatch (pc (snd (thread_step w t)))
     <= List.length (dispatched w) + may_dispatch (pc t).
Proof.
  intros [Hr Hc]. destruct t as [sid p].
  destruct w as [rg lang rd pz cn an em sp].
  cbn [is_reading_news speech_cancelled] in Hr, Hc. subst rd cn.
  unfold halted.
  destruct p as [ | intro | | | | | | s hm | s hm | s hm | s hm | hm | | ];
    unfold thread_step; cbn [pc session_id].
  - cbn. unfold dispatched. cbn [emitted]. rewrite flat_map_app. cbn.
    rewrite app_nil_r. repeat split; lia.
  - rewrite andb_false_r. cbn. repeat split; lia.
  - cbn. repeat split; lia.
  - cbn. repeat split; lia.
  - rewrite orb_true_r. cbn. repeat split; lia.
  - cbn. repeat split; lia.
  - cbn [rag].
    destruct (rag_system.get_next_sentence rg) as [[[s|] hm] r];
      [destruct (truthy s)|]; cbn; repeat split; lia.
  - cbn. unfold dispatched. cbn [emitted]. rewrite flat_map_app, length_app.
    cbn. repeat split; lia.
  - rewrite andb_false_r. cbn. repeat split; lia.
  - cbn. repeat split; lia.
  - rewrite orb_true_r. cbn. repeat split; lia.
  - destruct hm; cbn; [repeat split; lia|].
    unfold dispatched. cbn [emitted]. rewrite flat_map_app. cbn.
    rewrite app_nil_r. repeat split; lia.
  - cbn. repeat split; lia.
  - cbn. unfold dispatched. cbn [emitted]. rewrite flat_map_app. cbn.
    rewrite app_nil_r. repeat split; lia.
Qed.

Lemma thread_step_session (w : World) (t : Thread) :
  session_id (snd (thread_step w t)) = session_id t.
Proof.
  destruct t as [sid p]. unfold thread_step. cbn [pc session_id].
  destruct p; try reflexivity.
  - now destruct (news_anchor w && negb (speech_cancelled w)).
  - now destruct (is_reading_news w).
  - now destruct (is_paused_for_question w || speech_cancelled w).
  - destruct (rag_system.get_next_sentence (rag w)) as [[[s|] hm] r];
      [now destruct (truthy s) | reflexivity].
  - now destruct (news_anchor w && negb (speech_cancelled w)).
  - now destruct (is_paused_for_question w || speech_cancelled w).
  - now destruct (negb has_more).
Qed.

Lemma halted_run (k : nat) (w : World) (t : Thread) :
  halted w ->
  exists t',
    run env (repeat (Tick 0) k) (w, [t]) = (fst (run env (repeat (Tick 0) k) (w, [t])), [t'])
    /\ session_id t' = session_id t
    /\ halted (fst (run env (repeat (Tick 0) k) (w, [t])))
    /\ spoken (fst (run env (repeat (Tick 0) k) (w, [t]))) = spoken w
    /\ steps_left (pc t') <= steps_left (pc t) - k
    /\ List.length (dispatched (fst (run env (repeat (Tick 0) k) (w, [t]))))
         + may_dispatch (pc t')
       <= List.length (dispatched w) + may_dispatch (pc t).
Proof.
  revert w t. induction k as [|k IH]; intros w t Hh.
  - exists t. cbn [repeat run fold_left fst].
    split; [reflexivity|]. split; [reflexivity|]. split; [exact Hh|].
    split; [reflexivity|]. split; lia.
  - cbn [repeat run fold_left]. rewrite tick_single.
    destruct (halted_step t Hh) as [Hh' [Hsp [Hst Hd]]].
    destruct (IH (fst (thread_step w t)) (snd (thread_step w t)) Hh')
      as [t' [Ets [Hsid [Hh'' [Hsp' [Hst' Hd']]]]]].
    unfold run in *.
    exists t'. split; [exact Ets|].
    split; [now rewrite Hsid, thread_step_session|].
    split; [exact Hh''|].
    split; [now rewrite Hsp', Hsp|]. split; lia.
Qed.

Lemma steps_left_bound (p : Pc) : steps_left p <= 5.
Proof. destruct p; cbn; lia. Qed.

Lemma steps_left_zero (p : Pc) : steps_left p = 0 -> p = Finished.
Proof. destruct p; cbn; congruence. Qed.

(** X19: after [stop_reading] or [cancel_session], wherever the narration
    thread stands, five steps of it are enough to bring it to its end; from
    then on the lifecycle is Stopped, nothing more is handed to [speak], and
    at most one more sentence is dispatched, namely when the thread stood
    between the pull of a sentence and its emission. *)
Theorem stop_is_honoured (sid : SessionId) (c : Command) (w : World)
  (t : Thread) (k : nat) :
  c = stop_reading \/ c = cancel_session ->
  5 <= k ->
  let sys := run env (Handle sid c :: repeat (Tick 0) k) (w, [t]) in
  snd sys = [mkThread (session_id t) Finished]
  /\ lifecycle (fst sys) = Stopped
  /\ spoken (fst sys) = spoken w
  /\ List.length (dispatched (fst sys))
     <= List.length (dispatched w) + may_dispatch (pc t).
Proof.
  intros Hc Hk sys.
  assert (Hstart : exists w0,
            sys = run env (repeat (Tick 0) k) (w0, [t])
            /\ halted w0 /\ spoken w0 = spoken w
            /\ dispatched w0 = dispatched w).
  { subst sys. destruct Hc as [-> | ->]; cbn [run fold_left sys_step handle app].
    - exists (handle_stop_reading sid w). split; [reflexivity|].
      destruct w. unfold halted, dispatched. cbn. rewrite flat_map_app. cbn.
      now rewrite app_nil_r.
    - exists (handle_cancel_session sid w). split; [reflexivity|].
      destruct w. unfold halted, dispatched. cbn. auto. }
  destruct Hstart as [w0 [-> [Hh [Hsp Hd]]]].
  destruct (halted_run k t Hh) as [t' [Ets [Hsid [Hh' [Hsp' [Hst Hd']]]]]].
  pose proof (steps_left_bound (pc t)) as Hb.
  assert (Hf : pc t' = Finished) by (apply steps_left_zero; lia).
  rewrite Ets. cbn [fst snd].
  split; [destruct t'; cbn in *; now subst|].
  split.
  - destruct Hh' as [Hr Hcn]. unfold lifecycle. now rewrite Hr, Hcn.
  - split; [now rewrite Hsp', Hsp|].
    rewrite Hf in Hd'. cbn [may_dispatch] in Hd'. rewrite <- Hd. lia.
Qed.

End Stopping.

Section Reading.
Import PyStr working_voice.

Variable env : rag_system.Env.

Lemma step_nth_finished (w : World) (ts : list Thread) (i : nat) :
  Forall (fun t => pc t = Finished) ts -> step_nth w ts i = (w, ts).
Proof.
  intros H. revert i. induction H as [|t ts Ht _ IH]; intros i.
  - now destruct i.
  - destruct i as [|i]; cbn [step_nth].
    + destruct t as [sid p]. cbn [pc] in Ht. subst p. reflexivity.
    + now rewrite IH.
Qed.

(** X20: [continue_reading] starts no narration thread: once the threads
    have run to their end it sets the lifecycle to Reading and emits
    [reading_resumed], and nothing is dispatched or spoken afterwards and the
    cursor stays. *)
Theorem continue_does_not_restart (sid : SessionId) (response : option str)
  (w : World) (ts : list Thread) (ticks : list nat) :
  Forall (fun t => pc t = Finished) ts ->
  let sys :=
    run env (Handle sid (continue_reading response) :: map Tick ticks) (w, ts) in
  lifecycle (fst sys) = Reading
  /\ snd sys = ts
  /\ dispatched (fst sys) = dispatched w
  /\ spoken (fst sys) = spoken w
  /\ cursor (fst sys) = cursor w
  /\ In (sid, reading_resumed continuing) (emitted (fst sys)).
Proof.
  intros Hts sys. subst sys. cbn [run fold_left sys_step handle].
  rewrite app_nil_r.
  set (w0 := handle_continue_reading sid response w).
  assert (Hrun : fold_left (fun s a => sys_step env a s) (map Tick ticks) (w0, ts)
                 = (w0, ts)).
  { induction ticks as [|i ticks IH]; [reflexivity|].
    cbn [map fold_left sys_step]. now rewrite step_nth_finished. }
  rewrite Hrun. cbn [fst snd]. subst w0.
  destruct w. unfold dispatched. cbn. rewrite !flat_map_app. cbn.
  rewrite !app_nil_r. repeat split; auto.
  rewrite !in_app_iff. cbn. auto.
Qed.

Lemma step_nth_world (w : World) (ts : list Thread) (i : nat) :
  fst (step_nth w ts i)
  = match nth_error ts i with
    | Some t => fst (thread_step w t)
    | None => w
    end.
Proof.
  revert i. induction ts as [|t ts IH]; intros i; [now destruct i|].
  destruct i as [|i]; cbn [step_nth nth_error].
  - now destruct (thread_step w t).
  - rewrite <- IH. now destruct (step_nth w ts i).
Qed.

Lemma step_nth_nth (w : World) (ts : list Thread) (i m : nat) :
  nth_error (snd (step_nth w ts i)) m
  = if m =? i
    then option_map (fun t => snd (thread_step w t)) (nth_error ts i)
    else nth_error ts m.
Proof.
  revert i m. induction ts as [|t ts IH]; intros i m.
  - assert (E : step_nth w [] i = (w, [])) by now destruct i.
    rewrite E. cbn [snd].
    assert (En : forall n, nth_error (@nil Thread) n = None) by now intros [|n].
    rewrite !En. now destruct (m =? i).
  - destruct i as [|i]; cbn [step_nth].
    + destruct (thread_step w t) as [w' t'] eqn:E. cbn [snd].
      destruct m as [|m]; cbn; [now rewrite E | reflexivity].
    + specialize (IH i). destruct (step_nth w ts i) as [w' ts'']. cbn [snd] in *.
      destruct m as [|m]; [reflexivity|]. cbn [nth_error Nat.eqb]. apply IH.
Qed.

Lemma idle_step (w : World) (t : Thread) :
  idle t ->
  idle (snd (thread_step w t))
  /\ rag (fst (thread_step w t)) = rag w
  /\ dispatched (fst (thread_step w t)) = dispatched w.
Proof.
  destruct t as [sid p]. unfold idle. cbn [pc].
  intros [-> | ->]; unfold thread_step; cbn [pc session_id fst snd].
  - auto.
  - rewrite dispatched_emit. cbn. rewrite app_nil_r. auto.
Qed.

Lemma step_reads_alone (sentences : list str) (c : nat) (already : list str)
  (a : Action) (sys : System) :
  Forall (fun x => truthy x = true) sentences ->
  keeps_reading a ->
  reads_alone sentences c already sys ->
  reads_alone sentences c already (sys_step env a sys).
Proof.
  intros Htruthy Ha. destruct sys as [w ts].
  intros (k & t & Hk & Hidle & Hord). cbn [fst snd] in *.
  destruct a as [i | sid cmd]; cbn [sys_step].
  - destruct (Nat.eq_dec i k) as [-> | Hik].
    + (* the narration steps *)
      exists k, (snd (thread_step w t)).
      split; [|split].
      * rewrite step_nth_nth, Nat.eqb_refl, Hk. reflexivity.
      * intros m x Hm Hx. rewrite step_nth_nth in Hx.
        destruct (Nat.eqb_spec m k) as [->|_]; [contradiction|].
        now apply (Hidle m).
      * rewrite step_nth_world, Hk.
        pose proof (tick_in_order env Htruthy Hord) as H.
        now rewrite tick_single in H.
    + (* another thread steps, or none *)
      exists k, t. split; [|split].
      * rewrite step_nth_nth. destruct (Nat.eqb_spec k i) as [->|_];
          [contradiction | exact Hk].
      * intros m x Hm Hx. rewrite step_nth_nth in Hx.
        destruct (Nat.eqb_spec m i) as [->|_]; [|now apply (Hidle m)].
        destruct (nth_error ts i) as [y|] eqn:Ey; [|discriminate].
        cbn [option_map] in Hx. injection Hx as <-.
        apply idle_step. now apply (Hidle i).
      * rewrite step_nth_world.
        destruct (nth_error ts i) as [y|] eqn:Ey; [|exact Hord].
        destruct (@idle_step w y (Hidle i y Hik Ey)) as [_ [Hr Hd]].
        eapply in_order_ext; [| | |exact Hord]; cbn [fst snd];
          [reflexivity | now rewrite Hr | exact Hd].
  - assert (Hnew : snd (handle env sid cmd w) = []).
    { destruct cmd; cbn in Ha; try contradiction; reflexivity. }
    assert (Hdoc : keeps_document (Handle sid cmd)).
    { destruct cmd; cbn in Ha |- *; auto. }
    pose proof (@step_in_order env sentences c already (Handle sid cmd)
                  (w, [t]) Htruthy Hdoc Hord) as H.
    cbn [sys_step] in H.
    destruct (handle env sid cmd w) as [w' new]. cbn [snd] in Hnew. subst new.
    cbn [app] in H. rewrite app_nil_r.
    exists k, t. cbn [fst snd]. auto.
Qed.

Lemma run_reads_alone (sentences : list str) (c : nat) (already : list str)
  (acts : list Action) (sys : System) :
  Forall (fun x => truthy x = true) sentences ->
  Forall keeps_reading acts ->
  reads_alone sentences c already sys ->
  reads_alone sentences c already (run env acts sys).
Proof.
  intros Htruthy Hacts. revert sys.
  induction Hacts as [|a acts Ha _ IH]; intros sys H; [exact H|].
  cbn [run fold_left]. apply IH. now apply step_reads_alone.
Qed.

(** X21: when every narration thread started earlier has ended, then from
    [start_reading] on, under every schedule of steps of the threads,
    the rest of the handler included, and of commands other than a new
    [start_reading] or [set_language], the sentences dispatched are a prefix
    of the document, in order, without a repeat or a gap, and the cursor is
    at most one sentence ahead of them. *)
Theorem reading_follows_document (sid : SessionId) (w : World)
  (ts : list Thread) (ns : NewsReadingSystem.t) (acts : list Action) :
  rag_system.news_system (rag w) = Some ns ->
  Forall (fun x => truthy x = true) (NewsReadingSystem.sentences ns) ->
  Forall idle ts ->
  Forall keeps_reading acts ->
  let sys := run env (Handle sid start_reading :: acts) (w, ts) in
  exists j,
    dispatched (fst sys) = dispatched w ++ firstn j (NewsReadingSystem.sentences ns)
    /\ (cursor (fst sys) = Some j \/ cursor (fst sys) = Some (j + 1)).
Proof.
  intros Hn Htruthy Hts Hacts sys. subst sys. cbn [run fold_left].
  set (sys0 := sys_step env (Handle sid start_reading) (w, ts)).
  assert (H0 : reads_alone (NewsReadingSystem.sentences ns) 0 (dispatched w) sys0).
  { subst sys0. cbn [sys_step handle handle_start_reading].
    exists (List.length ts), (mkThread sid AtIntro). cbn [fst snd].
    split; [|split].
    - rewrite nth_error_app2 by lia. now rewrite Nat.sub_diag.
    - intros i x Hi Hx.
      destruct (Nat.lt_ge_cases i (List.length ts)) as [Hlt|Hge].
      + rewrite nth_error_app1 in Hx by exact Hlt.
        rewrite Forall_forall in Hts. apply Hts.
        eapply nth_error_In. exact Hx.
      + rewrite nth_error_app2 in Hx by exact Hge.
        destruct (i - List.length ts) as [|[|d]] eqn:Ed; [lia| |].
        * cbn in Hx. injection Hx as <-. now right.
        * cbn in Hx. now destruct d.
    - exists (mkThread sid AtIntro), (NewsReadingSystem.reset_position ns), 0.
      destruct w as [[system log] lang rd pz cn an em sp].
      cbn [rag rag_system.news_system] in Hn. subst system.
      unfold dispatched.
      cbn [fst snd set_rag set_cancelled set_paused set_reading rag emitted
           rag_system.reset_reading rag_system.news_system pc pending
           List.length NewsReadingSystem.reset_position
           NewsReadingSystem.set_current_position NewsReadingSystem.sentences
           NewsReadingSystem.current_position Nat.sub Nat.add firstn].
      rewrite app_nil_r.
      repeat split; try reflexivity; congruence. }
  pose proof (run_reads_alone Htruthy Hacts H0) as H.
  unfold run in H.
  destruct H as (k & t0 & _ & _ & (t & ns' & j & Hts' & Hns & Hs & Hcp & Hd & Hp)).
  cbn [fst snd] in *.
  exists (j - List.length (pending (pc t))).
  cbn [skipn] in Hd. split; [exact Hd|].
  unfold cursor. rewrite Hns. cbn [option_map]. rewrite Hcp. cbn [Nat.add].
  destruct (pending (pc t)) as [|x [|y l]] eqn:Ep.
  - left. cbn. f_equal. lia.
  - right. destruct (Hp x eq_refl) as [Hj _]. cbn. f_equal. lia.
  - destruct (pc t); cbn in Ep; discriminate.
Qed.

End Reading.

Section WholeReading.
Import PyStr working_voice.

Variable env : rag_system.Env.













End WholeReading.

(* ===================================================================== *)
(** * A question during the reading *)
(* ===================================================================== *)

Section Interruption.
Import PyStr working_voice.

Variable env : rag_system.Env.













End Interruption.

Section InterruptionExamples.
Import PyStr working_voice Scenarios.



End InterruptionExamples.

Section LoadingExamples.
Import PyStr NewsReadingSystem Scenarios.

Lemma setup_document_witness :
  exists ns,
    setup two_pages (py "hindi") = Some ns
    /\ current_position ns = 0
    /\ sentences ns
       = [ py "The council met on Monday evening.";
           py "It approved the new budget for schools." ]
    /\ chunks ns
       = [ py "The council met on Monday evening. It approved the new budget for schools." ].
Proof.
  eexists. split; [reflexivity|].
  destruct (@setup_document two_pages (py "hindi") _ eq_refl)
    as [pages [generate [_ [_ [_ [_ [Hp [_ [Hc _]]]]]]]]].
  split; [exact Hp|]. split; [reflexivity | reflexivity].
Defined.

Lemma tracker_accounting_witness :
  get_remaining_text (after_calls 2 three_sentences)
  = py "The weather was sunny and warm today."
  /\ reset_position (after_calls 2 three_sentences) = three_sentences.
Proof.
  destruct (@tracker_accounting three_sentences 2 eq_refl)
    as [_ [H2 [_ [_ [_ H6]]]]].
  split; [exact H2 | exact H6].
Defined.

End LoadingExamples.

Section ReadingExamples.
Import PyStr working_voice Scenarios.

Lemma stop_is_honoured_witness :
  let sys := run no_env (Handle 1 stop_reading :: repeat (Tick 0) 5)
               (reading_second, [speaking_second]) in
  snd sys = [mkThread 1 Finished]
  /\ lifecycle (fst sys) = Stopped
  /\ spoken (fst sys) = []
  /\ List.length (dispatched (fst sys)) <= 2.
Proof.
  apply (@stop_is_honoured no_env 1 stop_reading reading_second speaking_second 5).
  - now left.
  - lia.
Defined.

Lemma continue_does_not_restart_witness :
  let sys := run no_env (Handle 1 (continue_reading None) :: map Tick [0; 0; 0])
               (idle_world, [finished_thread]) in
  lifecycle (fst sys) = Reading
  /\ snd sys = [finished_thread]
  /\ dispatched (fst sys) = []
  /\ spoken (fst sys) = []
  /\ cursor (fst sys) = Some 0
  /\ In (1, reading_resumed continuing) (emitted (fst sys)).
Proof.
  apply (@continue_does_not_restart no_env 1 None idle_world [finished_thread]
           [0; 0; 0]).
  repeat constructor.
Defined.

Lemma reading_follows_document_witness :
  let sys :=
    run no_env
      (Handle 1 start_reading
       :: repeat (Tick 1) 9
          ++ [Handle 2 ask_question; Tick 1; Tick 2;
              Handle 2 (user_question (Some (py "why?")));
              Handle 1 (continue_reading None)]
          ++ repeat (Tick 1) 9)
      (idle_world, [finished_thread]) in
  exists j,
    dispatched (fst sys)
    = dispatched idle_world
      ++ firstn j (NewsReadingSystem.sentences three_sentences)
    /\ (cursor (fst sys) = Some j \/ cursor (fst sys) = Some (j + 1)).
Proof.
  apply (@reading_follows_document no_env 1 idle_world [finished_thread]
           three_sentences).
  - reflexivity.
  - repeat constructor.
  - constructor; [left; reflexivity | constructor].
  - repeat constructor.
Defined.


End ReadingExamples.
